(** * Luna: a shallow embedding of the conversation turn controller

    The development follows the layout of the repository:
    - [JS]       the few ECMAScript string primitives the code relies on
                 ([String.prototype.trim], [includes], truthiness);
    - [Gemini]   [services/geminiService.ts]: the service manager with its
                 metrics, [initLunaChat] and [sendUserMessageToLuna];
    - [Synthesis], [Recognition]
                 the two hooks of [hooks/useSpeechSynthesis.ts];
    - [App]      the controller callbacks of [App.tsx];
    - [DateTime], [JSON]
                 the part of the platform that the session store goes through;
    - [Storage]  [services/storageService.ts].

    Strings are sequences of UTF-16 code units, as in the language: [length]
    counts code units and [trim] removes the ECMAScript white space set. *)

From Stdlib Require Import ZArith NArith QArith List Bool String Ascii Lia.
From Stdlib Require Import DecimalString.
From stdpp Require Import base option list gmap.
Import ListNotations.

Set Default Proof Using "Type".
Local Open Scope nat_scope.

(* ===================================================================== *)
(** ** ECMAScript strings *)
(* ===================================================================== *)

Module JS.

(** A string value: a finite sequence of UTF-16 code units. *)
Abbreviation jsstring := (list N).

(** String literals of the source that are plain ASCII. *)
Fixpoint lit (s : string) : jsstring :=
  match s with
  | EmptyString => []
  | String a s' => N_of_ascii a :: lit s'
  end.

(** WhiteSpace and LineTerminator code points (ECMA-262, 12.2 and 12.3):
    the characters removed by [String.prototype.trim]. *)
Definition is_whitespace (c : N) : bool :=
  ((9 <=? c) && (c <=? 13) ||
   (c =? 32) || (c =? 160) || (c =? 5760) ||
   (8192 <=? c) && (c <=? 8202) ||
   (c =? 8232) || (c =? 8233) || (c =? 8239) || (c =? 8287) ||
   (c =? 12288) || (c =? 65279))%N.

Fixpoint trimStart (s : jsstring) : jsstring :=
  match s with
  | [] => []
  | c :: s' => if is_whitespace c then trimStart s' else s
  end.

Definition trimEnd (s : jsstring) : jsstring := rev (trimStart (rev s)).

(** [s.trim()] *)
Definition trim (s : jsstring) : jsstring := trimEnd (trimStart s).

Fixpoint startsWith (s p : jsstring) {struct p} : bool :=
  match p, s with
  | [], _ => true
  | _ :: _, [] => false
  | a :: p', b :: s' => (a =? b)%N && startsWith s' p'
  end.

(** [s.includes(sub)] *)
Fixpoint includes (s sub : jsstring) : bool :=
  startsWith s sub ||
  match s with
  | [] => false
  | _ :: s' => includes s' sub
  end.

(** [a === b] on strings. *)
Fixpoint eqb (a b : jsstring) : bool :=
  match a, b with
  | [], [] => true
  | x :: a', y :: b' => (x =? y)%N && eqb a' b'
  | _, _ => false
  end.

(** ToBoolean on a string: only the empty string is falsy. *)
Definition truthy (s : jsstring) : bool :=
  match s with [] => false | _ :: _ => true end.

(** ToBoolean on [string | null]. *)
Definition truthy_opt (o : option jsstring) : bool :=
  match o with None => false | Some s => truthy s end.

(** A string that consists of white space only (the empty one included). *)
Definition blank (s : jsstring) : bool := forallb is_whitespace s.

(** [Number.prototype.toString()] for an integral time value. *)
Definition Z_toString (z : Z) : jsstring :=
  lit (NilZero.string_of_int (Z.to_int z)).

(** A value that was thrown: an [Error] carrying a message, or anything
    else (for which [instanceof Error] is false). *)
Inductive Thrown :=
| ErrorObj (message : jsstring)
| NonError.

(** How a call or a promise ends: with a value, or with something thrown. *)
Inductive Settlement (A : Type) :=
| Fulfilled (v : A)
| Rejected (e : Thrown).
Arguments Fulfilled {A} v.
Arguments Rejected {A} e.

End JS.
Import JS.

(* ===================================================================== *)
(** ** types.ts *)
(* ===================================================================== *)

Inductive ChatMessageSender := USER | LUNA | SYSTEM.

(** The run-time value of the string enum. *)
Definition sender_value (s : ChatMessageSender) : jsstring :=
  match s with
  | USER => lit "user"
  | LUNA => lit "luna"
  | SYSTEM => lit "system"
  end.

(** A [Date]: a time value in milliseconds since the epoch, or the
    Invalid Date ([None], time value NaN). *)
Abbreviation Date := (option Z).

Record ChatMessage := mkChatMessage {
  msg_id : jsstring;
  msg_sender : ChatMessageSender;
  msg_text : jsstring;
  msg_timestamp : Date;
  msg_audioUrl : option jsstring
}.

Inductive AppPhase :=
| INITIAL_SETUP
| READY_TO_CHAT
| USER_SPEAKING
| PROCESSING_USER_INPUT
| LUNA_THINKING
| LUNA_SPEAKING
| SESSION_ENDED
| ERROR.

Inductive JournalingMode := EPHEMERAL | PERSISTENT.

Record SymbolicNameData := { sn_id : jsstring; sn_name : jsstring }.

Record UserProfile := {
  symbolicName : SymbolicNameData;
  journalingMode : JournalingMode
}.

(** Console output, kept as an observable trace: the level and the text
    (format string and, where there is one, the message that follows it). *)
Inductive Console :=
| ConsoleError (text : jsstring)
| ConsoleWarn (text : jsstring)
| ConsoleLog (text : jsstring).

(* ===================================================================== *)
(** ** services/geminiService.ts *)
(* ===================================================================== *)

Module Gemini.

Record ServiceMetrics := mkMetrics {
  requestCount : N;
  errorCount : N;
  lastError : option jsstring;
  lastSuccessfulRequest : option Date;
  averageResponseTime : Q
}.

(** The SDK client held by the manager. *)
Record GoogleGenAI := { apiKey : jsstring }.

(** [GeminiServiceManager].  [metrics] is the object owned by the manager
    ([this.metrics]); [snapshots] are the objects that [getMetrics] has
    handed out: each call allocates a new one, [{ ...this.metrics }].
    All fields of [ServiceMetrics] hold primitives or are replaced as a
    whole, so a snapshot shares nothing with [this.metrics]. *)
Record GeminiServiceManager := mkManager {
  ai : option GoogleGenAI;
  metrics : ServiceMetrics;
  responseTimes : list Z;
  snapshots : list ServiceMetrics;
  production : bool;            (* process.env.NODE_ENV === 'production' *)
  console : list Console
}.

(** A reference to a metrics object: the manager's own, or the [n]-th
    snapshot. *)
Inductive MetricsRef := ThisMetrics | Snapshot (n : nat).

Definition load (r : MetricsRef) (g : GeminiServiceManager) : option ServiceMetrics :=
  match r with
  | ThisMetrics => Some (metrics g)
  | Snapshot n => snapshots g !! n
  end.

(** A write through a reference: it reaches the object that the reference
    designates and no other. *)
Definition store (r : MetricsRef) (f : ServiceMetrics -> ServiceMetrics)
    (g : GeminiServiceManager) : GeminiServiceManager :=
  match r with
  | ThisMetrics =>
      mkManager (ai g) (f (metrics g)) (responseTimes g) (snapshots g)
                (production g) (console g)
  | Snapshot n =>
      mkManager (ai g) (metrics g) (responseTimes g)
                (alter f n (snapshots g)) (production g) (console g)
  end.

Definition print (c : Console) (g : GeminiServiceManager) : GeminiServiceManager :=
  mkManager (ai g) (metrics g) (responseTimes g) (snapshots g)
            (production g) (console g ++ [c]).

Definition set_requestCount (n : N) (m : ServiceMetrics) : ServiceMetrics :=
  mkMetrics n (errorCount m) (lastError m) (lastSuccessfulRequest m)
            (averageResponseTime m).
Definition set_errorCount (n : N) (m : ServiceMetrics) : ServiceMetrics :=
  mkMetrics (requestCount m) n (lastError m) (lastSuccessfulRequest m)
            (averageResponseTime m).
Definition set_lastError (e : jsstring) (m : ServiceMetrics) : ServiceMetrics :=
  mkMetrics (requestCount m) (errorCount m) (Some e) (lastSuccessfulRequest m)
            (averageResponseTime m).
Definition set_lastSuccessfulRequest (d : Date) (m : ServiceMetrics) : ServiceMetrics :=
  mkMetrics (requestCount m) (errorCount m) (lastError m) (Some d)
            (averageResponseTime m).
Definition set_averageResponseTime (a : Q) (m : ServiceMetrics) : ServiceMetrics :=
  mkMetrics (requestCount m) (errorCount m) (lastError m)
            (lastSuccessfulRequest m) a.

(** [logError]: [this.metrics.errorCount++; this.metrics.lastError = error]. *)
Definition logError (error : jsstring) (g : GeminiServiceManager) : GeminiServiceManager :=
  let g1 := store ThisMetrics (fun m => set_errorCount (errorCount m + 1)%N m) g in
  let g2 := store ThisMetrics (set_lastError error) g1 in
  if production g2
  then print (ConsoleError (lit "[PRODUCTION ERROR] Gemini Service: " ++ error)) g2
  else g2.

(** [reduce((sum, time) => sum + time, 0)] *)
Definition sum_times (l : list Z) : Z := fold_left Z.add l 0%Z.

(** [recordResponseTime]; [responseTime] is [Date.now() - startTime].  The
    average is kept as an exact rational. *)
Definition recordResponseTime (responseTime : Z) (g : GeminiServiceManager)
    : GeminiServiceManager :=
  let pushed := responseTimes g ++ [responseTime] in
  (* Keep only last 100 response times for average calculation *)
  let kept := if 100 <? length pushed then tl pushed else pushed in
  let g1 := mkManager (ai g) (metrics g) kept (snapshots g)
                      (production g) (console g) in
  store ThisMetrics
    (set_averageResponseTime
       (inject_Z (sum_times kept) / inject_Z (Z.of_nat (length kept)))%Q) g1.

(** [getMetrics]: allocates and returns a copy, [{ ...this.metrics }]. *)
Definition getMetrics (g : GeminiServiceManager) : MetricsRef * GeminiServiceManager :=
  (Snapshot (length (snapshots g)),
   mkManager (ai g) (metrics g) (responseTimes g)
             (snapshots g ++ [metrics g]) (production g) (console g)).

(** [isHealthy] *)
Definition isHealthy (g : GeminiServiceManager) : bool :=
  match ai g with
  | None => false
  | Some _ => (errorCount (metrics g) <? 10)%N
  end.

Definition getAI (g : GeminiServiceManager) : option GoogleGenAI := ai g.

Definition fresh_metrics : ServiceMetrics := mkMetrics 0 0 None None 0%Q.

(** The constructor with [initializeService]: the key is
    [process.env.API_KEY || process.env.GEMINI_API_KEY]; [ctor] is the
    SDK's constructor, which may throw. *)
Definition new_GeminiServiceManager
    (API_KEY GEMINI_API_KEY : option jsstring) (prod : bool)
    (ctor : jsstring -> Settlement GoogleGenAI) : GeminiServiceManager :=
  let g0 := mkManager None fresh_metrics [] [] prod [] in
  let key := if truthy_opt API_KEY then API_KEY else GEMINI_API_KEY in
  match key with
  | Some k =>
      if truthy k then
        let g1 := if startsWith k (lit "AIza") then g0
                  else print (ConsoleWarn (lit "API key format may be incorrect. Expected format: AIza...")) g0 in
        match ctor k with
        | Fulfilled client =>
            print (ConsoleLog (9989%N :: lit " Gemini AI service initialized successfully"))
              (mkManager (Some client) (metrics g1) (responseTimes g1)
                         (snapshots g1) (production g1) (console g1))
        | Rejected e =>
            let msg := match e with ErrorObj m => m | NonError => lit "Unknown error" end in
            logError (lit "Initialization failed: " ++ msg)
              (print (ConsoleError (lit "Failed to initialize Gemini AI service: " ++ msg)) g1)
        end
      else
        logError (lit "API key not configured")
          (print (ConsoleError (lit "GEMINI_API_KEY environment variable not set. Service will not function.")) g0)
  | None =>
      logError (lit "API key not configured")
        (print (ConsoleError (lit "GEMINI_API_KEY environment variable not set. Service will not function.")) g0)
  end.

(** *** The chat handle *)

Record GenerateContentResponse := { text : option jsstring }.

(** What [chat.sendMessage({ message })] does for a given message: it
    throws at once, or returns a promise that settles [at_ms] milliseconds
    after the call, or one that never settles. *)
Inductive ApiCall :=
| ThrowsSync (e : Thrown)
| Settles (at_ms : N) (r : Settlement GenerateContentResponse)
| NeverSettles.

(** A [Chat]: the behaviour of the network client on each message. *)
Definition Chat := jsstring -> ApiCall.

Definition TIMEOUT_MS : N := 30000.

(** [Promise.race([apiCall, timeoutPromise])]: the settlement observed by
    the [await] and the time at which it is observed.  The timer is
    registered before the call is issued, so it wins a tie. *)
Definition race (c : ApiCall) : N * Settlement GenerateContentResponse :=
  match c with
  | Settles t r =>
      if (t <? TIMEOUT_MS)%N then (t, r)
      else (TIMEOUT_MS, Rejected (ErrorObj (lit "Request timeout")))
  | NeverSettles => (TIMEOUT_MS, Rejected (ErrorObj (lit "Request timeout")))
  | ThrowsSync e => (0%N, Rejected e)
  end.

(** The fixed replies of [sendUserMessageToLuna]. *)
Definition MSG_UNAVAILABLE : jsstring :=
  lit "I'm currently experiencing technical difficulties. Please try again in a moment.".
Definition MSG_DIDNT_CATCH : jsstring :=
  lit "I didn't catch that. Could you please share your thoughts again?".
Definition MSG_TOO_LONG : jsstring :=
  lit "That's quite a lot to process at once. Could you break that down into smaller thoughts for me?".
Definition MSG_EMPTY_RESPONSE : jsstring :=
  lit "I'm sorry, I seem to be having a little trouble forming a response right now. Could you try saying that again?".
Definition MSG_TIMEOUT : jsstring :=
  lit "I'm taking a bit longer than usual to respond. Please try again.".
Definition MSG_QUOTA : jsstring :=
  lit "I'm experiencing high demand right now. Please try again in a few minutes.".
Definition MSG_NETWORK : jsstring :=
  lit "I'm having trouble connecting right now. Please check your internet connection and try again.".
Definition MSG_UNKNOWN : jsstring :=
  lit "I'm having a bit of trouble at the moment. Please try again in a little while.".

(** What the caller of the async function observes. *)
Record SendResult := mkSendResult {
  settlement : Settlement (option jsstring);   (* Promise<string | null> *)
  elapsed : N;                  (* milliseconds until the promise settles *)
  sent : list jsstring;         (* messages handed to [chat.sendMessage] *)
  service : GeminiServiceManager
}.

(** [error instanceof Error ? error.message : 'Unknown error'] *)
Definition errorMessage_of (e : Thrown) : jsstring :=
  match e with
  | ErrorObj m => m
  | NonError => lit "Unknown error"
  end.

(** The [catch] block of [sendUserMessageToLuna]. *)
Definition send_catch (error : Thrown) (t : N) (sent : list jsstring)
    (g : GeminiServiceManager) : SendResult :=
  let errorMessage := errorMessage_of error in
  let g1 := print (ConsoleError (lit "Error sending message to Luna: " ++ errorMessage)) g in
  let g2 := logError (lit "API call failed: " ++ errorMessage) g1 in
  let reply :=
    if includes errorMessage (lit "timeout") then MSG_TIMEOUT
    else if includes errorMessage (lit "quota") || includes errorMessage (lit "limit")
    then MSG_QUOTA
    else if includes errorMessage (lit "network") || includes errorMessage (lit "connection")
    then MSG_NETWORK
    else MSG_UNKNOWN in
  mkSendResult (Fulfilled (Some reply)) t sent g2.

(** The [try] block of [sendUserMessageToLuna]; [clock] is [Date.now()]
    at the call. *)
Definition send_try (g : GeminiServiceManager) (clock : Z) (chat : Chat)
    (userMessageText : jsstring) : SendResult :=
  (* geminiService.getMetrics().requestCount++ *)
  let '(copy, g) := getMetrics g in
  let g := store copy (fun m => set_requestCount (requestCount m + 1)%N m) g in
  let message := trim userMessageText in
  match race (chat message) with
  | (t, Fulfilled response) =>
      (* Record successful response time *)
      let g := recordResponseTime (Z.of_N t) g in
      (* geminiService.getMetrics().lastSuccessfulRequest = new Date() *)
      let '(copy, g) := getMetrics g in
      let g := store copy (set_lastSuccessfulRequest (Some (clock + Z.of_N t)%Z)) g in
      (* Extract and validate response *)
      match text response with
      | Some lunaResponseText =>
          if truthy lunaResponseText && (0 <? length (trim lunaResponseText)) then
            mkSendResult (Fulfilled (Some (trim lunaResponseText))) t [message]
              (print (ConsoleLog (9989%N :: lit " Luna response generated (" ++
                                  Z_toString (Z.of_N t) ++ lit "ms)")) g)
          else
            mkSendResult (Fulfilled (Some MSG_EMPTY_RESPONSE)) t [message]
              (logError (lit "Empty response received")
                 (print (ConsoleError (lit "Luna's response was empty or not in the expected format.")) g))
      | None =>
          mkSendResult (Fulfilled (Some MSG_EMPTY_RESPONSE)) t [message]
            (logError (lit "Empty response received")
               (print (ConsoleError (lit "Luna's response was empty or not in the expected format.")) g))
      end
  | (t, Rejected error) => send_catch error t [message] g
  end.

(** The health check of [sendUserMessageToLuna]: a warning, nothing more. *)
Definition warn_if_unhealthy (g : GeminiServiceManager) : GeminiServiceManager :=
  if negb (isHealthy g)
  then print (ConsoleWarn (lit "Service health degraded. Attempting request anyway.")) g
  else g.

(** [sendUserMessageToLuna(chat, userMessageText, currentHistory)] *)
Definition sendUserMessageToLuna (g : GeminiServiceManager) (clock : Z)
    (chat : Chat) (userMessageText : jsstring)
    (currentHistory : list ChatMessage) : SendResult :=
  match getAI g with
  | None =>
      mkSendResult (Fulfilled (Some MSG_UNAVAILABLE)) 0 []
        (print (ConsoleError (lit "Gemini AI service not available. Cannot send message.")) g)
  | Some _ =>
      let g := warn_if_unhealthy g in
      (* Input validation and sanitization *)
      if negb (truthy userMessageText) || (length (trim userMessageText) =? 0) then
        mkSendResult (Fulfilled (Some MSG_DIDNT_CATCH)) 0 [] g
      else if 4000 <? length userMessageText then
        mkSendResult (Fulfilled (Some MSG_TOO_LONG)) 0 [] g
      else send_try g clock chat userMessageText
  end.

(** [getServiceMetrics]: the fields of the copy that [getMetrics] returns. *)
Definition getServiceMetrics (g : GeminiServiceManager) : ServiceMetrics :=
  let '(r, g') := getMetrics g in
  match load r g' with
  | Some m => m
  | None => metrics g
  end.

Definition isServiceHealthy (g : GeminiServiceManager) : bool := isHealthy g.

(** A turn of the history handed to the SDK. *)
Inductive Role := user | model.
Record Content := { role : Role; parts : list jsstring }.

(** [initLunaChat]; [create] is [ai.chats.create] for the persona prompt
    made for [symbolicName] and for the given history; it may throw. *)
Definition initLunaChat (g : GeminiServiceManager) (symbolicName : jsstring)
    (existingHistory : option (list Content))
    (create : jsstring -> list Content -> Settlement Chat)
    : option Chat * GeminiServiceManager :=
  match getAI g with
  | None =>
      (None,
       snd (getMetrics
              (print (ConsoleError (lit "Gemini AI service not available. Cannot create chat.")) g)))
  | Some _ =>
      let g :=
        if negb (isHealthy g)
        then print (ConsoleWarn (lit "Gemini AI service health check failed. Proceeding with caution.")) g
        else g in
      match create symbolicName (default [] existingHistory) with
      | Fulfilled chat =>
          (Some chat,
           print (ConsoleLog (9989%N :: lit " Luna chat initialized for " ++ symbolicName)) g)
      | Rejected error =>
          (None,
           snd (getMetrics
                  (print (ConsoleError (lit "Error creating Gemini chat: " ++
                                        errorMessage_of error)) g)))
      end
  end.

End Gemini.

(** The kinds of failure of an exchange, as the [catch] block tells them
    apart by the error message, and the reply that goes with each. *)
Module Failure.
Import Gemini.

Inductive FailureKind := Timeout | Quota | Connectivity | Unknown.

Definition classify (e : Thrown) : FailureKind :=
  let m := errorMessage_of e in
  if includes m (lit "timeout") then Timeout
  else if includes m (lit "quota") || includes m (lit "limit") then Quota
  else if includes m (lit "network") || includes m (lit "connection") then Connectivity
  else Unknown.

Definition apology (k : FailureKind) : jsstring :=
  match k with
  | Timeout => MSG_TIMEOUT
  | Quota => MSG_QUOTA
  | Connectivity => MSG_NETWORK
  | Unknown => MSG_UNKNOWN
  end.

(** The call has not settled [T] milliseconds after it was issued. *)
Definition unresolved_after (T : N) (c : ApiCall) : Prop :=
  match c with
  | Settles t _ => (T < t)%N
  | NeverSettles => True
  | ThrowsSync _ => False
  end.

(** All the ways in which [sendUserMessageToLuna] fails on a text that
    passes its guards: there is no client; the call throws, is rejected or
    loses the race against the timer, with a message of some class; the
    response carries no text (the code logs this as an error, too). *)
Inductive SendFailure :=
| NoClient
| CallFailed (k : FailureKind)
| EmptyResponse.

(** The reply that the function returns in each case. *)
Definition failure_reply (f : SendFailure) : jsstring :=
  match f with
  | NoClient => MSG_UNAVAILABLE
  | CallFailed k => apology k
  | EmptyResponse => MSG_EMPTY_RESPONSE
  end.

(** Which of them the send of [userMessageText] meets, if any. *)
Definition failure_of (g : GeminiServiceManager) (chat : Chat)
    (userMessageText : jsstring) : option SendFailure :=
  match getAI g with
  | None => Some NoClient
  | Some _ =>
      match race (chat (trim userMessageText)) with
      | (_, Rejected error) => Some (CallFailed (classify error))
      | (_, Fulfilled response) =>
          match text response with
          | Some lunaResponseText =>
              if truthy lunaResponseText && (0 <? length (trim lunaResponseText))
              then None else Some EmptyResponse
          | None => Some EmptyResponse
          end
      end
  end.

(** How many errors [logError] counts for it. *)
Definition counted (f : SendFailure) : N :=
  match f with
  | NoClient => 0
  | _ => 1
  end.

End Failure.

(** Two managers used in the examples: one built with a key in the
    environment, one built without. *)
Definition ready_service : Gemini.GeminiServiceManager :=
  Gemini.new_GeminiServiceManager (Some (lit "AIzaSyExample")) None false
    (fun k => Fulfilled {| Gemini.apiKey := k |}).

Definition keyless_service : Gemini.GeminiServiceManager :=
  Gemini.new_GeminiServiceManager None None false
    (fun k => Fulfilled {| Gemini.apiKey := k |}).

(** The first of them after [n] exchanges that the server rejected. *)
Definition failing_chat : Gemini.Chat :=
  fun _ => Gemini.Settles 5 (Rejected (ErrorObj (lit "500 internal error"))).

Definition after_failures (n : nat) : Gemini.GeminiServiceManager :=
  Nat.iter n
    (fun g => Gemini.service (Gemini.sendUserMessageToLuna g 0 failing_chat (lit "hello") []))
    ready_service.

(* ===================================================================== *)
(** ** hooks/useSpeechSynthesis.ts *)
(* ===================================================================== *)

Module Synthesis.

(** The state of [useSpeechSynthesis] and of the platform synthesizer it
    drives: [queue] holds the utterances handed to
    [speechSynthesis.speak] that are pending or being spoken. *)
Record Hook := mkHook {
  isSpeaking : bool;
  isSupported : bool;
  speechError : option jsstring;
  queue : list jsstring
}.

(** [speak]; [isSpeaking_seen] is the flag captured by the callback. *)
Definition speak (isSpeaking_seen : bool) (text : jsstring) (h : Hook) : Hook :=
  if negb (isSupported h) || isSpeaking_seen then h
  else mkHook (isSpeaking h) (isSupported h) None (queue h ++ [text]).

(** [cancel] *)
Definition cancel (h : Hook) : Hook :=
  if negb (isSupported h) then h
  else mkHook false (isSupported h) (speechError h) [].

(** [utterance.onstart] and [utterance.onend]. *)
Definition onstart (h : Hook) : Hook :=
  mkHook true (isSupported h) (speechError h) (queue h).
Definition onend (h : Hook) : Hook :=
  mkHook false (isSupported h) (speechError h) (tl (queue h)).

(** The synthesizer is producing sound for the hook's utterance. *)
Definition playing (h : Hook) : bool :=
  isSpeaking h && match queue h with [] => false | _ :: _ => true end.

End Synthesis.

(* ===================================================================== *)
(** ** The recognition hook ([useSpeechRecognition], same source file) *)
(* ===================================================================== *)

Module Recognition.

Definition SPEECH_END_TIMEOUT_MS : N := 1500.

(** The hook is modelled with its handlers, its callbacks and its two
    effects.  The recognizer at hand is the one that [recognitionRef.current]
    designates; the effect on [hasRecognitionSupport, isListening] replaces
    it whenever [isListening] has changed (see [render]).

    The state of the recognizer at hand: not started (or ended), started,
    or asked to stop and not yet ended. *)
Inductive Engine := Idle | Running | Stopping.

(** The hook's state.  [lang] and [engine] are the language and the state
    of the recognizer at hand; [speechEndTimeout] is the armed silence
    timer with the milliseconds left before it fires; [finalized] lists,
    in order, the texts passed to [setFinalizedText], one per finalized
    event. *)
Record Hook := mkHook {
  isListening : bool;
  transcript : jsstring;
  transcriptRef : jsstring;
  finalizedText : option jsstring;
  error : option jsstring;
  speechEndTimeout : option N;
  lang : jsstring;
  engine : Engine;
  finalized : list jsstring
}.

Definition initial : Hook :=
  mkHook false [] [] None None None (lit "hi-IN") Idle [].

(** What the recognizer and the clock deliver to the hook. *)
Inductive Event :=
| Result (resultIndex : nat) (results : list jsstring)
| SpeechStart
| SpeechEnd
| End
| Error (error message : jsstring)
| Elapse (ms : N).

Definition clearSpeechEndTimeout (h : Hook) : Hook :=
  mkHook (isListening h) (transcript h) (transcriptRef h) (finalizedText h)
         (error h) None (lang h) (engine h) (finalized h).

Definition setTranscript (t : jsstring) (h : Hook) : Hook :=
  mkHook (isListening h) t (transcriptRef h) (finalizedText h)
         (error h) (speechEndTimeout h) (lang h) (engine h) (finalized h).
Definition setTranscriptRef (t : jsstring) (h : Hook) : Hook :=
  mkHook (isListening h) (transcript h) t (finalizedText h)
         (error h) (speechEndTimeout h) (lang h) (engine h) (finalized h).
Definition setError (e : option jsstring) (h : Hook) : Hook :=
  mkHook (isListening h) (transcript h) (transcriptRef h) (finalizedText h)
         e (speechEndTimeout h) (lang h) (engine h) (finalized h).
Definition setIsListening (b : bool) (h : Hook) : Hook :=
  mkHook b (transcript h) (transcriptRef h) (finalizedText h)
         (error h) (speechEndTimeout h) (lang h) (engine h) (finalized h).
Definition setLang (l : jsstring) (h : Hook) : Hook :=
  mkHook (isListening h) (transcript h) (transcriptRef h) (finalizedText h)
         (error h) (speechEndTimeout h) l (engine h) (finalized h).
Definition setEngine (e : Engine) (h : Hook) : Hook :=
  mkHook (isListening h) (transcript h) (transcriptRef h) (finalizedText h)
         (error h) (speechEndTimeout h) (lang h) e (finalized h).
Definition armSpeechEndTimeout (ms : N) (h : Hook) : Hook :=
  mkHook (isListening h) (transcript h) (transcriptRef h) (finalizedText h)
         (error h) (Some ms) (lang h) (engine h) (finalized h).

(** [setFinalizedText(text)] with a string: one finalized event. *)
Definition setFinalizedText (t : jsstring) (h : Hook) : Hook :=
  mkHook (isListening h) (transcript h) (transcriptRef h) (Some t)
         (error h) (speechEndTimeout h) (lang h) (engine h) (finalized h ++ [t]).

(** [clearFinalizedText], [resetTranscript]. *)
Definition clearFinalizedText (h : Hook) : Hook :=
  mkHook (isListening h) (transcript h) (transcriptRef h) None
         (error h) (speechEndTimeout h) (lang h) (engine h) (finalized h).
Definition resetTranscript (h : Hook) : Hook :=
  setTranscriptRef [] (setTranscript [] h).

(** [recognitionRef.current.stop()]: a running recognizer winds down and
    will answer with an [end] event; on a recognizer that has not been
    started the call does nothing. *)
Definition stop (h : Hook) : Hook :=
  match engine h with
  | Running => setEngine Stopping h
  | _ => h
  end.

(** The render that follows a handler or a callback, with the effects it
    runs; [before] is the state that the render before it showed.
    - The effect on [transcript]: [transcriptRef.current = transcript].
    - The effect on [hasRecognitionSupport, isListening], run when
      [isListening] has changed.  Its cleanup clears the silence timer,
      takes the handlers off the recognizer at hand and aborts it; its body
      makes a new recognizer, sets it to hi-IN and installs the handlers on
      it.  Nothing starts the new recognizer. *)
Definition render (before h : Hook) : Hook :=
  let h := setTranscriptRef (transcript h) h in
  if Bool.eqb (isListening before) (isListening h) then h
  else setLang (lit "hi-IN") (setEngine Idle (clearSpeechEndTimeout h)).

(** [recognition.onresult] *)
Definition onresult (resultIndex : nat) (results : list jsstring) (h : Hook) : Hook :=
  let h := clearSpeechEndTimeout h in
  let fullTranscriptThisAttempt := concat (drop resultIndex results) in
  setTranscript (transcript h ++ fullTranscriptThisAttempt) h.

(** [recognition.onspeechstart] *)
Definition onspeechstart (h : Hook) : Hook :=
  setError None (setTranscriptRef [] (setTranscript [] (clearSpeechEndTimeout h))).

(** [recognition.onspeechend] *)
Definition onspeechend (h : Hook) : Hook :=
  armSpeechEndTimeout SPEECH_END_TIMEOUT_MS (clearSpeechEndTimeout h).

(** The callback of the silence timer.  It belongs to the handlers that
    the effect installed last, and the effect clears the timer when it runs
    again: the [isListening] that an armed timer has closed over is the one
    of the state, and the recognizer that [stop] reaches is the one at
    hand. *)
Definition onSpeechEndTimeout (h : Hook) : Hook :=
  if isListening h then stop h else h.

(** [recognition.onend] *)
Definition onend (h : Hook) : Hook :=
  let h := setIsListening false (clearSpeechEndTimeout h) in
  let h := setEngine Idle h in
  if truthy (trim (transcriptRef h))
  then setFinalizedText (trim (transcriptRef h)) h
  else h.

(** [recognition.onerror] *)
Definition onerror (err message : jsstring) (h : Hook) : Hook :=
  let h := clearSpeechEndTimeout h in
  let h :=
    if bool_decide (err = lit "no-speech") then
      setError (Some (lit "I didn't hear anything. Try speaking, or tap 'Send' if you're done.")) h
    else if bool_decide (err = lit "audio-capture") then
      setError (Some (lit "I couldn't access your microphone. Please check permissions.")) h
    else if bool_decide (err = lit "not-allowed") then
      setError (Some (lit "Microphone access was denied. Please enable it in your browser settings.")) h
    else if bool_decide (err = lit "language-not-supported") then
      setLang (lit "en-US")
        (setError (Some (lit "Hindi speech input may not be fully supported by your browser. You can try speaking in English. Error: " ++ message)) h)
    else if bool_decide (err = lit "aborted") && negb (truthy (trim (transcriptRef h))) then
      setError None h
    else
      setError (Some (lit "An error occurred: " ++ err)) h in
  setIsListening false h.

(** The passage of [ms] milliseconds with no other event: an armed timer
    either fires or comes closer to firing. *)
Definition elapse (ms : N) (h : Hook) : Hook :=
  match speechEndTimeout h with
  | None => h
  | Some remaining =>
      if (remaining <=? ms)%N
      then onSpeechEndTimeout (clearSpeechEndTimeout h)
      else armSpeechEndTimeout (remaining - ms) h
  end.

(** The handler or timer callback that an event runs. *)
Definition handle (h : Hook) (e : Event) : Hook :=
  match e with
  | Result i rs => onresult i rs h
  | SpeechStart => onspeechstart h
  | SpeechEnd => onspeechend h
  | End => onend h
  | Error err m => onerror err m h
  | Elapse ms => elapse ms h
  end.

(** Whether the event can occur: time always passes; the recognizer at
    hand reports something only between its start and its end. *)
Definition fires (h : Hook) (e : Event) : bool :=
  match e with
  | Elapse _ => true
  | _ => match engine h with Idle => false | _ => true end
  end.

(** One event: if it occurs, its handler runs and the hook renders. *)
Definition step (h : Hook) (e : Event) : Hook :=
  if fires h e then render h (handle h e) else h.

Definition run (h : Hook) (es : list Event) : Hook := fold_left step es h.

(** The callback [startListening], up to the render that follows it;
    [start lang] tells whether [recognition.start()] throws on a recognizer
    set to [lang], and then the name and the message of the exception.
    The callback leaves the recognizer started; the render that follows
    [setIsListening(true)] then replaces that recognizer (see [render]). *)
Definition startListening (start : jsstring -> option (jsstring * jsstring))
    (h : Hook) : Hook :=
  if isListening h then h
  else
    let h := clearSpeechEndTimeout h in
    let h := setTranscriptRef [] (setTranscript [] h) in
    let h := setError None (clearFinalizedText h) in
    let h :=
      if negb (bool_decide (lang h = lit "hi-IN")) && negb (bool_decide (lang h = lit "en-US"))
      then setLang (lit "hi-IN") h else h in
    match start (lang h) with
    | None => setIsListening true (setEngine Running h)
    | Some (name, message) =>
        let h :=
          if bool_decide (name = lit "NotAllowedError") || bool_decide (name = lit "SecurityError")
          then setError (Some (lit "Microphone access was denied. Please enable it in your browser settings.")) h
          else if bool_decide (name = lit "InvalidStateError") && bool_decide (lang h = lit "hi-IN")
          then
            let h := setLang (lit "en-US") h in
            match start (lang h) with
            | None => setIsListening true (setEngine Running h)
            | Some (_, message2) =>
                setIsListening false
                  (setError (Some (lit "Could not start voice input: " ++
                                   if truthy message2 then message2 else lit "Please try again.")) h)
            end
          else
            setError (Some (lit "Could not start voice input: " ++
                            if truthy message then message else lit "Please try again.")) h in
        if negb (bool_decide (name = lit "InvalidStateError"))
        then setIsListening false h else h
    end.

(** The hook once [startListening] has run without incident and the
    component has rendered. *)
Definition listening : Hook := render initial (startListening (fun _ => None) initial).

(** [stopListening] *)
Definition stopListening (h : Hook) : Hook :=
  let h := clearSpeechEndTimeout h in
  if isListening h then stop h
  else if truthy (trim (transcriptRef h))
  then setFinalizedText (trim (transcriptRef h)) h
  else h.

(** The states that the hook goes through: from [h], by the events of the
    recognizer and the clock and by the callbacks that the hook returns,
    each followed by its render. *)
Inductive reaches (h : Hook) : Hook -> Prop :=
| reaches_here : reaches h h
| reaches_step h' e : reaches h h' -> reaches h (step h' e)
| reaches_start h' start : reaches h h' -> reaches h (render h' (startListening start h'))
| reaches_stop h' : reaches h h' -> reaches h (render h' (stopListening h'))
| reaches_reset h' : reaches h h' -> reaches h (render h' (resetTranscript h'))
| reaches_clear h' : reaches h h' -> reaches h (render h' (clearFinalizedText h')).

End Recognition.

(* ===================================================================== *)
(** ** App.tsx: the controller *)
(* ===================================================================== *)

Module App.

(** The state held by the [App] component, with the two speech hooks and
    the module-level [geminiService] it works against.  [timers] are the
    pending [setTimeout(() => setAppPhase(p), ms)] calls. *)
Record State := mkState {
  appPhase : AppPhase;
  messages : list ChatMessage;
  lunaChat : option Gemini.Chat;
  error : option jsstring;
  lunaStatusText : jsstring;
  isMuted : bool;
  tts : Synthesis.Hook;
  recog : Recognition.Hook;
  gemini : Gemini.GeminiServiceManager;
  timers : list (N * AppPhase)
}.

Definition setAppPhase (p : AppPhase) (s : State) : State :=
  mkState p (messages s) (lunaChat s) (error s) (lunaStatusText s) (isMuted s)
          (tts s) (recog s) (gemini s) (timers s).
Definition setMessages (f : list ChatMessage -> list ChatMessage) (s : State) : State :=
  mkState (appPhase s) (f (messages s)) (lunaChat s) (error s) (lunaStatusText s)
          (isMuted s) (tts s) (recog s) (gemini s) (timers s).
Definition setError (e : option jsstring) (s : State) : State :=
  mkState (appPhase s) (messages s) (lunaChat s) e (lunaStatusText s) (isMuted s)
          (tts s) (recog s) (gemini s) (timers s).
Definition setLunaStatusText (t : jsstring) (s : State) : State :=
  mkState (appPhase s) (messages s) (lunaChat s) (error s) t (isMuted s)
          (tts s) (recog s) (gemini s) (timers s).
Definition setIsMuted (b : bool) (s : State) : State :=
  mkState (appPhase s) (messages s) (lunaChat s) (error s) (lunaStatusText s) b
          (tts s) (recog s) (gemini s) (timers s).
Definition setTts (h : Synthesis.Hook) (s : State) : State :=
  mkState (appPhase s) (messages s) (lunaChat s) (error s) (lunaStatusText s)
          (isMuted s) h (recog s) (gemini s) (timers s).
Definition setRecog (h : Recognition.Hook) (s : State) : State :=
  mkState (appPhase s) (messages s) (lunaChat s) (error s) (lunaStatusText s)
          (isMuted s) (tts s) h (gemini s) (timers s).
Definition setGemini (g : Gemini.GeminiServiceManager) (s : State) : State :=
  mkState (appPhase s) (messages s) (lunaChat s) (error s) (lunaStatusText s)
          (isMuted s) (tts s) (recog s) g (timers s).
Definition setTimeout (ms : N) (p : AppPhase) (s : State) : State :=
  mkState (appPhase s) (messages s) (lunaChat s) (error s) (lunaStatusText s)
          (isMuted s) (tts s) (recog s) (gemini s) (timers s ++ [(ms, p)]).

(** [addMessage]; [now] is the reading of the clock, used for both the id
    ([Date.now().toString()]) and the timestamp ([new Date()]). *)
Definition addMessage (sender : ChatMessageSender) (text : jsstring) (now : Z)
    (s : State) : State :=
  setMessages
    (fun prev => prev ++ [mkChatMessage (Z_toString now) sender text (Some now) None]) s.

(** What the callback has closed over when it suspends at the [await],
    and the promise it waits for. *)
Record Pending := mkPending {
  promise : Gemini.SendResult;
  startedAt : Z;
  seen_isMuted : bool;
  seen_ttsSupported : bool;
  seen_isSpeaking : bool
}.

Inductive Outcome :=
| Returned (s : State)
| Awaiting (s : State) (k : Pending).

(** [handleUserSpeechResult], up to its [await]. *)
Definition handleUserSpeechResult (now : Z) (text : jsstring) (s : State) : Outcome :=
  if negb (truthy (trim text)) then
    Returned (setRecog (Recognition.resetTranscript (recog s)) s)
  else
    let s1 := addMessage USER text now s in
    let s1 := setAppPhase PROCESSING_USER_INPUT s1 in
    let s1 := setLunaStatusText (lit "Processing your thoughts...") s1 in
    match lunaChat s with
    | Some chat =>
        let s1 := setAppPhase LUNA_THINKING s1 in
        let s1 := setLunaStatusText (lit "Luna is thinking...") s1 in
        let s1 := setRecog (Recognition.resetTranscript (recog s1)) s1 in
        let r := Gemini.sendUserMessageToLuna (gemini s) now chat text (messages s) in
        Awaiting (setGemini (Gemini.service r) s1)
                 (mkPending r now (isMuted s) (Synthesis.isSupported (tts s))
                            (Synthesis.isSpeaking (tts s)))
    | None => Returned s1
    end.

(** The [else] branch taken on a falsy reply ([null] or the empty string). *)
Definition no_response (now : Z) (s : State) : State :=
  let s := addMessage SYSTEM (lit "Sorry, I couldn't get a response. Please try again.") now s in
  let s := setAppPhase ERROR s in
  setError (Some (lit "Failed to get response from Luna.")) s.

(** The rest of [handleUserSpeechResult], run on the state [s] that is
    current when the promise settles. *)
Definition resume (k : Pending) (s : State) : State :=
  let now := (startedAt k + Z.of_N (Gemini.elapsed (promise k)))%Z in
  match Gemini.settlement (promise k) with
  | Fulfilled lunaResponseText =>
      match lunaResponseText with
      | Some response =>
          if truthy response then
            let s := addMessage LUNA response now s in
            let s := setAppPhase LUNA_SPEAKING s in
            let s := setLunaStatusText (lit "Luna is speaking...") s in
            if negb (seen_isMuted k) && seen_ttsSupported k
            then setTts (Synthesis.speak (seen_isSpeaking k) response (tts s)) s
            else setTimeout 500 READY_TO_CHAT s
          else no_response now s
      | None => no_response now s
      end
  | Rejected _ => s     (* the rejection leaves the callback; nothing runs *)
  end.

(** Whether a pending callback will end in the [else] branch. *)
Definition takes_no_response_branch (k : Pending) : bool :=
  match Gemini.settlement (promise k) with
  | Fulfilled lunaResponseText => negb (truthy_opt lunaResponseText)
  | Rejected _ => false
  end.

(** The whole callback when nothing else happens while it waits. *)
Definition submit (now : Z) (text : jsstring) (s : State) : State :=
  match handleUserSpeechResult now text s with
  | Returned s' => s'
  | Awaiting s' k => resume k s'
  end.

(** The messages handed to the network client by one submission. *)
Definition client_calls (o : Outcome) : list jsstring :=
  match o with
  | Returned _ => []
  | Awaiting _ k => Gemini.sent (promise k)
  end.

(** Whether the conversation service client was invoked at all. *)
Definition client_invoked (o : Outcome) : bool :=
  match o with
  | Returned _ => false
  | Awaiting _ _ => true
  end.

(** [convertMessagesToGeminiHistory]: system messages are left out. *)
Definition convertMessagesToGeminiHistory (messages : list ChatMessage)
    : list Gemini.Content :=
  omap (fun msg =>
          match msg_sender msg with
          | USER => Some {| Gemini.role := Gemini.user; Gemini.parts := [msg_text msg] |}
          | LUNA => Some {| Gemini.role := Gemini.model; Gemini.parts := [msg_text msg] |}
          | SYSTEM => None
          end) messages.

(** [toggleMute] *)
Definition toggleMute (s : State) : State :=
  let newMutedState := negb (isMuted s) in
  let s :=
    if newMutedState && Synthesis.isSpeaking (tts s)
    then setTts (Synthesis.cancel (tts s)) s
    else s in
  setIsMuted newMutedState s.

(** A state of the controller over a given manager, chat handle and
    speech-output hook; the rest is as after start-up. *)
Definition a_state (g : Gemini.GeminiServiceManager) (chat : option Gemini.Chat)
    (phase : AppPhase) (muted : bool) (h : Synthesis.Hook) : State :=
  mkState phase [] chat None [] muted h Recognition.initial g [].

(** A speech-output hook on a platform with synthesis, at rest. *)
Definition tts_idle : Synthesis.Hook := Synthesis.mkHook false true None [].

(** The same hook while it speaks [text]. *)
Definition tts_speaking (text : jsstring) : Synthesis.Hook :=
  Synthesis.onstart (Synthesis.speak false text tts_idle).

(** [handleDeleteMessage], on the in-memory log. *)
Definition handleDeleteMessage (messageId : jsstring) (s : State) : State :=
  setMessages (filter (fun msg => msg_id msg <> messageId)) s.

Definition setLunaChat (c : option Gemini.Chat) (s : State) : State :=
  mkState (appPhase s) (messages s) c (error s) (lunaStatusText s) (isMuted s)
          (tts s) (recog s) (gemini s) (timers s).

(** The effect on [appPhase, isLunaSpeaking, isMuted]: what it does is a
    function of these three alone, so running it after every change of
    the state gives what React gives. *)
Definition speakingEndedEffect (s : State) : State :=
  match appPhase s with
  | LUNA_SPEAKING =>
      if negb (Synthesis.isSpeaking (tts s)) && negb (isMuted s)
      then setLunaStatusText [] (setAppPhase READY_TO_CHAT s)
      else s
  | _ => s
  end.

(** The effect on [userFinalizedSpeech]: a finalized text is handed to
    [handleUserSpeechResult] and cleared. *)
Definition finalizedSpeechEffect (now : Z) (s : State) : Outcome :=
  match Recognition.finalizedText (recog s) with
  | Some userFinalizedSpeech =>
      if truthy userFinalizedSpeech then
        match handleUserSpeechResult now userFinalizedSpeech s with
        | Returned s' =>
            Returned (setRecog (Recognition.clearFinalizedText (recog s')) s')
        | Awaiting s' k =>
            Awaiting (setRecog (Recognition.clearFinalizedText (recog s')) s') k
        end
      else Returned s
  | None => Returned s
  end.

(** A pending [setTimeout(() => setAppPhase(p), ms)] fires. *)
Definition fireTimers (s : State) : State :=
  fold_left (fun s t => setAppPhase (snd t) s) (timers s)
    (mkState (appPhase s) (messages s) (lunaChat s) (error s) (lunaStatusText s)
             (isMuted s) (tts s) (recog s) (gemini s) []).

End App.

(* ===================================================================== *)
(** ** The platform behind the session store: [Date] and [JSON] *)
(* ===================================================================== *)

(** The store serialises with [JSON.stringify], which sends a [Date] through
    [Date.prototype.toJSON], and reads back with [JSON.parse] and
    [new Date(string)].  These belong to the language, not to the
    repository; they are modelled here as far as the store uses them. *)

Module DateTime.

Local Open Scope Z_scope.

Definition msPerDay : Z := 86400000.

(** The largest time value of a valid [Date]. *)
Definition MAX_TIME : Z := 8640000000000000.

(** [TimeClip] *)
Definition TimeClip (t : Z) : Date :=
  if (- MAX_TIME <=? t) && (t <=? MAX_TIME) then Some t else None.

Definition valid (d : Date) : bool :=
  match d with
  | Some t => (- MAX_TIME <=? t) && (t <=? MAX_TIME)
  | None => false
  end.

(** Year (counted from 1 March), month and day of the [doe]-th day of a
    400-year era of the proleptic Gregorian calendar. *)
Definition civil_of_doe (doe : Z) : Z * Z * Z :=
  let yoe := (doe - doe / 1460 + doe / 36524 - doe / 146096) / 365 in
  let doy := doe - (365 * yoe + yoe / 4 - yoe / 100) in
  let mp := (5 * doy + 2) / 153 in
  let d := doy - (153 * mp + 2) / 5 + 1 in
  let m := if mp <? 10 then mp + 3 else mp - 9 in
  (if m <=? 2 then yoe + 1 else yoe, m, d).

(** Year, month (1-12) and day of month of a day number (days since the
    epoch). *)
Definition civil_from_days (z : Z) : Z * Z * Z :=
  let z := z + 719468 in
  let '(y, m, d) := civil_of_doe (z mod 146097) in
  (y + 400 * (z / 146097), m, d).

(** The day number of a calendar date, as [MakeDay] computes it. *)
Definition days_from_civil (y m d : Z) : Z :=
  let y := if m <=? 2 then y - 1 else y in
  let era := y / 400 in
  let yoe := y mod 400 in
  let doy := (153 * (if 2 <? m then m - 3 else m + 9) + 2) / 5 + d - 1 in
  let doe := yoe * 365 + yoe / 4 - yoe / 100 + doy in
  era * 146097 + doe - 719468.

Definition leap (y : Z) : bool :=
  (y mod 4 =? 0) && (negb (y mod 100 =? 0) || (y mod 400 =? 0)).

Definition days_in_month (y m : Z) : Z :=
  if m =? 2 then (if leap y then 29 else 28)
  else if (m =? 4) || (m =? 6) || (m =? 9) || (m =? 11) then 30
  else 31.

(** Decimal digits. *)
Definition digit (d : Z) : N := (48 + Z.to_N d)%N.

Definition digit_value (c : N) : option Z :=
  if ((48 <=? c) && (c <=? 57))%N then Some (Z.of_N c - 48) else None.

(** [x] written with exactly [n] digits, zero padded. *)
Fixpoint pad (n : nat) (x : Z) : jsstring :=
  match n with
  | O => []
  | S n' => digit (x / 10 ^ Z.of_nat n') :: pad n' (x mod 10 ^ Z.of_nat n')
  end.

(** Reads exactly [n] digits. *)
Fixpoint digits (n : nat) (acc : Z) (s : jsstring) : option (Z * jsstring) :=
  match n with
  | O => Some (acc, s)
  | S n' =>
      match s with
      | [] => None
      | c :: r =>
          match digit_value c with
          | Some d => digits n' (acc * 10 + d) r
          | None => None
          end
      end
  end.

(** [Date.prototype.toISOString] on a valid time value:
    [YYYY-MM-DDTHH:mm:ss.sssZ], the year with a sign and six digits when
    it is not within 0..9999. *)
Definition toISOString (t : Z) : jsstring :=
  let '(y, m, d) := civil_from_days (t / msPerDay) in
  let ms := t mod msPerDay in
  let year :=
    if (0 <=? y) && (y <=? 9999) then pad 4 y
    else (if y <? 0 then 45%N else 43%N) :: pad 6 (Z.abs y) in
  year ++ [45%N] ++ pad 2 m ++ [45%N] ++ pad 2 d ++ [84%N] ++
  pad 2 (ms / 3600000) ++ [58%N] ++ pad 2 (ms / 60000 mod 60) ++ [58%N] ++
  pad 2 (ms / 1000 mod 60) ++ [46%N] ++ pad 3 (ms mod 1000) ++ [90%N].

(** One given code unit. *)
Definition expect (c : N) (s : jsstring) : option jsstring :=
  match s with
  | c' :: r => if (c' =? c)%N then Some r else None
  | [] => None
  end.

Definition year_of (s : jsstring) : option (Z * jsstring) :=
  match s with
  | c :: r =>
      if (c =? 43)%N then digits 6 0 r
      else if (c =? 45)%N then
        match digits 6 0 r with
        | Some (y, r') => if y =? 0 then None else Some (- y, r')
        | None => None
        end
      else digits 4 0 s
  | [] => None
  end.

(** [Date.parse] on the date-time format above; [None] is NaN.  Only the
    complete UTC form that [toISOString] writes is recognised here: what
    the platform makes of other strings is left out of the model. *)
Definition parse (s : jsstring) : Date :=
  '(y, s) ← year_of s;
  s ← expect 45 s;
  '(m, s) ← digits 2 0 s;
  s ← expect 45 s;
  '(d, s) ← digits 2 0 s;
  s ← expect 84 s;
  '(hh, s) ← digits 2 0 s;
  s ← expect 58 s;
  '(mm, s) ← digits 2 0 s;
  s ← expect 58 s;
  '(ss, s) ← digits 2 0 s;
  s ← expect 46 s;
  '(ms, s) ← digits 3 0 s;
  s ← expect 90 s;
  match s with
  | [] =>
      if (1 <=? m) && (m <=? 12) && (1 <=? d) && (d <=? days_in_month y m) &&
         ((hh <? 24) || (hh =? 24) && (mm =? 0) && (ss =? 0) && (ms =? 0)) &&
         (mm <? 60) && (ss <? 60)
      then TimeClip (days_from_civil y m d * msPerDay
                     + hh * 3600000 + mm * 60000 + ss * 1000 + ms)
      else None
  | _ :: _ => None
  end.

(** *** Checks used to validate the calendar functions *)

(** All integers of [[z, z + n)] pass the test [f]. *)
Fixpoint all_from (n : nat) (z : Z) (f : Z -> bool) : bool :=
  match n with
  | O => true
  | S n' => f z && all_from n' (z + 1) f
  end.

(** The calendar date of a day of the era is a valid date and
    [days_from_civil] maps it back. *)
Definition era_day_ok (doe : Z) : bool :=
  let '(y, m, d) := civil_of_doe doe in
  (0 <=? y) && (y <=? 400) && (1 <=? m) && (m <=? 12) && (1 <=? d) &&
  (d <=? days_in_month y m) && (days_from_civil y m d =? doe - 719468).

(** Month and day of the [doy]-th day of a year that starts on 1 March:
    a valid date of a common year, or 29 February on the last day, and the
    day of the year is recovered from it. *)
Definition year_day_ok (doy : Z) : bool :=
  let mp := (5 * doy + 2) / 153 in
  let d := doy - (153 * mp + 2) / 5 + 1 in
  let m := if mp <? 10 then mp + 3 else mp - 9 in
  (1 <=? m) && (m <=? 12) && (1 <=? d) &&
  ((d <=? days_in_month 1 m) || (m =? 2) && (d =? 29) && (doy =? 365)) &&
  ((153 * (if 2 <? m then m - 3 else m + 9) + 2) / 5 + d - 1 =? doy).

End DateTime.

Module JSON.

(** The values that reach the store: what [JSON.parse] can build from the
    text written by [JSON.stringify], and [Date] objects.  An object is
    the list of its own properties in creation order (property names that
    are array indices, which the language would list first, do not occur
    in what the store writes). *)
#[warnings="-register-all"]
Inductive value :=
| VNull
| VBool (b : bool)
| VString (s : jsstring)
| VDate (d : Date)
| VArray (elements : list value)
| VObject (props : list (jsstring * value)).

(** [o[k]], [None] being [undefined]. *)
Fixpoint get (k : jsstring) (props : list (jsstring * value)) : option value :=
  match props with
  | [] => None
  | (k', v) :: rest => if eqb k' k then Some v else get k rest
  end.

(** [o[k] = v]: an existing property keeps its place. *)
Fixpoint set (k : jsstring) (v : value) (props : list (jsstring * value))
    : list (jsstring * value) :=
  match props with
  | [] => [(k, v)]
  | (k', v') :: rest =>
      if eqb k' k then (k, v) :: rest else (k', v') :: set k v rest
  end.

Definition hex_digit (d : N) : N :=
  (if d <? 10 then 48 + d else 87 + d)%N.

Definition hex_value (c : N) : option N :=
  (if (48 <=? c) && (c <=? 57) then Some (c - 48)
   else if (97 <=? c) && (c <=? 102) then Some (c - 87)
   else if (65 <=? c) && (c <=? 70) then Some (c - 55)
   else None)%N.

(** The escape [\uXXXX] of a code unit. *)
Definition unicode_escape (c : N) : jsstring :=
  [92; 117; hex_digit (c / 4096); hex_digit (c / 256 mod 16);
   hex_digit (c / 16 mod 16); hex_digit (c mod 16)]%N.

Definition is_high_surrogate (c : N) : bool := ((55296 <=? c) && (c <=? 56319))%N.
Definition is_low_surrogate (c : N) : bool := ((56320 <=? c) && (c <=? 57343))%N.

(** One code unit that is not part of a surrogate pair, as
    [QuoteJSONString] writes it. *)
Definition quote_unit (c : N) : jsstring :=
  (if c =? 8 then [92; 98]
   else if c =? 9 then [92; 116]
   else if c =? 10 then [92; 110]
   else if c =? 12 then [92; 102]
   else if c =? 13 then [92; 114]
   else if c =? 34 then [92; 34]
   else if c =? 92 then [92; 92]
   else if (c <? 32) || is_high_surrogate c || is_low_surrogate c
   then unicode_escape c
   else [c])%N.

(** The characters between the quotes: a high surrogate followed by a low
    one is a pair and is copied; every other code unit goes through
    [quote_unit]. *)
Fixpoint quote_units (s : jsstring) : jsstring :=
  match s with
  | [] => []
  | c :: r =>
      match r with
      | d :: _ =>
          if is_high_surrogate c && is_low_surrogate d
          then c :: quote_low r
          else quote_unit c ++ quote_units r
      | [] => quote_unit c
      end
  end
with quote_low (s : jsstring) : jsstring :=
  match s with
  | [] => []
  | d :: r => d :: quote_units r
  end.

Definition quote (s : jsstring) : jsstring := [34%N] ++ quote_units s ++ [34%N].

Fixpoint join (l : list jsstring) : jsstring :=
  match l with
  | [] => []
  | x :: l' =>
      match l' with
      | [] => x
      | _ :: _ => x ++ [44%N] ++ join l'
      end
  end.

(** [JSON.stringify]: a [Date] is written as the string its [toJSON]
    returns, which is [null] for the Invalid Date. *)
Fixpoint stringify (v : value) : jsstring :=
  match v with
  | VNull => lit "null"
  | VBool true => lit "true"
  | VBool false => lit "false"
  | VString s => quote s
  | VDate (Some t) => quote (DateTime.toISOString t)
  | VDate None => lit "null"
  | VArray l => [91%N] ++ join (map stringify l) ++ [93%N]
  | VObject props =>
      [123%N] ++
      join (map (fun p => quote (fst p) ++ [58%N] ++ stringify (snd p)) props) ++
      [125%N]
  end.

(** The value that the text written by [stringify] denotes. *)
Fixpoint plain (v : value) : value :=
  match v with
  | VDate (Some t) => VString (DateTime.toISOString t)
  | VDate None => VNull
  | VArray l => VArray (map plain l)
  | VObject props => VObject (map (fun p => (fst p, plain (snd p))) props)
  | _ => v
  end.

(** *** Reading *)

(** The rest of a string literal, after the opening quote. *)
Fixpoint string_body (s : jsstring) : option (jsstring * jsstring) :=
  match s with
  | [] => None
  | c :: r =>
      if (c =? 34)%N then Some ([], r)
      else if (c =? 92)%N then
        match r with
        | [] => None
        | e :: r1 =>
            let simple (u : N) :=
              match string_body r1 with
              | Some (str, rest) => Some (u :: str, rest)
              | None => None
              end in
            if (e =? 34)%N then simple 34%N
            else if (e =? 92)%N then simple 92%N
            else if (e =? 47)%N then simple 47%N
            else if (e =? 98)%N then simple 8%N
            else if (e =? 102)%N then simple 12%N
            else if (e =? 110)%N then simple 10%N
            else if (e =? 114)%N then simple 13%N
            else if (e =? 116)%N then simple 9%N
            else if (e =? 117)%N then
              match r1 with
              | h1 :: h2 :: h3 :: h4 :: r2 =>
                  match hex_value h1, hex_value h2, hex_value h3, hex_value h4 with
                  | Some a, Some b, Some c', Some d =>
                      match string_body r2 with
                      | Some (str, rest) =>
                          Some ((((a * 16 + b) * 16 + c') * 16 + d)%N :: str, rest)
                      | None => None
                      end
                  | _, _, _, _ => None
                  end
              | _ => None
              end
            else None
        end
      else if (c <? 32)%N then None
      else
        match string_body r with
        | Some (str, rest) => Some (c :: str, rest)
        | None => None
        end
  end.

(** The object that a list of members builds: a repeated name keeps its
    first place and takes the last value. *)
Definition build (members : list (jsstring * value)) : list (jsstring * value) :=
  fold_left (fun o p => set (fst p) (snd p) o) members [].

(** A recursive-descent reader of the compact texts that [stringify]
    writes: literals [null], [true], [false], strings, arrays and objects,
    with no white space between tokens.  Numbers do not occur in what the
    store writes and are not read. *)
Fixpoint parse_value (fuel : nat) (s : jsstring) : option (value * jsstring) :=
  match fuel with
  | O => None
  | S fuel =>
      match s with
      | [] => None
      | c :: r =>
          if (c =? 34)%N then
            match string_body r with
            | Some (str, rest) => Some (VString str, rest)
            | None => None
            end
          else if (c =? 91)%N then
            match r with
            | c' :: r' =>
                if (c' =? 93)%N then Some (VArray [], r')
                else
                  match parse_elements fuel r with
                  | Some (l, rest) => Some (VArray l, rest)
                  | None => None
                  end
            | [] => None
            end
          else if (c =? 123)%N then
            match r with
            | c' :: r' =>
                if (c' =? 125)%N then Some (VObject [], r')
                else
                  match parse_members fuel r with
                  | Some (l, rest) => Some (VObject (build l), rest)
                  | None => None
                  end
            | [] => None
            end
          else if startsWith s (lit "null") then Some (VNull, drop 4 s)
          else if startsWith s (lit "true") then Some (VBool true, drop 4 s)
          else if startsWith s (lit "false") then Some (VBool false, drop 5 s)
          else None
      end
  end
with parse_elements (fuel : nat) (s : jsstring) : option (list value * jsstring) :=
  match fuel with
  | O => None
  | S fuel =>
      match parse_value fuel s with
      | Some (v, c :: r) =>
          if (c =? 44)%N then
            match parse_elements fuel r with
            | Some (l, rest) => Some (v :: l, rest)
            | None => None
            end
          else if (c =? 93)%N then Some ([v], r)
          else None
      | _ => None
      end
  end
with parse_members (fuel : nat) (s : jsstring)
    : option (list (jsstring * value) * jsstring) :=
  match fuel with
  | O => None
  | S fuel =>
      match s with
      | q :: r =>
          if (q =? 34)%N then
            match string_body r with
            | Some (k, colon :: r1) =>
                if (colon =? 58)%N then
                  match parse_value fuel r1 with
                  | Some (v, c :: r2) =>
                      if (c =? 44)%N then
                        match parse_members fuel r2 with
                        | Some (l, rest) => Some ((k, v) :: l, rest)
                        | None => None
                        end
                      else if (c =? 125)%N then Some ([(k, v)], r2)
                      else None
                  | _ => None
                  end
                else None
            | _ => None
            end
          else None
      | [] => None
      end
  end.

(** [JSON.parse]; [None] stands for the [SyntaxError] it throws. *)
Definition parse (s : jsstring) : option value :=
  match parse_value (S (length s)) s with
  | Some (v, []) => Some v
  | _ => None
  end.

(** [Array.prototype.toString] and the other conversions to a string that
    [new Date(value)] may go through. *)
Fixpoint toString (v : value) : jsstring :=
  match v with
  | VNull => lit "null"
  | VBool true => lit "true"
  | VBool false => lit "false"
  | VString s => s
  | VDate (Some t) => DateTime.toISOString t
  | VDate None => lit "Invalid Date"
  | VArray l =>
      join (map (fun x => match x with VNull => [] | _ => toString x end) l)
  | VObject _ => lit "[object Object]"
  end.

(** [new Date(value)], the argument being [undefined] when [None]. *)
Definition new_Date (arg : option value) : Date :=
  match arg with
  | None => None
  | Some VNull => Some 0%Z
  | Some (VBool b) => Some (if b then 1 else 0)%Z
  | Some (VString s) => DateTime.parse s
  | Some (VDate d) => d
  | Some (VArray l) => DateTime.parse (toString (VArray l))
  | Some (VObject _) => DateTime.parse (lit "[object Object]")
  end.

(** *** Well-formed values and the reading of their text *)

(** What [string_body] makes of one more unit in front. *)
Definition prepend (c : N) (r : option (jsstring * jsstring)) : option (jsstring * jsstring) :=
  match r with
  | Some (str, rest) => Some (c :: str, rest)
  | None => None
  end.

(** The names of an object are pairwise different, at every depth. *)
Fixpoint distinct (ks : list jsstring) : bool :=
  match ks with
  | [] => true
  | k :: ks' => negb (existsb (eqb k) ks') && distinct ks'
  end.

(** A value whose objects have distinct names throughout. *)
Fixpoint well_formed (v : value) : bool :=
  match v with
  | VArray l => forallb well_formed l
  | VObject props =>
      distinct (map fst props) && forallb (fun p => well_formed (snd p)) props
  | _ => true
  end.

(** The text of a well-formed value, with anything after it, is read back
    as the plain value and leaves what came after. *)
Definition reads_back (v : value) : Prop :=
  well_formed v = true ->
  forall fuel rest,
    length (stringify v) < fuel ->
    parse_value fuel (stringify v ++ rest) = Some (plain v, rest).

(** The text of one member of an object. *)
Definition member (p : jsstring * value) : jsstring :=
  quote (fst p) ++ [58%N] ++ stringify (snd p).

End JSON.

(* ===================================================================== *)
(** ** services/storageService.ts *)
(* ===================================================================== *)

Module Storage.
Import JSON.

(** [localStorage]: a map from keys to strings with a bound on the code
    units it may hold; [setItem] throws when the bound would be passed. *)
Record LocalStorage := mkStorage {
  items : gmap jsstring jsstring;
  quota : N
}.

Definition used (m : gmap jsstring jsstring) : N :=
  map_fold (fun k v acc => N.of_nat (length k) + N.of_nat (length v) + acc)%N 0%N m.

Definition getItem (k : jsstring) (st : LocalStorage) : option jsstring :=
  items st !! k.

(** Whether the store has room for [v] under the key [k]. *)
Definition accepts (k v : jsstring) (st : LocalStorage) : bool :=
  (used (<[k := v]> (items st)) <=? quota st)%N.

(** [None]: the call throws ([QuotaExceededError]). *)
Definition setItem (k v : jsstring) (st : LocalStorage) : option LocalStorage :=
  if accepts k v st then Some (mkStorage (<[k := v]> (items st)) (quota st)) else None.

Definition removeItem (k : jsstring) (st : LocalStorage) : LocalStorage :=
  mkStorage (delete k (items st)) (quota st).

Definition CHAT_HISTORY_PREFIX : jsstring := lit "lunaApp_chatHistory_".

(** A [ChatMessage] as the object that [addMessage] creates; [audioUrl] is
    present only when it is set. *)
Definition object_of_message (m : ChatMessage) : value :=
  VObject
    ([(lit "id", VString (msg_id m));
      (lit "sender", VString (sender_value (msg_sender m)));
      (lit "text", VString (msg_text m));
      (lit "timestamp", VDate (msg_timestamp m))] ++
     match msg_audioUrl m with
     | Some url => [(lit "audioUrl", VString url)]
     | None => []
     end).

(** The text under which a history is stored. *)
Definition history_text (messages : list ChatMessage) : jsstring :=
  stringify (VArray (map object_of_message messages)).

(** [saveChatHistory]: a failed write is logged and swallowed. *)
Definition saveChatHistory (symbolicNameId : jsstring) (messages : list ChatMessage)
    (st : LocalStorage) : LocalStorage :=
  if negb (truthy symbolicNameId) then st
  else
    match setItem (CHAT_HISTORY_PREFIX ++ symbolicNameId) (history_text messages) st with
    | Some st' => st'
    | None => st
    end.

(** The own enumerable properties that a spread copies. *)
Definition spread (v : value) : list (jsstring * value) :=
  match v with
  | VObject props => props
  | VArray l => imap (fun i x => (Z_toString (Z.of_nat i), x)) l
  | VString s => imap (fun i c => (Z_toString (Z.of_nat i), VString [c])) s
  | _ => []
  end.

(** [msg => ({ ...msg, timestamp: new Date(msg.timestamp) })]; reading a
    property of [null] throws ([None]). *)
Definition revive (msg : value) : option value :=
  match msg with
  | VNull => None
  | _ =>
      let timestamp :=
        match msg with
        | VObject props => get (lit "timestamp") props
        | _ => None
        end in
      Some (VObject (set (lit "timestamp") (VDate (new_Date timestamp)) (spread msg)))
  end.

(** [loadChatHistory]; [None] is [null]. *)
Definition loadChatHistory (symbolicNameId : jsstring) (st : LocalStorage)
    : option (list value) :=
  if negb (truthy symbolicNameId) then None
  else
    match getItem (CHAT_HISTORY_PREFIX ++ symbolicNameId) st with
    | Some storedHistory =>
        if truthy storedHistory then
          match parse storedHistory with
          | Some (VArray parsedHistory) => mapM revive parsedHistory
          | Some _ => None          (* [.map] is not a function *)
          | None => None            (* SyntaxError *)
          end
        else None
    | None => None
    end.

(** [clearChatHistory] *)
Definition clearChatHistory (symbolicNameId : jsstring) (st : LocalStorage)
    : LocalStorage :=
  if negb (truthy symbolicNameId) then st
  else removeItem (CHAT_HISTORY_PREFIX ++ symbolicNameId) st.

(** Two messages as [addMessage] makes them, and one whose timestamp is
    the Invalid Date. *)
Definition sample_history : list ChatMessage :=
  [mkChatMessage (lit "1700000000123") USER (lit "I feel tired")
                 (Some 1700000000123%Z) None;
   mkChatMessage (lit "1700000002456") LUNA (lit "Rest sounds right.")
                 (Some 1700000002456%Z) None].

Definition undated_message : ChatMessage :=
  mkChatMessage (lit "1") USER (lit "a") None None.

(** An empty store with room for five million code units. *)
Definition empty_storage : LocalStorage := mkStorage ∅ 5000000.

(** *** The profile and the theme *)

Definition USER_PROFILE_KEY : jsstring := lit "lunaApp_userProfile".
Definition SELECTED_THEME_KEY : jsstring := lit "lunaApp_selectedTheme".

(** The run-time value of the string enum [JournalingMode]. *)
Definition mode_value (m : JournalingMode) : jsstring :=
  match m with
  | EPHEMERAL => lit "EPHEMERAL"
  | PERSISTENT => lit "PERSISTENT"
  end.

(** A [UserProfile] as the object that the name form creates:
    [{ symbolicName: { id, name }, journalingMode }]. *)
Definition object_of_profile (p : UserProfile) : value :=
  VObject
    [(lit "symbolicName",
      VObject [(lit "id", VString (sn_id (symbolicName p)));
               (lit "name", VString (sn_name (symbolicName p)))]);
     (lit "journalingMode", VString (mode_value (journalingMode p)))].

(** [saveUserProfile]: a failed write is logged and swallowed. *)
Definition saveUserProfile (profile : value) (st : LocalStorage) : LocalStorage :=
  match setItem USER_PROFILE_KEY (stringify profile) st with
  | Some st' => st'
  | None => st
  end.

(** [loadUserProfile]; [VNull] is [null], returned when nothing is stored,
    when the stored text is empty and when [JSON.parse] throws. *)
Definition loadUserProfile (st : LocalStorage) : value :=
  match getItem USER_PROFILE_KEY st with
  | Some storedProfile =>
      if truthy storedProfile then
        match parse storedProfile with
        | Some v => v
        | None => VNull
        end
      else VNull
  | None => VNull
  end.

(** [clearUserProfile] *)
Definition clearUserProfile (st : LocalStorage) : LocalStorage :=
  removeItem USER_PROFILE_KEY st.

(** [saveSelectedTheme] *)
Definition saveSelectedTheme (themeId : jsstring) (st : LocalStorage) : LocalStorage :=
  match setItem SELECTED_THEME_KEY themeId st with
  | Some st' => st'
  | None => st
  end.

(** [loadSelectedTheme] *)
Definition loadSelectedTheme (st : LocalStorage) : option jsstring :=
  getItem SELECTED_THEME_KEY st.

End Storage.

(* ===================================================================== *)
(** ** components/VoiceInputControls.tsx *)
(* ===================================================================== *)

Module Controls.

(** [isDisabledByAppPhase] *)
Definition isDisabledByAppPhase (appPhase : AppPhase) : bool :=
  match appPhase with
  | LUNA_THINKING | LUNA_SPEAKING | INITIAL_SETUP | PROCESSING_USER_INPUT => true
  | _ => false
  end.

Inductive ButtonText := Send | Stop | Speak.
Inductive ButtonAction := StopListening | StartListening.

(** [getButtonState]: the label of the button and what a click calls. *)
Definition getButtonState (isListening : bool) (userTranscript : jsstring)
    : ButtonText * ButtonAction :=
  if isListening then
    if truthy (trim userTranscript) then (Send, StopListening)
    else (Stop, StopListening)
  else (Speak, StartListening).

(** A click on the button, with the render that follows. *)
Definition click (start : jsstring -> option (jsstring * jsstring)) (s : App.State)
    : App.State :=
  if isDisabledByAppPhase (App.appPhase s) then s
  else
    let h := App.recog s in
    match snd (getButtonState (Recognition.isListening h) (Recognition.transcript h)) with
    | StopListening =>
        App.setRecog (Recognition.render h (Recognition.stopListening h)) s
    | StartListening =>
        App.setRecog (Recognition.render h (Recognition.startListening start h)) s
    end.

End Controls.

(* ===================================================================== *)
(** ** components/SymbolicNameInput.tsx *)
(* ===================================================================== *)

Module NameForm.

(** [s.replace(/\s+/g, '-')]: every maximal run of white space becomes one
    hyphen; [in_run] tells that the unit before was white space.  The
    class [\s] is the set that [trim] removes. *)
Fixpoint replace_runs (in_run : bool) (s : jsstring) : jsstring :=
  match s with
  | [] => []
  | c :: r =>
      if is_whitespace c
      then (if in_run then replace_runs true r else 45%N :: replace_runs true r)
      else c :: replace_runs false r
  end.

Section Platform.

(** [String.prototype.toLowerCase], left to the platform. *)
Variable toLowerCase : jsstring -> jsstring.

(** [handleCustomNameSubmit]: the name that becomes the current one, if
    any. *)
Definition handleCustomNameSubmit (customName : jsstring) : option SymbolicNameData :=
  if truthy (trim customName) then
    Some {| sn_id := replace_runs false (toLowerCase (trim customName));
            sn_name := trim customName |}
  else None.

End Platform.

(** [handleModeSelected]: the profile handed to [onProfileSelected]. *)
Definition handleModeSelected (currentSymbolicName : option SymbolicNameData)
    (mode : JournalingMode) : option UserProfile :=
  match currentSymbolicName with
  | Some name => Some {| symbolicName := name; journalingMode := mode |}
  | None => None
  end.

(** Lower case on the letters A to Z, as an instance of the platform's
    function on names written in them. *)
Definition lower_ascii (s : jsstring) : jsstring :=
  map (fun c => if (65 <=? c) && (c <=? 90) then c + 32 else c)%N s.

End NameForm.

(* ===================================================================== *)
(** ** The voice list of [useSpeechSynthesis] *)
(* ===================================================================== *)

Module Voices.

(** A [SpeechSynthesisVoice], as far as the hook reads it; a
    [VoiceOption] has the same three fields. *)
Record Voice := mkVoice { name : jsstring; lang : jsstring; voiceURI : jsstring }.

Definition is_enIN (v : Voice) : bool := eqb (lang v) (lit "en-IN").
Definition is_en (v : Voice) : bool := startsWith (lang v) (lit "en").

(** The comparator given to [sort]. *)
Definition compare (a b : Voice) : Z :=
  if is_enIN a && negb (is_enIN b) then (-1)%Z
  else if negb (is_enIN a) && is_enIN b then 1%Z
  else if is_en a && negb (is_en b) then (-1)%Z
  else if negb (is_en a) && is_en b then 1%Z
  else 0%Z.

(** [Array.prototype.sort] is stable: it yields the permutation in which
    [a] precedes [b] when [compare a b < 0], and elements that compare
    equal keep their order.  By insertion from the right: *)
Fixpoint insert (a : Voice) (l : list Voice) : list Voice :=
  match l with
  | [] => [a]
  | b :: l' => if (compare a b <=? 0)%Z then a :: l else b :: insert a l'
  end.

Definition sort (l : list Voice) : list Voice := foldr insert [] l.

(** The part of the hook's state that the voice list concerns. *)
Record Hook := mkHook {
  isSupported : bool;
  supportedVoices : list Voice;
  selectedVoiceURI : option jsstring
}.

(** [v?.voiceURI], and [a || b] on [string | undefined]. *)
Definition voiceURI_of (v : option Voice) : option jsstring := option_map voiceURI v.
Definition or_else (a b : option jsstring) : option jsstring :=
  if truthy_opt a then a else b.

Section Platform.

(** [String.prototype.toLowerCase], left to the platform. *)
Variable toLowerCase : jsstring -> jsstring.

Definition is_female (v : Voice) : bool := includes (toLowerCase (name v)) (lit "female").
Definition is_google (v : Voice) : bool := includes (toLowerCase (name v)) (lit "google").

(** [populateVoiceList]; [getVoices] is what [speechSynthesis.getVoices()]
    returns. *)
Definition populateVoiceList (getVoices : list Voice) (h : Hook) : Hook :=
  if negb (isSupported h) then h
  else
    let voices := List.filter is_en (sort getVoices) in
    if (0 <? length voices) && negb (truthy_opt (selectedVoiceURI h)) then
      let preferredIndianGoogleFemaleVoice :=
        List.find (fun v => is_enIN v && is_google v && is_female v) voices in
      let preferredIndianFemaleVoice :=
        List.find (fun v => is_enIN v && is_female v) voices in
      let anyIndianVoice := List.find is_enIN voices in
      let defaultGoogleFemaleVoice :=
        List.find (fun v => is_en v && is_google v && is_female v) voices in
      let defaultFemaleVoice := List.find (fun v => is_en v && is_female v) voices in
      let firstEnglishVoice := List.find is_en voices in
      let firstVoice := head voices in
      mkHook (isSupported h) voices
        (or_else (voiceURI_of preferredIndianGoogleFemaleVoice)
        (or_else (voiceURI_of preferredIndianFemaleVoice)
        (or_else (voiceURI_of anyIndianVoice)
        (or_else (voiceURI_of defaultGoogleFemaleVoice)
        (or_else (voiceURI_of defaultFemaleVoice)
        (or_else (voiceURI_of firstEnglishVoice)
                 (voiceURI_of firstVoice)))))))
    else mkHook (isSupported h) voices (selectedVoiceURI h).

End Platform.

(** The place of a voice in the sorted list: Indian English, other
    English, the rest. *)
Definition rank (v : Voice) : nat :=
  if is_enIN v then 0 else if is_en v then 1 else 2.

(** The voices of one rank, in the order of the list. *)
Definition ranked (k : nat) (l : list Voice) : list Voice :=
  List.filter (fun v => rank v =? k) l.

(** A list of voices as a browser may offer it. *)
Definition some_voices : list Voice :=
  [mkVoice (lit "Anna") (lit "de-DE") (lit "urn:anna");
   mkVoice (lit "Google US English") (lit "en-US") (lit "urn:google-us");
   mkVoice (lit "Rishi") (lit "en-IN") (lit "urn:rishi");
   mkVoice (lit "Daniel") (lit "en-GB") (lit "urn:daniel")].

End Voices.

(* ===================================================================== *)
(** ** App.tsx: the session, its profile and its store *)
(* ===================================================================== *)

Module Session.
Import JSON Storage.

(** The ids of [THEME_OPTIONS], in order. *)
Definition THEME_IDS : list jsstring :=
  [lit "cosmic-night"; lit "serene-dawn"; lit "forest-whisper"].

(** The state of the [App] component that [App.State] leaves out, with
    the [localStorage] of the origin.  [appliedTheme] is the theme whose
    colours the document carries. *)
Record State := mkSession {
  app : App.State;
  userProfile : option UserProfile;
  isSettingsOpen : bool;
  isInitialized : bool;
  currentTheme : jsstring;
  appliedTheme : option jsstring;
  localStorage : LocalStorage
}.

Definition setApp (a : App.State) (s : State) : State :=
  mkSession a (userProfile s) (isSettingsOpen s) (isInitialized s)
            (currentTheme s) (appliedTheme s) (localStorage s).
Definition setUserProfile (p : option UserProfile) (s : State) : State :=
  mkSession (app s) p (isSettingsOpen s) (isInitialized s)
            (currentTheme s) (appliedTheme s) (localStorage s).
Definition setIsSettingsOpen (b : bool) (s : State) : State :=
  mkSession (app s) (userProfile s) b (isInitialized s)
            (currentTheme s) (appliedTheme s) (localStorage s).
Definition setIsInitialized (b : bool) (s : State) : State :=
  mkSession (app s) (userProfile s) (isSettingsOpen s) b
            (currentTheme s) (appliedTheme s) (localStorage s).
Definition setLocalStorage (st : LocalStorage) (s : State) : State :=
  mkSession (app s) (userProfile s) (isSettingsOpen s) (isInitialized s)
            (currentTheme s) (appliedTheme s) st.

(** The component before its first effect has run, over a given manager,
    a given pair of speech hooks and a given store. *)
Definition first_render (g : Gemini.GeminiServiceManager) (tts : Synthesis.Hook)
    (recog : Recognition.Hook) (st : LocalStorage) : State :=
  mkSession (App.mkState INITIAL_SETUP [] None None [] false tts recog g [])
            None false false (lit "cosmic-night") None st.

(** [userProfile.journalingMode === JournalingMode.PERSISTENT] *)
Definition persistent (p : UserProfile) : bool :=
  match journalingMode p with
  | PERSISTENT => true
  | EPHEMERAL => false
  end.

(** [applyTheme]: an id that is not in [THEME_OPTIONS] changes nothing. *)
Definition applyTheme (themeId : jsstring) (s : State) : State :=
  if existsb (eqb themeId) THEME_IDS then
    mkSession (app s) (userProfile s) (isSettingsOpen s) (isInitialized s)
              themeId (Some themeId) (saveSelectedTheme themeId (localStorage s))
  else s.

(** The effect on [messages, userProfile, isInitialized]. *)
Definition persistEffect (s : State) : State :=
  match userProfile s with
  | Some p =>
      if isInitialized s && persistent p && (0 <? length (App.messages (app s)))
      then setLocalStorage
             (saveChatHistory (sn_id (symbolicName p)) (App.messages (app s))
                              (localStorage s)) s
      else s
  | None => s
  end.

(** [handleDeleteMessage] *)
Definition handleDeleteMessage (messageId : jsstring) (s : State) : State :=
  let a := App.handleDeleteMessage messageId (app s) in
  let newMessages := App.messages a in
  let st :=
    match userProfile s with
    | Some p =>
        if persistent p
        then saveChatHistory (sn_id (symbolicName p)) newMessages (localStorage s)
        else localStorage s
    | None => localStorage s
    end in
  setLocalStorage st (setApp a s).

(** [handleForgetMe] *)
Definition handleForgetMe (s : State) : State :=
  let st :=
    match userProfile s with
    | Some p => clearChatHistory (sn_id (symbolicName p)) (localStorage s)
    | None => localStorage s
    end in
  let st := clearUserProfile st in
  let a := App.setMessages (fun _ => []) (app s) in
  let a := App.setLunaChat None a in
  let a := App.setAppPhase INITIAL_SETUP a in
  let a := App.setError None a in
  mkSession a None false (isInitialized s) (currentTheme s) (appliedTheme s) st.

(** *** Reading typed data from parsed text *)

(** ToBoolean on a parsed value. *)
Definition truthy_value (v : value) : bool :=
  match v with
  | VNull => false
  | VBool b => b
  | VString s => truthy s
  | _ => true
  end.

(** The profile that a parsed value is, when it is an object as
    [object_of_profile] makes them.  The code takes any other value for a
    profile, too; what it does then is not modelled. *)
Definition profile_of_value (v : value) : option UserProfile :=
  match v with
  | VObject [(k1, VObject [(k2, VString id); (k3, VString name)]); (k4, VString mode)] =>
      if eqb k1 (lit "symbolicName") && eqb k2 (lit "id") && eqb k3 (lit "name") &&
         eqb k4 (lit "journalingMode")
      then
        if eqb mode (lit "EPHEMERAL")
        then Some {| symbolicName := {| sn_id := id; sn_name := name |};
                     journalingMode := EPHEMERAL |}
        else if eqb mode (lit "PERSISTENT")
        then Some {| symbolicName := {| sn_id := id; sn_name := name |};
                     journalingMode := PERSISTENT |}
        else None
      else None
  | _ => None
  end.

Definition sender_of_value (s : jsstring) : option ChatMessageSender :=
  if eqb s (lit "user") then Some USER
  else if eqb s (lit "luna") then Some LUNA
  else if eqb s (lit "system") then Some SYSTEM
  else None.

(** The message that a loaded value is, when it is an object as
    [object_of_message] makes them. *)
Definition message_of_value (v : value) : option ChatMessage :=
  match v with
  | VObject ((k1, VString id) :: (k2, VString sender) :: (k3, VString text)
             :: (k4, VDate timestamp) :: rest) =>
      if eqb k1 (lit "id") && eqb k2 (lit "sender") && eqb k3 (lit "text") &&
         eqb k4 (lit "timestamp")
      then
        match sender_of_value sender, rest with
        | Some s, [] => Some (mkChatMessage id s text timestamp None)
        | Some s, [(k5, VString url)] =>
            if eqb k5 (lit "audioUrl")
            then Some (mkChatMessage id s text timestamp (Some url))
            else None
        | _, _ => None
        end
      else None
  | _ => None
  end.

(** *** Starting a session *)

Inductive Outcome :=
| Returned (s : State)
| Awaiting (s : State) (k : App.Pending).

Definition GREETING_REQUEST : jsstring := lit "Hello Luna, I'm ready to start.".

(** [handleProfileSelected], up to its [await].  [None]: the stored
    history is not a list of messages as this program writes them. *)
Definition handleProfileSelected
    (create : jsstring -> list Gemini.Content -> Settlement Gemini.Chat)
    (now : Z) (profile : UserProfile) (isLoadScenario : bool) (s : State)
    : option Outcome :=
  let st := saveUserProfile (object_of_profile profile) (localStorage s) in
  let s0 := setLocalStorage st (setUserProfile (Some profile) s) in
  let a := App.setRecog (Recognition.resetTranscript (App.recog (app s))) (app s) in
  let id := sn_id (symbolicName profile) in
  let name := sn_name (symbolicName profile) in
  (* isLoadScenario && PERSISTENT && loadChatHistory(id) *)
  let prior :=
    if isLoadScenario && persistent profile then loadChatHistory id st else None in
  match prior with
  | None =>
      let a := App.setMessages (fun _ => []) a in
      let '(chatInstance, g) := Gemini.initLunaChat (App.gemini a) name None create in
      let a := App.setGemini g a in
      match chatInstance with
      | Some chat =>
          let a := App.setLunaChat (Some chat) a in
          let a := App.setAppPhase LUNA_THINKING a in
          let a := App.setLunaStatusText (lit "Luna is preparing...") a in
          let r := Gemini.sendUserMessageToLuna g now chat GREETING_REQUEST [] in
          Some (Awaiting (setApp (App.setGemini (Gemini.service r) a) s0)
                  (App.mkPending r now (App.isMuted (app s))
                     (Synthesis.isSupported (App.tts (app s)))
                     (Synthesis.isSpeaking (App.tts (app s)))))
      | None =>
          let a := App.setAppPhase ERROR a in
          let a := App.setError
                     (Some (lit "Failed to initialize chat with Luna. Please check API key and try again.")) a in
          Some (Returned (setApp a s0))
      end
  | Some loadedHistory =>
      match App.lunaChat (app s) with
      | None =>
          match mapM message_of_value loadedHistory with
          | Some loaded =>
              let geminiHistory := App.convertMessagesToGeminiHistory loaded in
              let '(chatInstance, g) :=
                Gemini.initLunaChat (App.gemini a) name (Some geminiHistory) create in
              let a := App.setGemini g a in
              match chatInstance with
              | Some chat =>
                  let a := App.setLunaChat (Some chat) a in
                  Some (Returned (setApp (App.setAppPhase READY_TO_CHAT a) s0))
              | None =>
                  let a := App.setError
                             (Some (lit "Failed to initialize chat with Luna (on load with history).")) a in
                  Some (Returned (setApp (App.setAppPhase ERROR a) s0))
              end
          | None => None
          end
      | Some _ => Some (Returned (setApp a s0))
      end
  end.

(** The rest of [handleProfileSelected], run on the state that is current
    when the promise of the greeting settles. *)
Definition resumeGreeting (k : App.Pending) (a : App.State) : App.State :=
  let now := (App.startedAt k + Z.of_N (Gemini.elapsed (App.promise k)))%Z in
  match Gemini.settlement (App.promise k) with
  | Fulfilled initialResponse =>
      match initialResponse with
      | Some response =>
          if truthy response then
            let a := App.addMessage LUNA response now a in
            let a := App.setAppPhase LUNA_SPEAKING a in
            let a := App.setLunaStatusText (lit "Luna is speaking...") a in
            if negb (App.seen_isMuted k) && App.seen_ttsSupported k
            then App.setTts (Synthesis.speak (App.seen_isSpeaking k) response (App.tts a)) a
            else App.setTimeout 500 READY_TO_CHAT a
          else
            App.setAppPhase READY_TO_CHAT
              (App.addMessage SYSTEM (lit "Welcome! I'm ready when you are.") now a)
      | None =>
          App.setAppPhase READY_TO_CHAT
            (App.addMessage SYSTEM (lit "Welcome! I'm ready when you are.") now a)
      end
  | Rejected _ =>
      let a := App.addMessage SYSTEM
                 (lit "There was an issue starting our chat. Please try refreshing.") now a in
      let a := App.setAppPhase ERROR a in
      App.setError (Some (lit "Failed to initialize chat.")) a
  end.

Definition finish (o : Outcome) : Outcome :=
  match o with
  | Returned s => Returned (setIsInitialized true s)
  | Awaiting s k => Awaiting (setIsInitialized true s) k
  end.

(** The effect run once after the first render.  [API_KEY] is
    [process.env.API_KEY]; [None]: the store holds a profile or a history
    that is not as this program writes them. *)
Definition mountEffect (API_KEY : option jsstring)
    (create : jsstring -> list Gemini.Content -> Settlement Gemini.Chat)
    (now : Z) (s : State) : option Outcome :=
  let savedThemeId := loadSelectedTheme (localStorage s) in
  let s := applyTheme (if truthy_opt savedThemeId then default [] savedThemeId
                       else lit "cosmic-night") s in
  if negb (truthy_opt API_KEY) then
    let a := App.setError (Some (lit "API_KEY_MISSING")) (app s) in
    let a := App.setAppPhase ERROR a in
    Some (Returned (setIsInitialized true (setApp a s)))
  else
    let loadedProfile := loadUserProfile (localStorage s) in
    if truthy_value loadedProfile then
      match profile_of_value loadedProfile with
      | Some profile =>
          let s := setUserProfile (Some profile) s in
          let historyToLoad :=
            if persistent profile
            then loadChatHistory (sn_id (symbolicName profile)) (localStorage s)
            else None in
          match historyToLoad with
          | Some (first :: others) =>
              match mapM message_of_value (first :: others) with
              | Some loaded =>
                  let a := App.setMessages (fun _ => loaded) (app s) in
                  let geminiHistory := App.convertMessagesToGeminiHistory loaded in
                  let '(chatInstance, g) :=
                    Gemini.initLunaChat (App.gemini a) (sn_name (symbolicName profile))
                                        (Some geminiHistory) create in
                  let a := App.setGemini g a in
                  match chatInstance with
                  | Some chat =>
                      let a := App.setLunaChat (Some chat) a in
                      let a := App.setAppPhase READY_TO_CHAT a in
                      Some (Returned (setIsInitialized true (setApp a s)))
                  | None =>
                      let a := App.setError
                                 (Some (lit "Failed to initialize chat with Luna. Please check API key and try again.")) a in
                      let a := App.setAppPhase ERROR a in
                      Some (Returned (setIsInitialized true (setApp a s)))
                  end
              | None => None
              end
          | _ =>
              option_map finish (handleProfileSelected create now profile true s)
          end
      | None => None
      end
    else
      Some (Returned (setIsInitialized true
                        (setApp (App.setAppPhase INITIAL_SETUP (app s)) s))).

(** A profile that keeps its history, and one that does not. *)
Definition river_profile : UserProfile :=
  {| symbolicName := {| sn_id := lit "river"; sn_name := lit "River" |};
     journalingMode := PERSISTENT |}.

Definition guest_profile : UserProfile :=
  {| symbolicName := {| sn_id := lit "moonbeam"; sn_name := lit "Moonbeam" |};
     journalingMode := EPHEMERAL |}.

(** The log of three messages [a], [b], [c], and a session that is under
    way with a given profile, log, chat and store. *)
Definition abc_log : list ChatMessage :=
  [mkChatMessage (lit "1") USER (lit "a") (Some 1000%Z) None;
   mkChatMessage (lit "2") LUNA (lit "b") (Some 2000%Z) None;
   mkChatMessage (lit "3") USER (lit "c") (Some 3000%Z) None].

Definition a_session (p : option UserProfile) (m : list ChatMessage)
    (chat : option Gemini.Chat) (st : Storage.LocalStorage) : State :=
  mkSession
    (App.mkState READY_TO_CHAT m chat None [] false App.tts_idle
                 Recognition.initial ready_service [])
    p false true (lit "cosmic-night") (Some (lit "cosmic-night")) st.

(** A chat that answers every message after 300 ms. *)
Definition kind_chat : Gemini.Chat :=
  fun _ => Gemini.Settles 300 (Fulfilled {| Gemini.text := Some (lit "I am here.") |}).

End Session.


(* ===================================================================== *)
(** * Properties *)
(* ===================================================================== *)

(** ** Facts about strings *)

Section StringFacts.

Lemma trimStart_nil_iff (s : jsstring) : trimStart s = [] <-> blank s = true.
Proof.
  induction s as [|c s IH]; simpl; [tauto|].
  destruct (is_whitespace c) eqn:Hc; simpl; [exact IH|].
  split; discriminate.
Qed.

Lemma blank_app (s t : jsstring) : blank (s ++ t) = blank s && blank t.
Proof. apply forallb_app. Qed.

Lemma blank_rev (s : jsstring) : blank (rev s) = blank s.
Proof.
  induction s as [|c s IH]; [reflexivity|].
  cbn [rev]. rewrite blank_app, IH. simpl. rewrite andb_true_r. apply andb_comm.
Qed.

(** What is left by [trimStart] is empty or starts with a visible unit. *)
Lemma blank_trimStart (s : jsstring) : blank (trimStart s) = blank s.
Proof.
  induction s as [|c s IH]; [reflexivity|].
  simpl. destruct (is_whitespace c) eqn:Hc; simpl; [exact IH|].
  now rewrite Hc.
Qed.

Lemma trim_nil_iff (s : jsstring) : trim s = [] <-> blank s = true.
Proof.
  unfold trim, trimEnd. split.
  - intros H. apply (f_equal (@rev N)) in H. rewrite rev_involutive in H.
    simpl in H. apply trimStart_nil_iff in H.
    now rewrite blank_rev, blank_trimStart in H.
  - intros H.
    assert (Hs : trimStart s = []) by now apply trimStart_nil_iff.
    now rewrite Hs.
Qed.

Lemma truthy_trim (s : jsstring) : truthy (trim s) = negb (blank s).
Proof.
  destruct (blank s) eqn:Hb.
  - apply trim_nil_iff in Hb. now rewrite Hb.
  - destruct (trim s) eqn:Ht; [|reflexivity].
    apply trim_nil_iff in Ht. congruence.
Qed.

(** The first guard of [sendUserMessageToLuna] is the blank test. *)
Lemma empty_guard_is_blank (s : jsstring) :
  negb (truthy s) || (length (trim s) =? 0) = blank s.
Proof.
  destruct (blank s) eqn:Hb.
  - apply trim_nil_iff in Hb. rewrite Hb. simpl. apply orb_true_r.
  - destruct s as [|c s]; [discriminate|]. simpl negb. simpl orb.
    destruct (trim (c :: s)) eqn:Ht; [|reflexivity].
    apply trim_nil_iff in Ht. congruence.
Qed.

Lemma trim_nonempty_length (s : jsstring) :
  (0 <? length (trim s)) = true -> trim s <> [].
Proof. intros H E. rewrite E in H. discriminate. Qed.

End StringFacts.

(** ** The conversation service client *)

Section GeminiFacts.
Import Gemini Failure.

Local Arguments lit : simpl never.

Lemma metrics_print c g : metrics (print c g) = metrics g.
Proof. reflexivity. Qed.

Lemma ai_print c g : ai (print c g) = ai g.
Proof. reflexivity. Qed.

Lemma ai_logError e g : ai (logError e g) = ai g.
Proof. unfold logError. now destruct (production _). Qed.

Lemma metrics_logError e g :
  metrics (logError e g) =
  set_lastError e (set_errorCount (errorCount (metrics g) + 1)%N (metrics g)).
Proof. unfold logError. now destruct (production _). Qed.

Lemma metrics_store_snapshot n f g : metrics (store (Snapshot n) f g) = metrics g.
Proof. reflexivity. Qed.

Lemma metrics_getMetrics g : metrics (snd (getMetrics g)) = metrics g.
Proof. reflexivity. Qed.

(** The reference returned by [getMetrics] designates a new object whose
    fields are those of [this.metrics]. *)
Lemma load_getMetrics g :
  load (fst (getMetrics g)) (snd (getMetrics g)) = Some (metrics g).
Proof.
  unfold getMetrics, load. cbn [fst snd snapshots].
  now rewrite list_lookup_middle.
Qed.

Lemma getServiceMetrics_reads_this g : getServiceMetrics g = metrics g.
Proof.
  unfold getServiceMetrics.
  pose proof (load_getMetrics g) as H.
  destruct (getMetrics g) as [r g']. cbn [fst snd] in H. now rewrite H.
Qed.

(** A write through a snapshot reference never reaches [this.metrics],
    whatever is read back afterwards. *)
Lemma write_to_copy_is_lost g f :
  getServiceMetrics (store (fst (getMetrics g)) f (snd (getMetrics g)))
  = getServiceMetrics g.
Proof. now rewrite !getServiceMetrics_reads_this. Qed.

Lemma requestCount_recordResponseTime t g :
  requestCount (metrics (recordResponseTime t g)) = requestCount (metrics g).
Proof. reflexivity. Qed.

Lemma errorCount_recordResponseTime t g :
  errorCount (metrics (recordResponseTime t g)) = errorCount (metrics g).
Proof. reflexivity. Qed.

Lemma requestCount_logError e g :
  requestCount (metrics (logError e g)) = requestCount (metrics g).
Proof. now rewrite metrics_logError. Qed.

Lemma errorCount_logError e g :
  errorCount (metrics (logError e g)) = (errorCount (metrics g) + 1)%N.
Proof. now rewrite metrics_logError. Qed.

(** The rolling window never holds more than 100 latencies. *)
Lemma responseTimes_window t g :
  length (responseTimes g) <= 100 ->
  length (responseTimes (recordResponseTime t g)) <= 100.
Proof.
  intros H. unfold recordResponseTime. cbn [responseTimes store].
  destruct (100 <? length (responseTimes g ++ [t])) eqn:E.
  - destruct (responseTimes g) as [|x l]; simpl in *; [lia|].
    rewrite length_app. simpl. lia.
  - apply Nat.ltb_ge in E. exact E.
Qed.

Lemma send_catch_reply e t sent g :
  settlement (send_catch e t sent g) = Fulfilled (Some (apology (classify e))).
Proof.
  unfold send_catch, classify. cbn [settlement].
  destruct (includes _ (lit "timeout")); [reflexivity|].
  destruct (includes _ (lit "quota") || includes _ (lit "limit")); [reflexivity|].
  now destruct (includes _ (lit "network") || includes _ (lit "connection")).
Qed.

Lemma send_catch_elapsed e t sent g : elapsed (send_catch e t sent g) = t.
Proof. reflexivity. Qed.

Lemma send_catch_sent e t l g : sent (send_catch e t l g) = l.
Proof. reflexivity. Qed.

Lemma send_catch_metrics e t l g :
  metrics (service (send_catch e t l g)) =
  set_lastError (lit "API call failed: " ++ errorMessage_of e)
    (set_errorCount (errorCount (metrics g) + 1)%N (metrics g)).
Proof. unfold send_catch. cbn [service]. now rewrite metrics_logError. Qed.

Lemma metrics_warn g : metrics (warn_if_unhealthy g) = metrics g.
Proof. unfold warn_if_unhealthy. now destruct (negb _). Qed.

(** The three early returns. *)
Lemma send_uninitialised g clock chat text hist :
  ai g = None ->
  sendUserMessageToLuna g clock chat text hist =
  mkSendResult (Fulfilled (Some MSG_UNAVAILABLE)) 0 []
    (print (ConsoleError (lit "Gemini AI service not available. Cannot send message.")) g).
Proof. intros H. unfold sendUserMessageToLuna, getAI. now rewrite H. Qed.

Lemma send_blank g clock chat text hist :
  ai g <> None -> blank text = true ->
  sendUserMessageToLuna g clock chat text hist =
  mkSendResult (Fulfilled (Some MSG_DIDNT_CATCH)) 0 [] (warn_if_unhealthy g).
Proof.
  intros Hai Hb. unfold sendUserMessageToLuna, getAI.
  destruct (ai g); [|congruence].
  now rewrite empty_guard_is_blank, Hb.
Qed.

Lemma send_too_long g clock chat text hist :
  ai g <> None -> blank text = false -> 4000 < length text ->
  sendUserMessageToLuna g clock chat text hist =
  mkSendResult (Fulfilled (Some MSG_TOO_LONG)) 0 [] (warn_if_unhealthy g).
Proof.
  intros Hai Hb Hlen. unfold sendUserMessageToLuna, getAI.
  destruct (ai g); [|congruence].
  rewrite empty_guard_is_blank, Hb.
  apply Nat.ltb_lt in Hlen. now rewrite Hlen.
Qed.

Lemma send_passes g clock chat text hist :
  ai g <> None -> blank text = false -> length text <= 4000 ->
  sendUserMessageToLuna g clock chat text hist =
  send_try (warn_if_unhealthy g) clock chat text.
Proof.
  intros Hai Hb Hlen. unfold sendUserMessageToLuna, getAI.
  destruct (ai g); [|congruence].
  rewrite empty_guard_is_blank, Hb.
  apply Nat.ltb_ge in Hlen. now rewrite Hlen.
Qed.

End GeminiFacts.

Section GeminiClaims.
Import Gemini Failure.

Local Arguments lit : simpl never.

Lemma send_try_sent g clock chat text :
  sent (send_try g clock chat text) = [trim text].
Proof.
  unfold send_try. cbn [getMetrics].
  destruct (race (chat (trim text))) as [t [response|e]]; [|reflexivity].
  destruct (Gemini.text response) as [reply|]; [|reflexivity].
  now destruct (truthy reply && _).
Qed.

Lemma send_try_rejected g clock chat text t e :
  race (chat (trim text)) = (t, Rejected e) ->
  send_try g clock chat text =
  send_catch e t [trim text]
    (store (fst (getMetrics g)) (fun m => set_requestCount (requestCount m + 1)%N m)
           (snd (getMetrics g))).
Proof. intros H. unfold send_try. cbn [getMetrics fst snd]. now rewrite H. Qed.

Lemma race_unresolved c :
  unresolved_after TIMEOUT_MS c ->
  race c = (TIMEOUT_MS, Rejected (ErrorObj (lit "Request timeout"))).
Proof.
  destruct c as [e|t r|]; simpl; [tauto| |reflexivity].
  intros H. destruct (t <? TIMEOUT_MS)%N eqn:E; [|reflexivity].
  apply N.ltb_lt in E. lia.
Qed.

Lemma classify_timeout : classify (ErrorObj (lit "Request timeout")) = Timeout.
Proof. vm_compute. reflexivity. Qed.

(** Every exit of the function fulfils the promise with a string that is
    not empty. *)
Lemma send_catch_text e t l g :
  exists reply, settlement (send_catch e t l g) = Fulfilled (Some reply) /\ reply <> [].
Proof.
  rewrite send_catch_reply. eexists; split; [reflexivity|].
  now destruct (classify e).
Qed.

Lemma send_try_text g clock chat text :
  exists reply,
    settlement (send_try g clock chat text) = Fulfilled (Some reply) /\ reply <> [].
Proof.
  unfold send_try. cbn [getMetrics].
  destruct (race (chat (trim text))) as [t [response|e]]; [|apply send_catch_text].
  destruct (Gemini.text response) as [reply|].
  - destruct (truthy reply && (0 <? length (trim reply))) eqn:E.
    + eexists; split; [reflexivity|].
      apply andb_true_iff in E. now apply trim_nonempty_length.
    + eexists; split; [reflexivity|discriminate].
  - eexists; split; [reflexivity|discriminate].
Qed.

Lemma send_text g clock chat text hist :
  exists reply,
    settlement (sendUserMessageToLuna g clock chat text hist) = Fulfilled (Some reply)
    /\ reply <> [].
Proof.
  unfold sendUserMessageToLuna.
  destruct (getAI g); [|eexists; split; [reflexivity|discriminate]].
  destruct (negb (truthy text) || _); [eexists; split; [reflexivity|discriminate]|].
  destruct (4000 <? length text); [eexists; split; [reflexivity|discriminate]|].
  apply send_try_text.
Qed.

(** What one call does to the fields read by [getServiceMetrics]. *)
Lemma send_try_requestCount g clock chat text :
  requestCount (metrics (service (send_try g clock chat text))) = requestCount (metrics g).
Proof.
  unfold send_try. cbn [getMetrics].
  destruct (race (chat (trim text))) as [t [response|e]].
  - destruct (Gemini.text response) as [reply|]; [destruct (truthy reply && _)|];
      cbn [service]; rewrite ?requestCount_logError; reflexivity.
  - now rewrite send_catch_metrics.
Qed.

Lemma send_try_lastSuccessfulRequest g clock chat text :
  lastSuccessfulRequest (metrics (service (send_try g clock chat text)))
  = lastSuccessfulRequest (metrics g).
Proof.
  unfold send_try. cbn [getMetrics].
  destruct (race (chat (trim text))) as [t [response|e]].
  - destruct (Gemini.text response) as [reply|]; [destruct (truthy reply && _)|];
      cbn [service]; rewrite ?metrics_logError; reflexivity.
  - now rewrite send_catch_metrics.
Qed.

Lemma send_try_errorCount g clock chat text :
  (errorCount (metrics g) <= errorCount (metrics (service (send_try g clock chat text))))%N.
Proof.
  unfold send_try. cbn [getMetrics].
  destruct (race (chat (trim text))) as [t [response|e]].
  - destruct (Gemini.text response) as [reply|]; [destruct (truthy reply && _)|];
      cbn [service]; rewrite ?errorCount_logError; cbn; lia.
  - rewrite send_catch_metrics. cbn. lia.
Qed.

End GeminiClaims.

(** ** The controller *)

Section AppFacts.
Import Gemini Failure App.

Local Arguments lit : simpl never.

(** With a reply that is a non-empty string, the callback goes on as for
    any answer of Luna. *)
Lemma resume_with_text k s reply :
  settlement (promise k) = Fulfilled (Some reply) -> reply <> [] ->
  let now := (startedAt k + Z.of_N (elapsed (promise k)))%Z in
  appPhase (resume k s) = LUNA_SPEAKING /\
  error (resume k s) = error s /\
  messages (resume k s) =
    messages s ++ [mkChatMessage (Z_toString now) LUNA reply (Some now) None].
Proof.
  intros Hs Hne. unfold resume. rewrite Hs.
  destruct reply as [|c reply]; [congruence|]. cbn [truthy].
  destruct (negb (seen_isMuted k) && seen_ttsSupported k); repeat split.
Qed.

(** What [handleUserSpeechResult] waits for is the promise of
    [sendUserMessageToLuna]. *)
Lemma awaited_promise now text s s1 k :
  handleUserSpeechResult now text s = Awaiting s1 k ->
  exists chat,
    lunaChat s = Some chat /\
    promise k = sendUserMessageToLuna (gemini s) now chat text (messages s).
Proof.
  unfold handleUserSpeechResult.
  destruct (negb (truthy (trim text))); [discriminate|].
  destruct (lunaChat s) as [chat|]; [|discriminate].
  intros H. injection H as _ <-. now exists chat.
Qed.

(** With a chat handle, a text that is not blank is appended and sent. *)
Lemma handleUserSpeechResult_with_chat now text s chat :
  blank text = false -> lunaChat s = Some chat ->
  let r := sendUserMessageToLuna (gemini s) now chat text (messages s) in
  exists s1,
    handleUserSpeechResult now text s =
      Awaiting s1 (mkPending r now (isMuted s) (Synthesis.isSupported (tts s))
                             (Synthesis.isSpeaking (tts s))) /\
    messages s1 = messages s ++ [mkChatMessage (Z_toString now) USER text (Some now) None] /\
    appPhase s1 = LUNA_THINKING /\
    gemini s1 = service r /\
    isMuted s1 = isMuted s /\ tts s1 = tts s /\ lunaChat s1 = lunaChat s /\
    recog s1 = Recognition.resetTranscript (recog s).
Proof.
  intros Hb Hc. cbn zeta. unfold handleUserSpeechResult.
  rewrite truthy_trim, Hb, Hc. cbn [negb].
  eexists. split; [reflexivity|]. repeat split. exact Hc.
Qed.

End AppFacts.

(** ** The claims about the exchange with the service *)

Section ExchangeClaims.
Import Gemini Failure App.

Local Arguments lit : simpl never.

(** C1, as stated, fails.  A call that never settles is answered after
    30 seconds with the timeout apology, and the controller treats that
    string as Luna's reply: the phase becomes LUNA_SPEAKING, not ERROR. *)
Lemma timeout_phase_is_not_error :
  let chat : Chat := fun _ => NeverSettles in
  let s := a_state ready_service (Some chat) READY_TO_CHAT false tts_idle in
  let s' := submit 0 (lit "I feel tired") s in
  unresolved_after TIMEOUT_MS (chat (lit "I feel tired")) /\
  appPhase s' = LUNA_SPEAKING /\ appPhase s' <> ERROR /\
  map msg_sender (messages s') = [USER; LUNA].
Proof. vm_compute. repeat split; discriminate. Qed.

(** C1, amended.  When the call is still unresolved after 30 seconds, the
    promise of [sendUserMessageToLuna] is fulfilled at 30 seconds with the
    fixed reply of the timeout class, and the controller appends that reply
    as a message of Luna and sets the phase to LUNA_SPEAKING; it neither
    hangs nor enters the ERROR phase. *)
Theorem timeout_is_answered_as_reply now text s chat :
  lunaChat s = Some chat ->
  ai (gemini s) <> None ->
  blank text = false ->
  length text <= 4000 ->
  unresolved_after TIMEOUT_MS (chat (trim text)) ->
  exists s1 k,
    handleUserSpeechResult now text s = Awaiting s1 k /\
    settlement (promise k) = Fulfilled (Some (apology Timeout)) /\
    elapsed (promise k) = TIMEOUT_MS /\
    forall s2,
      appPhase (resume k s2) = LUNA_SPEAKING /\
      error (resume k s2) = error s2 /\
      messages (resume k s2) =
        messages s2 ++
        [mkChatMessage (Z_toString (now + 30000)) LUNA MSG_TIMEOUT
                       (Some (now + 30000)%Z) None].
Proof.
  intros Hchat Hai Hb Hlen Hun.
  unfold handleUserSpeechResult. rewrite truthy_trim, Hb, Hchat. cbn [negb].
  eexists _, _. split; [reflexivity|]. cbn [promise startedAt].
  rewrite send_passes by assumption.
  rewrite (send_try_rejected _ _ _ _ _ _ (race_unresolved _ Hun)).
  assert (Hset : settlement (send_catch (ErrorObj (lit "Request timeout")) TIMEOUT_MS
                   [trim text]
                   (store (fst (getMetrics (warn_if_unhealthy (gemini s))))
                      (fun m => set_requestCount (requestCount m + 1)%N m)
                      (snd (getMetrics (warn_if_unhealthy (gemini s))))))
                 = Fulfilled (Some MSG_TIMEOUT)).
  { now rewrite send_catch_reply, classify_timeout. }
  split; [exact Hset|]. split; [reflexivity|].
  intros s2.
  match goal with
  | |- context [resume ?k s2] =>
      pose proof (resume_with_text k s2 MSG_TIMEOUT) as Hr
  end.
  cbn [promise startedAt] in Hr. rewrite send_catch_elapsed in Hr.
  apply Hr; [exact Hset|discriminate].
Qed.

Lemma timeout_is_answered_as_reply_witness :
  let chat : Chat := fun _ => Settles 45000 (Fulfilled {| Gemini.text := Some (lit "late") |}) in
  let s := a_state ready_service (Some chat) READY_TO_CHAT false tts_idle in
  (lunaChat s = Some chat /\ ai (gemini s) <> None /\
   blank (lit "I feel tired") = false /\ length (lit "I feel tired") <= 4000 /\
   unresolved_after TIMEOUT_MS (chat (trim (lit "I feel tired")))) /\
  exists s1 k,
    handleUserSpeechResult 0 (lit "I feel tired") s = Awaiting s1 k /\
    settlement (promise k) = Fulfilled (Some (apology Timeout)) /\
    elapsed (promise k) = TIMEOUT_MS /\
    forall s2,
      appPhase (resume k s2) = LUNA_SPEAKING /\
      error (resume k s2) = error s2 /\
      messages (resume k s2) =
        messages s2 ++
        [mkChatMessage (Z_toString (0 + 30000)) LUNA MSG_TIMEOUT
                       (Some (0 + 30000)%Z) None].
Proof.
  intros chat s.
  assert (H1 : lunaChat s = Some chat) by reflexivity.
  assert (H2 : ai (gemini s) <> None) by (vm_compute; discriminate).
  assert (H3 : blank (lit "I feel tired") = false) by (vm_compute; reflexivity).
  assert (H4 : length (lit "I feel tired") <= 4000) by (vm_compute; lia).
  assert (H5 : unresolved_after TIMEOUT_MS (chat (trim (lit "I feel tired"))))
    by (vm_compute; reflexivity).
  split; [tauto|].
  exact (timeout_is_answered_as_reply 0 (lit "I feel tired") s chat H1 H2 H3 H4 H5).
Defined.

(** C3, as stated, fails.  A text of 4001 spaces exceeds 4000 characters,
    yet the reply is the guidance for an empty message, not the "too long"
    one: the blank test comes first.  And on a service built without a key
    a text of 4001 letters gets the "technical difficulties" reply: the
    check for the client comes before both tests. *)
Lemma long_blank_text_is_not_too_long :
  let spaces := repeat 32%N 4001 in
  let letters := repeat 97%N 4001 in
  let r := sendUserMessageToLuna ready_service 0 (fun _ => NeverSettles) spaces [] in
  let r' := sendUserMessageToLuna keyless_service 0 (fun _ => NeverSettles) letters [] in
  4000 < length spaces /\
  settlement r = Fulfilled (Some MSG_DIDNT_CATCH) /\
  settlement r <> Fulfilled (Some MSG_TOO_LONG) /\
  4000 < length letters /\
  settlement r' = Fulfilled (Some MSG_UNAVAILABLE) /\
  settlement r' <> Fulfilled (Some MSG_TOO_LONG).
Proof.
  cbv zeta. split; [rewrite repeat_length; lia|].
  assert (H : settlement (sendUserMessageToLuna ready_service 0
                (fun _ => NeverSettles) (repeat 32%N 4001) [])
              = Fulfilled (Some MSG_DIDNT_CATCH)) by (vm_compute; reflexivity).
  assert (H' : settlement (sendUserMessageToLuna keyless_service 0
                 (fun _ => NeverSettles) (repeat 97%N 4001) [])
               = Fulfilled (Some MSG_UNAVAILABLE)) by (vm_compute; reflexivity).
  rewrite H, H'. split; [reflexivity|]. split; [vm_compute; discriminate|].
  split; [rewrite repeat_length; lia|]. split; [reflexivity|].
  vm_compute. discriminate.
Qed.

(** C3, amended.  A text that is blank, or longer than 4000 code units, is
    answered at once and without any call of the network client.  On an
    initialised service the reply is the guidance string when the text is
    blank (whatever its length) and the "too long" string when it is not
    blank and longer than 4000; on a service without client it is the
    fixed "technical difficulties" string. *)
Theorem guarded_text_never_reaches_network g clock chat text hist :
  blank text = true \/ 4000 < length text ->
  let r := sendUserMessageToLuna g clock chat text hist in
  sent r = [] /\ elapsed r = 0%N /\
  settlement r =
    Fulfilled (Some match ai g with
                    | None => MSG_UNAVAILABLE
                    | Some _ => if blank text then MSG_DIDNT_CATCH else MSG_TOO_LONG
                    end).
Proof.
  intros H r. subst r.
  destruct (ai g) as [client|] eqn:Hai.
  - assert (Hne : ai g <> None) by congruence.
    destruct (blank text) eqn:Hb.
    + now rewrite send_blank.
    + destruct H as [H|H]; [discriminate|]. now rewrite send_too_long.
  - now rewrite send_uninitialised.
Qed.

Lemma guarded_text_never_reaches_network_witness :
  let text := repeat 97%N 4001 in
  let r := sendUserMessageToLuna ready_service 0 (fun _ => NeverSettles) text [] in
  (blank text = true \/ 4000 < length text) /\
  sent r = [] /\ elapsed r = 0%N /\ settlement r = Fulfilled (Some MSG_TOO_LONG).
Proof.
  cbv zeta.
  assert (H : blank (repeat 97%N 4001) = true \/ 4000 < length (repeat 97%N 4001)).
  { right. rewrite repeat_length. lia. }
  split; [exact H|].
  exact (guarded_text_never_reaches_network ready_service 0 (fun _ => NeverSettles)
           (repeat 97%N 4001) [] H).
Defined.

(** A failed call (it throws, is rejected, or loses the race against the
    timer) is put into one of the four classes by its message, and the
    reply is the fixed string of that class. *)
Lemma thrown_failure_reply g clock chat text hist t e :
  ai g <> None -> blank text = false -> length text <= 4000 ->
  race (chat (trim text)) = (t, Rejected e) ->
  settlement (sendUserMessageToLuna g clock chat text hist)
  = Fulfilled (Some (apology (classify e))).
Proof.
  intros H1 H2 H3 H4.
  rewrite send_passes by assumption.
  rewrite (send_try_rejected _ _ _ _ _ _ H4). apply send_catch_reply.
Qed.

(** What a send that passes the guards returns and counts, by the failure
    that it meets. *)
Lemma send_failure_outcome g clock chat text hist f :
  blank text = false -> length text <= 4000 ->
  failure_of g chat text = Some f ->
  settlement (sendUserMessageToLuna g clock chat text hist)
  = Fulfilled (Some (failure_reply f)) /\
  errorCount (metrics (service (sendUserMessageToLuna g clock chat text hist)))
  = (errorCount (metrics g) + counted f)%N.
Proof.
  intros Hb Hlen. unfold failure_of, getAI.
  destruct (ai g) as [client|] eqn:Hai.
  2:{ intros [= <-]. rewrite send_uninitialised by exact Hai. cbn. split; [reflexivity|lia]. }
  assert (Hai' : ai g <> None) by congruence.
  rewrite send_passes by assumption.
  destruct (race (chat (trim text))) as [t [response|e]] eqn:Hrace.
  - unfold send_try. cbn [getMetrics]. rewrite Hrace.
    destruct (Gemini.text response) as [reply|].
    + destruct (truthy reply && (0 <? length (trim reply))); [discriminate|].
      intros [= <-]. cbn [settlement service failure_reply counted].
      rewrite errorCount_logError. cbn. rewrite metrics_warn. split; [reflexivity|lia].
    + intros [= <-]. cbn [settlement service failure_reply counted].
      rewrite errorCount_logError. cbn. rewrite metrics_warn. split; [reflexivity|lia].
  - intros [= <-]. rewrite (send_try_rejected _ _ _ _ _ _ Hrace).
    rewrite send_catch_reply, send_catch_metrics. cbn. rewrite metrics_warn.
    split; [reflexivity|lia].
Qed.

Lemma failure_reply_not_empty f : failure_reply f <> [].
Proof. destruct f as [|[| | |]|]; discriminate. Qed.

(** C5, as stated, fails.  A response without text is a failure of the
    send: the code logs it as an error and counts it, and the reply is a
    fifth fixed string, none of the four of the classes.  A send without a
    client is answered by a sixth. *)
Lemma empty_response_and_missing_client_have_replies_of_their_own :
  let chat : Chat := fun _ => Settles 250 (Fulfilled {| Gemini.text := None |}) in
  let r := sendUserMessageToLuna ready_service 0 chat (lit "hello") [] in
  let r' := sendUserMessageToLuna keyless_service 0 chat (lit "hello") [] in
  settlement r = Fulfilled (Some MSG_EMPTY_RESPONSE) /\
  errorCount (metrics ready_service) = 0%N /\
  errorCount (metrics (service r)) = 1%N /\
  lastError (metrics (service r)) = Some (lit "Empty response received") /\
  (forall k, MSG_EMPTY_RESPONSE <> apology k) /\
  settlement r' = Fulfilled (Some MSG_UNAVAILABLE) /\
  sent r' = [] /\
  (forall k, MSG_UNAVAILABLE <> apology k).
Proof.
  cbn zeta. repeat split; try (vm_compute; reflexivity);
    intros [| | |] H; vm_compute in H; discriminate H.
Qed.

(** C5, amended.  A send that passes the guards fails in one of six ways:
    there is no client, the call fails with a message of one of the four
    classes, or the response carries no text.  Each of them has one fixed
    reply, and the six replies differ from one another; the controller
    appends exactly that reply; the error counter counts every failure but
    the missing client; and two sends that fail in the same way give the
    same reply, whatever the service state, the handle and the text.  A
    send that does not fail returns the trimmed text of the response and
    counts no error. *)
Theorem every_send_failure_has_its_fixed_reply g clock chat text hist :
  blank text = false -> length text <= 4000 ->
  let r := sendUserMessageToLuna g clock chat text hist in
  (forall f,
     failure_of g chat text = Some f ->
     settlement r = Fulfilled (Some (failure_reply f)) /\
     errorCount (metrics (service r)) = (errorCount (metrics g) + counted f)%N /\
     (forall started muted supported speaking s,
        let s' := resume (mkPending r started muted supported speaking) s in
        map msg_text (messages s') = map msg_text (messages s) ++ [failure_reply f]) /\
     (forall g' clock' chat' text' hist',
        blank text' = false -> length text' <= 4000 ->
        failure_of g' chat' text' = Some f ->
        settlement (sendUserMessageToLuna g' clock' chat' text' hist') = settlement r)) /\
  (failure_of g chat text = None ->
   exists t response reply,
     race (chat (trim text)) = (t, Fulfilled response) /\
     Gemini.text response = Some reply /\
     blank reply = false /\
     settlement r = Fulfilled (Some (trim reply)) /\
     errorCount (metrics (service r)) = errorCount (metrics g)) /\
  (forall e, failure_reply (CallFailed (classify e)) = apology (classify e)) /\
  (forall f f', failure_reply f = failure_reply f' -> f = f').
Proof.
  intros Hb Hlen r. split; [|split; [|split]].
  - intros f Hf.
    destruct (send_failure_outcome g clock chat text hist f Hb Hlen Hf) as [Hset Hcount].
    split; [exact Hset|]. split; [exact Hcount|]. split.
    + intros started muted supported speaking s s'. subst s'.
      destruct (resume_with_text (mkPending r started muted supported speaking) s
                  (failure_reply f)) as (_ & _ & Hm).
      * exact Hset.
      * apply failure_reply_not_empty.
      * rewrite Hm, map_app. reflexivity.
    + intros g' clock' chat' text' hist' Hb' Hlen' Hf'.
      destruct (send_failure_outcome g' clock' chat' text' hist' f Hb' Hlen' Hf')
        as [Hset' _].
      subst r. now rewrite Hset, Hset'.
  - unfold failure_of, getAI. destruct (ai g) as [client|] eqn:Hai; [|discriminate].
    assert (Hai' : ai g <> None) by congruence.
    subst r. rewrite send_passes by assumption.
    unfold send_try. cbn [getMetrics].
    destruct (race (chat (trim text))) as [t [response|e]]; [|discriminate].
    destruct (Gemini.text response) as [reply|] eqn:Ht; [|discriminate].
    destruct (truthy reply && (0 <? length (trim reply))) eqn:E; [|discriminate].
    intros _. exists t, response, reply.
    split; [reflexivity|]. split; [exact Ht|]. split.
    + apply andb_true_iff in E as [_ E].
      destruct (blank reply) eqn:Hbr; [|reflexivity].
      apply trim_nil_iff in Hbr. rewrite Hbr in E. discriminate.
    + split; [reflexivity|]. cbn [service]. cbn. now rewrite metrics_warn.
  - reflexivity.
  - intros f f' H.
    destruct f as [|[| | |]|]; destruct f' as [|[| | |]|]; try reflexivity;
      vm_compute in H; discriminate H.
Qed.

Lemma every_send_failure_has_its_fixed_reply_witness :
  let e := ErrorObj (lit "429: quota exceeded") in
  let chat : Chat := fun _ => Settles 800 (Rejected e) in
  let r := sendUserMessageToLuna ready_service 0 chat (lit "hello") [] in
  (blank (lit "hello") = false /\ length (lit "hello") <= 4000 /\
   failure_of ready_service chat (lit "hello") = Some (CallFailed Quota)) /\
  settlement r = Fulfilled (Some MSG_QUOTA) /\
  errorCount (metrics (service r)) = 1%N.
Proof.
  intros e chat r.
  assert (H1 : blank (lit "hello") = false) by (vm_compute; reflexivity).
  assert (H2 : length (lit "hello") <= 4000) by (vm_compute; lia).
  assert (H3 : failure_of ready_service chat (lit "hello") = Some (CallFailed Quota))
    by (vm_compute; reflexivity).
  split; [tauto|].
  destruct (every_send_failure_has_its_fixed_reply ready_service 0 chat (lit "hello") []
              H1 H2) as [H _].
  destruct (H (CallFailed Quota) H3) as (Hs & Hc & _).
  split; [exact Hs|exact Hc].
Defined.

(** C8, as stated, fails.  After ten failed exchanges the error count is
    10, which does not exceed 10, and yet [isHealthy] already answers
    false (after nine it still answers true). *)
Lemma unhealthy_at_ten_errors :
  let g := after_failures 10 in
  ai g <> None /\ errorCount (metrics g) = 10%N /\
  ~ (10 < errorCount (metrics g))%N /\ isHealthy g = false /\
  isHealthy (after_failures 9) = true.
Proof. vm_compute. repeat split; discriminate. Qed.

(** C8, amended.  On an initialised service, [isHealthy] answers false
    exactly when at least 10 errors have been recorded.  An unhealthy
    service is not refused anything: [initLunaChat] still returns the chat
    it created and [sendUserMessageToLuna] still issues the request; the
    only trace is a warning on the console. *)
Theorem unhealthy_from_ten_errors_and_never_blocking g :
  ai g <> None ->
  (isHealthy g = false <-> (10 <= errorCount (metrics g))%N) /\
  (forall name history chat,
      fst (initLunaChat g name history (fun _ _ => Fulfilled chat)) = Some chat) /\
  (forall clock chat text hist,
      blank text = false -> length text <= 4000 ->
      sent (sendUserMessageToLuna g clock chat text hist) = [trim text]) /\
  (isHealthy g = false ->
   forall name history chat,
     console (snd (initLunaChat g name history (fun _ _ => Fulfilled chat))) =
     console g ++
     [ConsoleWarn (lit "Gemini AI service health check failed. Proceeding with caution.");
      ConsoleLog (9989%N :: lit " Luna chat initialized for " ++ name)]).
Proof.
  intros Hai. unfold isHealthy, initLunaChat, getAI, isHealthy.
  destruct (ai g) as [client|] eqn:E; [|congruence].
  repeat split.
  - intros H. apply N.ltb_ge in H. exact H.
  - intros H. apply N.ltb_ge. exact H.
  - intros clock chat text hist Hb Hlen.
    rewrite send_passes by (assumption || congruence). apply send_try_sent.
  - intros H name history chat. rewrite H. cbn. now rewrite <- app_assoc.
Qed.

Lemma unhealthy_from_ten_errors_and_never_blocking_witness :
  let g := after_failures 10 in
  ai g <> None /\
  (isHealthy g = false <-> (10 <= errorCount (metrics g))%N).
Proof.
  intros g.
  assert (H : ai g <> None) by (vm_compute; discriminate).
  split; [exact H|].
  exact (proj1 (unhealthy_from_ten_errors_and_never_blocking g H)).
Defined.

(** C9: what the code does.  The two writes that go through [getMetrics]
    land in a copy: after any call, [getServiceMetrics] shows the same
    [requestCount] and the same [lastSuccessfulRequest] as before.  A
    successful exchange on a fresh service (reply "Hi" after 120 ms)
    leaves [requestCount] at 0 and [lastSuccessfulRequest] unset, while
    the latency is recorded. *)
Theorem writes_through_getMetrics_are_lost :
  (forall g clock chat text hist,
      let g' := service (sendUserMessageToLuna g clock chat text hist) in
      requestCount (getServiceMetrics g') = requestCount (getServiceMetrics g) /\
      lastSuccessfulRequest (getServiceMetrics g')
      = lastSuccessfulRequest (getServiceMetrics g)) /\
  (let chat : Chat := fun _ => Settles 120 (Fulfilled {| Gemini.text := Some (lit "Hi") |}) in
   let r := sendUserMessageToLuna ready_service 1700000000000 chat (lit "hello") [] in
   settlement r = Fulfilled (Some (lit "Hi")) /\
   sent r = [lit "hello"] /\
   requestCount (getServiceMetrics ready_service) = 0%N /\
   requestCount (getServiceMetrics (service r)) = 0%N /\
   lastSuccessfulRequest (getServiceMetrics (service r)) = None /\
   responseTimes (service r) = [120%Z]).
Proof.
  split.
  - intros g clock chat text hist g'. subst g'.
    rewrite !getServiceMetrics_reads_this.
    unfold sendUserMessageToLuna.
    destruct (getAI g); [|split; reflexivity].
    destruct (negb (truthy text) || _); [cbn [service]; now rewrite metrics_warn|].
    destruct (4000 <? length text); [cbn [service]; now rewrite metrics_warn|].
    now rewrite send_try_requestCount, send_try_lastSuccessfulRequest, metrics_warn.
  - vm_compute. repeat split.
Qed.

(** The counters never decrease, and the window of latencies stays within
    100 entries. *)
Lemma counters_do_not_decrease g clock chat text hist :
  let g' := service (sendUserMessageToLuna g clock chat text hist) in
  (requestCount (metrics g) <= requestCount (metrics g'))%N /\
  (errorCount (metrics g) <= errorCount (metrics g'))%N.
Proof.
  intros g'. subst g'. unfold sendUserMessageToLuna.
  destruct (getAI g); [|split; reflexivity].
  destruct (negb (truthy text) || _); [cbn [service]; rewrite metrics_warn; lia|].
  destruct (4000 <? length text); [cbn [service]; rewrite metrics_warn; lia|].
  rewrite send_try_requestCount, metrics_warn. split; [lia|].
  rewrite <- (metrics_warn g) at 1. apply send_try_errorCount.
Qed.

(** C10.  Whatever the service state, the handle and the text, the promise
    of [sendUserMessageToLuna] is fulfilled, never rejected, with a string
    that is not empty.  Hence a pending [handleUserSpeechResult] never ends
    in its [else] branch: it appends the reply as a message of Luna and
    sets LUNA_SPEAKING, and neither the "couldn't get a response" message
    nor the ERROR phase of that branch can arise. *)
Theorem send_resolves_with_text_so_null_branch_is_dead :
  (forall g clock chat text hist,
      exists reply,
        settlement (sendUserMessageToLuna g clock chat text hist)
        = Fulfilled (Some reply) /\ reply <> []) /\
  (forall now text s s1 k,
      handleUserSpeechResult now text s = Awaiting s1 k ->
      takes_no_response_branch k = false /\
      forall s2,
        appPhase (resume k s2) = LUNA_SPEAKING /\
        error (resume k s2) = error s2 /\
        map msg_sender (messages (resume k s2)) = map msg_sender (messages s2) ++ [LUNA]).
Proof.
  split; [exact send_text|].
  intros now text s s1 k H.
  destruct (awaited_promise _ _ _ _ _ H) as (chat & _ & Hp).
  destruct (send_text (gemini s) now chat text (messages s)) as (reply & Hs & Hne).
  rewrite <- Hp in Hs. split.
  - unfold takes_no_response_branch. rewrite Hs.
    destruct reply; [congruence|reflexivity].
  - intros s2. destruct (resume_with_text k s2 reply Hs Hne) as (H1 & H2 & H3).
    repeat split; [exact H1|exact H2|].
    rewrite H3, map_app. reflexivity.
Qed.

Lemma send_resolves_with_text_so_null_branch_is_dead_witness :
  let chat : Chat := fun _ => Settles 250 (Fulfilled {| Gemini.text := None |}) in
  let s := a_state ready_service (Some chat) READY_TO_CHAT false tts_idle in
  match handleUserSpeechResult 0 (lit "hello") s with
  | Awaiting s1 k =>
      takes_no_response_branch k = false /\
      appPhase (resume k s1) = LUNA_SPEAKING /\
      map msg_sender (messages (resume k s1)) = [USER; LUNA]
  | Returned _ => False
  end.
Proof.
  intros chat s.
  destruct (handleUserSpeechResult 0 (lit "hello") s) as [s'|s1 k] eqn:E.
  - vm_compute in E. discriminate E.
  - destruct (proj2 send_resolves_with_text_so_null_branch_is_dead 0%Z (lit "hello") s s1 k E)
      as (Hdead & Hresume).
    destruct (Hresume s1) as (Hphase & _ & Hsenders).
    split; [exact Hdead|]. split; [exact Hphase|].
    rewrite Hsenders.
    assert (Hs1 : map msg_sender (messages s1) = [USER]).
    { vm_compute in E. injection E as <- _. reflexivity. }
    rewrite Hs1. reflexivity.
Defined.

(** C4.  A finalized utterance made of white space only (the empty one
    included) makes the callback return at once: no message is appended,
    the phase stays as it is, and the conversation service client is not
    called, so its state is untouched. *)
Theorem whitespace_utterance_is_dropped now text s :
  blank text = true ->
  exists s',
    handleUserSpeechResult now text s = Returned s' /\
    messages s' = messages s /\
    appPhase s' = appPhase s /\
    gemini s' = gemini s /\
    client_invoked (handleUserSpeechResult now text s) = false /\
    client_calls (handleUserSpeechResult now text s) = [].
Proof.
  intros Hb. unfold handleUserSpeechResult. rewrite truthy_trim, Hb. cbn [negb].
  eexists. repeat split.
Qed.

Lemma whitespace_utterance_is_dropped_witness :
  let text := [32; 9; 160; 10]%N in
  let s := a_state ready_service (Some (fun _ => NeverSettles)) USER_SPEAKING false tts_idle in
  blank text = true /\
  exists s',
    handleUserSpeechResult 0 text s = Returned s' /\
    messages s' = messages s /\
    appPhase s' = appPhase s /\
    gemini s' = gemini s /\
    client_invoked (handleUserSpeechResult 0 text s) = false /\
    client_calls (handleUserSpeechResult 0 text s) = [].
Proof.
  intros text s.
  assert (H : blank text = true) by (vm_compute; reflexivity).
  split; [exact H|].
  exact (whitespace_utterance_is_dropped 0 text s H).
Defined.

(** C6 fails on the code.  [handleUserSpeechResult] speaks the reply unless
    [isMuted], but the flag it tests is the one it closed over before the
    [await].  Mute while the request is pending: the reply is spoken all
    the same.  Output is then playing with the flag set, and of two calls
    of [toggleMute] the first clears the flag and cancels nothing: output
    goes on. *)
Theorem reply_after_muting_is_spoken_and_unmuting_does_not_cancel :
  (forall now text s chat,
     blank text = false ->
     lunaChat s = Some chat ->
     isMuted s = false ->
     Synthesis.isSupported (tts s) = true ->
     Synthesis.isSpeaking (tts s) = false ->
     exists s1 k reply,
       handleUserSpeechResult now text s = Awaiting s1 k /\
       reply <> [] /\
       let muted := toggleMute s1 in
       let answered := resume k muted in
       let started := setTts (Synthesis.onstart (tts answered)) answered in
       isMuted muted = true /\
       isMuted answered = true /\
       Synthesis.queue (tts answered) = Synthesis.queue (tts s) ++ [reply] /\
       isMuted started = true /\
       Synthesis.playing (tts started) = true /\
       isMuted (toggleMute started) = false /\
       tts (toggleMute started) = tts started /\
       Synthesis.playing (tts (toggleMute started)) = true) /\
  (let chat : Chat := fun _ => Settles 900 (Fulfilled {| Gemini.text := Some (lit "Hello") |}) in
   let s0 := a_state ready_service (Some chat) READY_TO_CHAT false tts_idle in
   match handleUserSpeechResult 0 (lit "hi") s0 with
   | Awaiting s1 k =>
       let s2 := toggleMute s1 in
       let s3 := resume k s2 in
       let s4 := setTts (Synthesis.onstart (tts s3)) s3 in
       isMuted s2 = true /\
       isMuted s4 = true /\ Synthesis.playing (tts s4) = true /\
       isMuted (toggleMute s4) = false /\
       Synthesis.playing (tts (toggleMute s4)) = true /\
       Synthesis.queue (tts (toggleMute s4)) = [lit "Hello"]
   | Returned _ => False
   end).
Proof.
  split; [|vm_compute; repeat split].
  intros now text s chat Hb Hc Hm Hsup Hsp.
  destruct (handleUserSpeechResult_with_chat now text s chat Hb Hc)
    as (s1 & Hh & _ & _ & _ & Hm1 & Htts1 & _).
  cbn zeta in Hh.
  destruct (send_text (gemini s) now chat text (messages s)) as (reply & Hs & Hne).
  eexists s1, _, reply. split; [exact Hh|]. split; [exact Hne|].
  cbn zeta. rewrite Hm, Hsup, Hsp.
  assert (Hmuted : toggleMute s1 = setIsMuted true s1).
  { unfold toggleMute. rewrite Hm1, Hm, Htts1, Hsp. reflexivity. }
  rewrite Hmuted.
  unfold resume. cbn [promise startedAt seen_isMuted seen_ttsSupported seen_isSpeaking].
  rewrite Hs. destruct reply as [|c reply]; [congruence|]. cbn [truthy negb andb].
  cbn [tts setLunaStatusText setAppPhase addMessage setMessages setIsMuted].
  unfold Synthesis.speak. rewrite Htts1, Hsup. cbn [negb orb].
  cbn [tts setTts isMuted setLunaStatusText setAppPhase addMessage setMessages setIsMuted
       Synthesis.queue Synthesis.onstart Synthesis.isSupported Synthesis.isSpeaking].
  unfold toggleMute.
  cbn [tts setTts isMuted setLunaStatusText setAppPhase addMessage setMessages setIsMuted
       Synthesis.queue Synthesis.onstart Synthesis.isSupported Synthesis.isSpeaking
       negb andb].
  unfold Synthesis.playing.
  cbn [tts setTts isMuted setIsMuted Synthesis.queue Synthesis.isSpeaking andb].
  repeat split; now destruct (Synthesis.queue (tts s)).
Qed.

(** X15.  Two calls of [toggleMute] in a row restore the flag.  If the flag
    was clear and output was playing at the first call, that call cancels
    the output at once (the queue of the synthesizer is emptied and the
    speaking flag cleared), and the second call starts nothing. *)
Theorem toggleMute_twice s :
  isMuted (toggleMute (toggleMute s)) = isMuted s /\
  (isMuted s = false ->
   Synthesis.isSupported (tts s) = true ->
   Synthesis.playing (tts s) = true ->
   Synthesis.playing (tts (toggleMute s)) = false /\
   Synthesis.queue (tts (toggleMute s)) = [] /\
   isMuted (toggleMute s) = true /\
   tts (toggleMute (toggleMute s)) = tts (toggleMute s)).
Proof.
  split.
  - unfold toggleMute.
    destruct (isMuted s) eqn:Hm; cbn [negb andb];
      repeat (match goal with
              | |- context [if ?b then _ else _] => destruct b
              end; cbn [isMuted setTts setIsMuted tts negb andb]);
      rewrite ?Hm; reflexivity.
  - intros Hm Hsup Hplay. unfold Synthesis.playing in Hplay.
    apply andb_true_iff in Hplay as [Hsp _].
    unfold toggleMute. rewrite Hm, Hsp. cbn [negb andb setTts setIsMuted tts isMuted].
    unfold Synthesis.cancel. rewrite Hsup. cbn. repeat split.
Qed.

Lemma toggleMute_twice_witness :
  let s := a_state ready_service None LUNA_SPEAKING false (tts_speaking (lit "Hello")) in
  (isMuted s = false /\ Synthesis.isSupported (tts s) = true /\
   Synthesis.playing (tts s) = true) /\
  isMuted (toggleMute (toggleMute s)) = isMuted s /\
  Synthesis.playing (tts (toggleMute s)) = false /\
  Synthesis.playing (tts (toggleMute (toggleMute s))) = false.
Proof.
  intros s.
  assert (H1 : isMuted s = false) by reflexivity.
  assert (H2 : Synthesis.isSupported (tts s) = true) by reflexivity.
  assert (H3 : Synthesis.playing (tts s) = true) by reflexivity.
  split; [tauto|].
  destruct (toggleMute_twice s) as [Ha Hb].
  destruct (Hb H1 H2 H3) as (Hp & _ & _ & Htts).
  split; [exact Ha|]. split; [exact Hp|]. rewrite Htts. exact Hp.
Defined.

End ExchangeClaims.

(** ** Endpointing in the recognition hook *)

Section EndpointingClaims.
Import Recognition.

Local Arguments lit : simpl never.
Local Arguments trim : simpl never.

(** A hook whose recognizer is not started and whose timer is not armed
    stays as it is under every event. *)
Lemma step_idle h e :
  engine h = Idle -> speechEndTimeout h = None -> transcriptRef h = transcript h ->
  step h e = h.
Proof.
  destruct h as [l t r f err tm lg en fin]. cbn. intros -> -> ->.
  destruct e as [i rs| | | |er m|ms]; try reflexivity.
  unfold step, render. cbn. now rewrite Bool.eqb_reflx.
Qed.

Lemma run_idle h es :
  engine h = Idle -> speechEndTimeout h = None -> transcriptRef h = transcript h ->
  run h es = h.
Proof.
  intros He Ht Hr. unfold run. induction es as [|e es IH]; [reflexivity|].
  cbn [fold_left]. now rewrite step_idle.
Qed.

(** What [startListening] and the render after it leave, when the hook then
    says that it listens. *)
Lemma listening_after_render start h :
  isListening h = false ->
  isListening (render h (startListening start h)) = true ->
  render h (startListening start h) =
  mkHook true [] [] None None None (lit "hi-IN") Idle (finalized h).
Proof.
  intros Hl. unfold startListening. rewrite Hl.
  destruct h as [l t r f err tm lg en fin]. cbn in Hl. subst l.
  cbn [lang setError clearFinalizedText setTranscriptRef setTranscript
       clearSpeechEndTimeout isListening transcript transcriptRef finalizedText
       error speechEndTimeout engine finalized].
  set (h0 := if _ && _ then _ else _).
  assert (H0 : h0 = mkHook false [] [] None None None (lang h0) en fin).
  { subst h0. now destruct (_ && _). }
  clearbody h0.
  destruct (start (lang h0)) as [[name message]|].
  - destruct (bool_decide (name = lit "NotAllowedError") ||
              bool_decide (name = lit "SecurityError")).
    + destruct (negb (bool_decide (name = lit "InvalidStateError")));
        rewrite H0; unfold render; cbn; discriminate.
    + destruct (bool_decide (name = lit "InvalidStateError") &&
                bool_decide (lang h0 = lit "hi-IN")).
      * destruct (start (lang (setLang (lit "en-US") h0))) as [[name2 message2]|];
          destruct (negb (bool_decide (name = lit "InvalidStateError")));
          rewrite H0; unfold render; cbn; try discriminate; reflexivity.
      * destruct (negb (bool_decide (name = lit "InvalidStateError")));
          rewrite H0; unfold render; cbn; discriminate.
  - rewrite H0. unfold render. cbn. reflexivity.
Qed.

(** From the first render on, the recognizer at hand is never a started
    one: no text is gathered and no finalized event fires. *)
Lemma never_started h :
  reaches initial h ->
  engine h = Idle /\ speechEndTimeout h = None /\
  transcript h = [] /\ transcriptRef h = [] /\
  finalized h = [] /\ finalizedText h = None.
Proof.
  induction 1 as [|h e _ IH|h start _ IH|h _ IH|h _ IH|h _ IH].
  - repeat split.
  - destruct IH as (He & Ht & Htr & Hr & Hf & Hft).
    rewrite step_idle by congruence. repeat split; assumption.
  - destruct IH as (He & Ht & Htr & Hr & Hf & Hft).
    destruct h as [l t r f err tm lg en fin]. cbn in *. subst.
    unfold startListening. cbn [isListening].
    destruct l; [unfold render; cbn; repeat split|].
    cbn [lang setError clearFinalizedText setTranscriptRef setTranscript
         clearSpeechEndTimeout isListening transcript transcriptRef finalizedText
         error speechEndTimeout engine finalized].
    set (h0 := if _ && _ then _ else _).
    assert (H0 : h0 = mkHook false [] [] None None None (lang h0) Idle []).
    { subst h0. now destruct (_ && _). }
    clearbody h0.
    destruct (start (lang h0)) as [[name message]|].
    + destruct (bool_decide (name = lit "InvalidStateError")); cbn [andb negb];
        destruct (bool_decide (name = lit "NotAllowedError") ||
                  bool_decide (name = lit "SecurityError"));
        try (rewrite H0; unfold render; cbn; repeat split; fail).
      destruct (bool_decide (lang h0 = lit "hi-IN"));
        [destruct (start (lang (setLang (lit "en-US") h0))) as [[name2 message2]|]|];
        rewrite H0; unfold render; cbn; repeat split.
    + rewrite H0. unfold render. cbn. repeat split.
  - destruct IH as (He & Ht & Htr & Hr & Hf & Hft).
    destruct h as [l t r f err tm lg en fin]. cbn in *. subst.
    unfold stopListening, stop, render.
    destruct l; cbn; repeat split.
  - destruct IH as (He & Ht & Htr & Hr & Hf & Hft).
    destruct h as [l t r f err tm lg en fin]. cbn in *. subst.
    unfold render. cbn. rewrite Bool.eqb_reflx. repeat split.
  - destruct IH as (He & Ht & Htr & Hr & Hf & Hft).
    destruct h as [l t r f err tm lg en fin]. cbn in *. subst.
    unfold render. cbn. rewrite Bool.eqb_reflx. repeat split.
Qed.

(** C2 fails on the code.  [startListening] starts the recognizer and sets
    [isListening]; the render that follows runs the effect on
    [isListening], which aborts the recognizer just started and puts a new
    one in its place that nothing starts.  From then on the hook says that
    it listens, no event reaches a handler, [stopListening] stops nothing,
    and no finalized event ever fires.  At the input of the claim: the
    updates "I feel" and "I feel tired", the pause and 1.5 s of silence
    leave no finalized event; and if the handlers are run all the same, the
    transcript is gathered and the timer fires, but its [stop] meets the
    recognizer that was never started, so that no [end] follows and nothing
    is finalized. *)
Theorem started_recognizer_is_replaced_and_nothing_is_finalized :
  (forall start h,
     isListening h = false ->
     let h1 := render h (startListening start h) in
     isListening h1 = true ->
     engine h1 = Idle /\
     (forall es, run h1 es = h1) /\
     render h1 (stopListening h1) = h1 /\
     finalized h1 = finalized h) /\
  (forall h,
     reaches initial h ->
     engine h = Idle /\ transcript h = [] /\
     finalized h = [] /\ finalizedText h = None) /\
  (let r1 := Result 0 [lit "I feel"] in
   let r2 := Result 1 [lit "I feel"; lit " tired"] in
   isListening listening = true /\
   engine listening = Idle /\
   finalized (run listening [r1; r2; SpeechEnd; Elapse 1500; End]) = [] /\
   let by_hand :=
     fold_left (fun h e => render h (handle h e)) [r1; r2; SpeechEnd; Elapse 1500]
               listening in
   transcript by_hand = lit "I feel tired" /\
   speechEndTimeout by_hand = None /\
   engine by_hand = Idle /\
   fires by_hand End = false /\
   isListening by_hand = true /\
   finalized by_hand = []).
Proof.
  split; [|split].
  - intros start h Hl h1 Hl1. subst h1.
    rewrite (listening_after_render start h Hl Hl1).
    split; [reflexivity|]. split; [|split; reflexivity].
    intros es. now apply run_idle.
  - intros h Hr. destruct (never_started h Hr) as (He & _ & Ht & _ & Hf & Hft).
    repeat split; assumption.
  - cbn zeta. split; [reflexivity|]. split; [reflexivity|].
    split; [now rewrite run_idle|].
    vm_compute. repeat split.
Qed.

End EndpointingClaims.

(** ** Dates: writing and reading the ISO form *)

Section DateFacts.
Import DateTime.
Local Open Scope Z_scope.

Lemma digit_value_digit d : 0 <= d <= 9 -> digit_value (digit d) = Some d.
Proof.
intros H. unfold digit_value, digit.
assert (E : (48 + Z.to_N d)%N = Z.to_N (48 + d)) by lia.
rewrite E.
replace ((48 <=? Z.to_N (48 + d))%N && (Z.to_N (48 + d) <=? 57)%N) with true.
- f_equal. lia.
- symmetry. apply andb_true_iff. split; apply N.leb_le; lia.
Qed.

Lemma digit_range d : 0 <= d <= 9 -> (48 <= digit d <= 57)%N.
Proof. unfold digit. lia. Qed.

(** Reading back what [pad] wrote. *)
Lemma digits_pad n : forall x acc rest,
  0 <= x < 10 ^ Z.of_nat n ->
  digits n acc (pad n x ++ rest) = Some (acc * 10 ^ Z.of_nat n + x, rest).
Proof.
induction n as [|n IH]; intros x acc rest Hx.
- cbn in *. f_equal. f_equal. lia.
- cbn [pad digits app].
  assert (Hp : 0 < 10 ^ Z.of_nat n) by (apply Z.pow_pos_nonneg; lia).
  assert (Hs : 10 ^ Z.of_nat (S n) = 10 * 10 ^ Z.of_nat n).
  { rewrite Nat2Z.inj_succ, Z.pow_succ_r by lia. reflexivity. }
  rewrite Hs in Hx.
  assert (Hq : 0 <= x / 10 ^ Z.of_nat n <= 9).
  { split; [apply Z.div_pos; lia|].
    assert (x / 10 ^ Z.of_nat n < 10); [|lia].
    apply Z.div_lt_upper_bound; lia. }
  rewrite digit_value_digit by exact Hq.
  rewrite IH by (apply Z.mod_pos_bound; exact Hp).
  f_equal. f_equal. rewrite Hs.
  pose proof (Z.div_mod x (10 ^ Z.of_nat n)) as Hdm. nia.
Qed.

Lemma expect_cons c s : expect c (c :: s) = Some s.
Proof. unfold expect. now rewrite N.eqb_refl. Qed.

Lemma all_from_spec n : forall z f,
  all_from n z f = true -> forall k, z <= k < z + Z.of_nat n -> f k = true.
Proof.
induction n as [|n IH]; intros z f H k Hk; [lia|].
cbn [all_from] in H. apply andb_true_iff in H as [H0 H1].
destruct (Z.eq_dec k z) as [->|Hne]; [exact H0|].
apply (IH (z + 1) f H1). lia.
Qed.

Lemma year_days_ok : all_from 366 0 year_day_ok = true.
Proof. vm_compute. reflexivity. Qed.

(** The year of the era and the day of that year. *)
Lemma year_of_era doe :
  0 <= doe < 146097 ->
  let yoe := (doe - doe / 1460 + doe / 36524 - doe / 146096) / 365 in
  let doy := doe - (365 * yoe + yoe / 4 - yoe / 100) in
  0 <= yoe < 400 /\ 0 <= doy <= 365 /\
  (doy = 365 -> (yoe + 1) mod 4 = 0 /\ ((yoe + 1) mod 100 <> 0 \/ (yoe + 1) mod 400 = 0)).
Proof.
intros H yoe doy. subst doy yoe.
Z.div_mod_to_equations. lia.
Qed.

Lemma days_in_month_common y m : days_in_month 1 m <= days_in_month y m.
Proof.
unfold days_in_month. destruct (m =? 2); [|lia].
change (leap 1) with false. destruct (leap y); lia.
Qed.

Lemma era_day_ok_all doe : 0 <= doe < 146097 -> era_day_ok doe = true.
Proof.
intros H. pose proof (year_of_era doe H) as Hy. cbv zeta in Hy.
unfold era_day_ok, civil_of_doe.
set (yoe := (doe - doe / 1460 + doe / 36524 - doe / 146096) / 365) in *.
set (doy := doe - (365 * yoe + yoe / 4 - yoe / 100)) in *.
destruct Hy as (Hyoe & Hdoy & Hleap).
pose proof (all_from_spec _ _ _ year_days_ok doy) as Hok.
unfold year_day_ok in Hok.
set (mp := (5 * doy + 2) / 153) in *.
set (d := doy - (153 * mp + 2) / 5 + 1) in *.
set (m := if mp <? 10 then mp + 3 else mp - 9) in *.
assert (Hm : (1 <=? m) && (m <=? 12) && (1 <=? d) &&
             ((d <=? days_in_month 1 m) || (m =? 2) && (d =? 29) && (doy =? 365)) &&
             ((153 * (if 2 <? m then m - 3 else m + 9) + 2) / 5 + d - 1 =? doy) = true)
  by (apply Hok; lia).
apply andb_true_iff in Hm as [Hm Hback]. apply andb_true_iff in Hm as [Hm Hor].
apply andb_true_iff in Hm as [Hm Hd1]. apply andb_true_iff in Hm as [Hm1 Hm12].
apply Z.leb_le in Hm1, Hm12, Hd1. apply Z.eqb_eq in Hback.
set (y := if m <=? 2 then yoe + 1 else yoe).
assert (Hdim : d <= days_in_month y m).
{ apply orb_true_iff in Hor as [Hor|Hor].
  - apply Z.leb_le in Hor. pose proof (days_in_month_common y m). lia.
  - apply andb_true_iff in Hor as [Hor H3]. apply andb_true_iff in Hor as [H1 H2].
    apply Z.eqb_eq in H1, H2, H3.
    subst y. rewrite H1. change (2 <=? 2) with true. cbv iota.
    unfold days_in_month. change (2 =? 2) with true. cbv iota.
    destruct (Hleap H3) as [L4 L100]. unfold leap. rewrite L4, H2.
    change (0 =? 0) with true. cbn [andb].
    destruct L100 as [L|L].
    + apply Z.eqb_neq in L. rewrite L. cbn. lia.
    + rewrite L. change (0 =? 0) with true. rewrite orb_true_r. lia. }
assert (Hdays : days_from_civil y m d = doe - 719468).
{ unfold days_from_civil.
  replace (if m <=? 2 then y - 1 else y) with yoe by (subst y; destruct (m <=? 2); lia).
  rewrite Z.div_small, Z.mod_small by lia. rewrite Hback. subst doy. lia. }
repeat (apply andb_true_iff; split); try (apply Z.leb_le); try (apply Z.eqb_eq);
  subst y; try destruct (m <=? 2); try lia.
all: idtac.
Qed.

Lemma leap_shift y e : leap (y + 400 * e) = leap y.
Proof.
unfold leap.
replace ((y + 400 * e) mod 4) with (y mod 4)
  by (replace (y + 400 * e) with (y + (100 * e) * 4) by lia; now rewrite Z.mod_add).
replace ((y + 400 * e) mod 100) with (y mod 100)
  by (replace (y + 400 * e) with (y + (4 * e) * 100) by lia; now rewrite Z.mod_add).
replace ((y + 400 * e) mod 400) with (y mod 400)
  by (replace (y + 400 * e) with (y + e * 400) by lia; now rewrite Z.mod_add).
reflexivity.
Qed.

Lemma days_in_month_shift y e m : days_in_month (y + 400 * e) m = days_in_month y m.
Proof. unfold days_in_month. now rewrite leap_shift. Qed.

Lemma days_from_civil_shift y e m d :
  days_from_civil (y + 400 * e) m d = days_from_civil y m d + 146097 * e.
Proof.
unfold days_from_civil.
set (y1 := if m <=? 2 then y - 1 else y).
replace (if m <=? 2 then y + 400 * e - 1 else y + 400 * e) with (y1 + e * 400)
  by (subst y1; destruct (m <=? 2); lia).
rewrite Z.div_add, Z.mod_add by lia. lia.
Qed.

(** The calendar date of any day number is a valid date, and the day number
    is recovered from it. *)
Lemma civil_from_days_ok z :
  let '(y, m, d) := civil_from_days z in
  1 <= m <= 12 /\ 1 <= d <= days_in_month y m /\ days_from_civil y m d = z /\
  400 * ((z + 719468) / 146097) <= y <= 400 * ((z + 719468) / 146097) + 400.
Proof.
unfold civil_from_days.
set (z' := z + 719468).
assert (Hdoe : 0 <= z' mod 146097 < 146097) by (apply Z.mod_pos_bound; lia).
pose proof (era_day_ok_all (z' mod 146097)) as Hok.
unfold era_day_ok in Hok.
destruct (civil_of_doe (z' mod 146097)) as [[y0 m] d].
rewrite days_in_month_shift, days_from_civil_shift.
assert (H : (0 <=? y0) && (y0 <=? 400) && (1 <=? m) && (m <=? 12) && (1 <=? d) &&
            (d <=? days_in_month y0 m) &&
            (days_from_civil y0 m d =? z' mod 146097 - 719468) = true)
  by (apply Hok; lia).
repeat (apply andb_true_iff in H as [H ?]).
pose proof (Z.div_mod z' 146097). subst z'. lia.
Qed.

Lemma year_of_plain y rest :
  0 <= y <= 9999 -> year_of (pad 4 y ++ rest) = Some (y, rest).
Proof.
intros Hy.
pose proof (digits_pad 4 y 0 rest) as Hd.
change (pad 4 y) with (digit (y / 10 ^ 3) :: pad 3 (y mod 10 ^ 3)) in *.
cbn [app] in *. unfold year_of.
assert (Hq : 0 <= y / 10 ^ 3 <= 9).
{ split; [apply Z.div_pos; lia|].
  assert (y / 10 ^ 3 < 10); [|lia]. apply Z.div_lt_upper_bound; lia. }
pose proof (digit_range _ Hq) as Hr.
replace (digit (y / 10 ^ 3) =? 43)%N with false by (symmetry; apply N.eqb_neq; lia).
replace (digit (y / 10 ^ 3) =? 45)%N with false by (symmetry; apply N.eqb_neq; lia).
rewrite Hd by (cbn; lia). f_equal.
Qed.

Lemma year_of_signed y rest :
  - 999999 <= y <= 999999 -> ~ (0 <= y <= 9999) ->
  year_of ((if y <? 0 then 45%N else 43%N) :: pad 6 (Z.abs y) ++ rest) = Some (y, rest).
Proof.
intros Hy Hn. unfold year_of.
destruct (y <? 0) eqn:E.
- apply Z.ltb_lt in E. cbn [N.eqb Pos.eqb].
  rewrite digits_pad by (cbn; lia).
  replace (0 * 10 ^ Z.of_nat 6 + Z.abs y =? 0) with false
    by (symmetry; apply Z.eqb_neq; lia).
  f_equal. f_equal. lia.
- apply Z.ltb_ge in E. cbn [N.eqb Pos.eqb].
  rewrite digits_pad by (cbn; lia). f_equal. f_equal. lia.
Qed.

(** [Date.parse] reads back every string that [toISOString] writes for a
    valid time value. *)
Lemma parse_toISOString t :
  - MAX_TIME <= t <= MAX_TIME -> parse (toISOString t) = Some t.
Proof.
intros Ht.
assert (Hclip : TimeClip t = Some t).
{ unfold TimeClip.
  replace ((- MAX_TIME <=? t) && (t <=? MAX_TIME)) with true; [reflexivity|].
  symmetry. apply andb_true_iff. split; apply Z.leb_le; lia. }
unfold MAX_TIME in Ht. unfold toISOString.
pose proof (civil_from_days_ok (t / msPerDay)) as Hc.
destruct (civil_from_days (t / msPerDay)) as [[y m] d].
destruct Hc as (Hm & Hd & Hdays & Hy).
assert (Hday : - 100000000 <= t / msPerDay <= 100000000).
{ unfold msPerDay. split.
  - apply Z.div_le_lower_bound; lia.
  - apply Z.div_le_upper_bound; lia. }
assert (Hera : - 680 <= (t / msPerDay + 719468) / 146097 <= 690).
{ split.
  - apply Z.div_le_lower_bound; lia.
  - apply Z.div_le_upper_bound; lia. }
assert (Hms : 0 <= t mod msPerDay < 86400000) by (apply Z.mod_pos_bound; reflexivity).
set (ms := t mod msPerDay) in *.
assert (Hdim : days_in_month y m <= 31).
{ unfold days_in_month.
  destruct (m =? 2); [destruct (leap y); lia|].
  destruct ((m =? 4) || (m =? 6) || (m =? 9) || (m =? 11)); lia. }
assert (Hyear : forall rest,
  year_of ((if (0 <=? y) && (y <=? 9999) then pad 4 y
            else (if y <? 0 then 45%N else 43%N) :: pad 6 (Z.abs y)) ++ rest)
  = Some (y, rest)).
{ intros rest. destruct ((0 <=? y) && (y <=? 9999)) eqn:E.
  - apply andb_true_iff in E as [E1 E2]. apply Z.leb_le in E1, E2.
    apply year_of_plain. lia.
  - cbn [app]. apply year_of_signed; [lia|].
    intros [E1 E2]. apply Z.leb_le in E1, E2. rewrite E1, E2 in E. discriminate. }
unfold parse. rewrite Hyear. cbn [mbind option_bind app].
rewrite expect_cons. cbn [mbind option_bind].
rewrite digits_pad by (cbn; lia). cbn [mbind option_bind].
rewrite expect_cons. cbn [mbind option_bind].
rewrite digits_pad by (cbn; lia). cbn [mbind option_bind].
rewrite expect_cons. cbn [mbind option_bind].
assert (Hh : 0 <= ms / 3600000 < 24).
{ split; [apply Z.div_pos; lia|apply Z.div_lt_upper_bound; lia]. }
rewrite digits_pad by (cbn; lia). cbn [mbind option_bind].
rewrite expect_cons. cbn [mbind option_bind].
rewrite digits_pad by (cbn; pose proof (Z.mod_pos_bound (ms / 60000) 60); lia).
cbn [mbind option_bind].
rewrite expect_cons. cbn [mbind option_bind].
rewrite digits_pad by (cbn; pose proof (Z.mod_pos_bound (ms / 1000) 60); lia).
cbn [mbind option_bind].
rewrite expect_cons. cbn [mbind option_bind].
rewrite digits_pad by (cbn; pose proof (Z.mod_pos_bound ms 1000); lia).
cbn [mbind option_bind].
rewrite expect_cons. cbn [mbind option_bind].
change (10 ^ Z.of_nat 2) with 100. change (10 ^ Z.of_nat 3) with 1000.
rewrite !Z.mul_0_l, !Z.add_0_l.
pose proof (Z.mod_pos_bound (ms / 60000) 60).
pose proof (Z.mod_pos_bound (ms / 1000) 60).
replace ((1 <=? m) && (m <=? 12) && (1 <=? d) && (d <=? days_in_month y m) &&
         ((ms / 3600000 <? 24) ||
          (ms / 3600000 =? 24) && (ms / 60000 mod 60 =? 0) &&
          (ms / 1000 mod 60 =? 0) && (ms mod 1000 =? 0)) &&
         (ms / 60000 mod 60 <? 60) && (ms / 1000 mod 60 <? 60)) with true.
2:{ symmetry.
    repeat (apply andb_true_iff; split); try (apply Z.leb_le; lia);
      try (apply Z.ltb_lt; lia).
    apply orb_true_iff. left. apply Z.ltb_lt. lia. }
rewrite Hdays.
replace (t / msPerDay * msPerDay + ms / 3600000 * 3600000 + ms / 60000 mod 60 * 60000
         + ms / 1000 mod 60 * 1000 + ms mod 1000) with t.
- exact Hclip.
- pose proof (Z.div_mod t msPerDay). subst ms. unfold msPerDay in *.
  set (r := t mod 86400000) in *.
  pose proof (Z.div_mod r 3600000). pose proof (Z.div_mod r 60000).
  pose proof (Z.div_mod r 1000).
  pose proof (Z.div_mod (r / 60000) 60). pose proof (Z.div_mod (r / 1000) 60).
  assert (r / 60000 / 60 = r / 3600000) by (rewrite Z.div_div by lia; reflexivity).
  assert (r / 1000 / 60 = r / 60000) by (rewrite Z.div_div by lia; reflexivity).
  pose proof (Z.mod_pos_bound r 1000). pose proof (Z.mod_pos_bound r 60000).
  assert (r mod 60000 = (r / 1000) mod 60 * 1000 + r mod 1000).
  { pose proof (Z.mod_pos_bound r 60000). lia. }
  lia.
Qed.

End DateFacts.

(** ** JSON: reading back what was written *)

Section JSONFacts.
Import JSON.

Lemma hex_value_hex_digit d : (d < 16)%N -> hex_value (hex_digit d) = Some d.
Proof.
intros Hd. unfold hex_digit, hex_value.
destruct (N.ltb_spec d 10).
- replace ((48 <=? 48 + d) && (48 + d <=? 57))%N with true.
  + f_equal. lia.
  + symmetry. apply andb_true_iff. split; apply N.leb_le; lia.
- replace ((48 <=? 87 + d) && (87 + d <=? 57))%N with false.
  + replace ((97 <=? 87 + d) && (87 + d <=? 102))%N with true.
    * f_equal. lia.
    * symmetry. apply andb_true_iff. split; apply N.leb_le; lia.
  + symmetry. apply andb_false_iff. right. apply N.leb_gt. lia.
Qed.

Lemma string_body_unicode_escape c x :
  (c < 65536)%N ->
  string_body (unicode_escape c ++ x) = prepend c (string_body x).
Proof.
intros Hc. unfold unicode_escape. cbn [app].
assert (H1 : (c / 4096 < 16)%N) by (apply N.Div0.div_lt_upper_bound; lia).
assert (H2 : (c / 256 mod 16 < 16)%N) by (apply N.mod_lt; lia).
assert (H3 : (c / 16 mod 16 < 16)%N) by (apply N.mod_lt; lia).
assert (H4 : (c mod 16 < 16)%N) by (apply N.mod_lt; lia).
cbn [string_body N.eqb Pos.eqb].
rewrite !hex_value_hex_digit by assumption.
replace (((c / 4096 * 16 + c / 256 mod 16) * 16 + c / 16 mod 16) * 16 + c mod 16)%N with c.
- unfold prepend. reflexivity.
- pose proof (N.div_mod c 16). pose proof (N.div_mod (c / 16) 16).
  pose proof (N.div_mod (c / 256) 16).
  assert (c / 16 / 16 = c / 256)%N by (rewrite N.Div0.div_div; reflexivity).
  assert (c / 256 / 16 = c / 4096)%N by (rewrite N.Div0.div_div; reflexivity).
  lia.
Qed.

Lemma string_body_literal c x :
  c <> 34%N -> c <> 92%N -> (32 <= c)%N ->
  string_body (c :: x) = prepend c (string_body x).
Proof.
intros H1 H2 H3. cbn [string_body].
replace (c =? 34)%N with false by (symmetry; apply N.eqb_neq; exact H1).
replace (c =? 92)%N with false by (symmetry; apply N.eqb_neq; exact H2).
replace (c <? 32)%N with false by (symmetry; apply N.ltb_ge; exact H3).
reflexivity.
Qed.

Lemma string_body_quote_unit c x :
  string_body (quote_unit c ++ x) = prepend c (string_body x).
Proof.
unfold quote_unit.
destruct (N.eqb_spec c 8) as [->|H8]; [reflexivity|].
destruct (N.eqb_spec c 9) as [->|H9]; [reflexivity|].
destruct (N.eqb_spec c 10) as [->|H10]; [reflexivity|].
destruct (N.eqb_spec c 12) as [->|H12]; [reflexivity|].
destruct (N.eqb_spec c 13) as [->|H13]; [reflexivity|].
destruct (N.eqb_spec c 34) as [->|H34]; [reflexivity|].
destruct (N.eqb_spec c 92) as [->|H92]; [reflexivity|].
destruct ((c <? 32)%N || is_high_surrogate c || is_low_surrogate c) eqn:E.
- apply string_body_unicode_escape.
  unfold is_high_surrogate, is_low_surrogate in E.
  apply orb_true_iff in E as [E|E]; [apply orb_true_iff in E as [E|E]|].
  + apply N.ltb_lt in E. lia.
  + apply andb_true_iff in E as [_ E]. apply N.leb_le in E. lia.
  + apply andb_true_iff in E as [_ E]. apply N.leb_le in E. lia.
- apply orb_false_iff in E as [E _]. apply orb_false_iff in E as [E _].
  apply N.ltb_ge in E. cbn [app]. now apply string_body_literal.
Qed.

Lemma string_body_surrogate c x :
  is_high_surrogate c = true \/ is_low_surrogate c = true ->
  string_body (c :: x) = prepend c (string_body x).
Proof.
unfold is_high_surrogate, is_low_surrogate. intros H.
assert (55296 <= c)%N.
{ destruct H as [H|H]; apply andb_true_iff in H as [H _]; apply N.leb_le in H; lia. }
apply string_body_literal; lia.
Qed.

(** A quoted string is read back as it was, up to its closing quote. *)
Lemma string_body_quote_units_n n : forall s rest,
  length s <= n -> string_body (quote_units s ++ 34%N :: rest) = Some (s, rest).
Proof.
induction n as [|n IH]; intros s rest Hlen.
- destruct s; [reflexivity|cbn in Hlen; lia].
- destruct s as [|c r]; [reflexivity|].
  destruct r as [|d r'].
  + cbn [quote_units]. rewrite string_body_quote_unit. reflexivity.
  + change (quote_units (c :: d :: r')) with
      (if is_high_surrogate c && is_low_surrogate d
       then c :: quote_low (d :: r')
       else quote_unit c ++ quote_units (d :: r')).
    destruct (is_high_surrogate c && is_low_surrogate d) eqn:E.
    * apply andb_true_iff in E as [Ec Ed].
      change (quote_low (d :: r')) with (d :: quote_units r'). cbn [app].
      rewrite string_body_surrogate by (left; exact Ec).
      rewrite string_body_surrogate by (right; exact Ed).
      rewrite IH by (cbn in Hlen; lia). reflexivity.
    * rewrite <- app_assoc, string_body_quote_unit.
      rewrite IH by (cbn in Hlen |- *; lia). reflexivity.
Qed.

Lemma string_body_quote s rest :
  string_body (quote_units s ++ 34%N :: rest) = Some (s, rest).
Proof. now apply (string_body_quote_units_n (length s)). Qed.

Lemma eqb_eq (a b : jsstring) : JS.eqb a b = true <-> a = b.
Proof.
revert b. induction a as [|x a IH]; intros [|y b]; cbn; try (split; congruence).
rewrite andb_true_iff, N.eqb_eq, IH. split; [intros [-> ->]; reflexivity|].
intros H. injection H as -> ->. tauto.
Qed.

Lemma eqb_refl (a : jsstring) : JS.eqb a a = true.
Proof. now apply eqb_eq. Qed.

(** Induction over values, through the lists they contain. *)
Lemma value_ind_nested (P : value -> Prop) :
  P VNull -> (forall b, P (VBool b)) -> (forall s, P (VString s)) ->
  (forall d, P (VDate d)) ->
  (forall l, Forall P l -> P (VArray l)) ->
  (forall props, Forall (fun p => P (snd p)) props -> P (VObject props)) ->
  forall v, P v.
Proof.
intros Hn Hb Hs Hd Ha Ho. fix IH 1. intros [|b|s|d|l|props].
- exact Hn.
- apply Hb.
- apply Hs.
- apply Hd.
- apply Ha. induction l as [|x l IHl]; constructor; [apply IH|exact IHl].
- apply Ho. induction props as [|[k x] props IHp]; constructor; [apply IH|exact IHp].
Qed.

Lemma set_fresh k v props :
  existsb (JS.eqb k) (map fst props) = false -> JSON.set k v props = props ++ [(k, v)].
Proof.
induction props as [|[k' v'] props IH]; intros H; [reflexivity|].
cbn in H. apply orb_false_iff in H as [H1 H2].
cbn [JSON.set app].
destruct (JS.eqb k' k) eqn:E.
- apply eqb_eq in E. subst k'. rewrite eqb_refl in H1. discriminate.
- now rewrite IH.
Qed.

Lemma existsb_eqb_app k (a b : list jsstring) :
  existsb (JS.eqb k) (a ++ b) = existsb (JS.eqb k) a || existsb (JS.eqb k) b.
Proof. apply existsb_app. Qed.

Lemma build_from acc members :
  distinct (map fst acc ++ map fst members) = true ->
  fold_left (fun o p => JSON.set (fst p) (snd p) o) members acc = acc ++ members.
Proof.
revert acc. induction members as [|[k v] members IH]; intros acc H.
- cbn. now rewrite app_nil_r.
- cbn [fold_left fst snd].
  assert (Hk : existsb (JS.eqb k) (map fst acc) = false).
  { clear IH. induction acc as [|[k' v'] acc IHa]; [reflexivity|].
    cbn in H. apply andb_true_iff in H as [H1 H2].
    cbn. rewrite (IHa H2), orb_false_r.
    rewrite existsb_app in H1. cbn in H1.
    apply negb_true_iff in H1. apply orb_false_iff in H1 as [_ H1].
    apply orb_false_iff in H1 as [H1 _].
    destruct (JS.eqb k k') eqn:E; [|reflexivity].
    apply eqb_eq in E. subst k'. rewrite eqb_refl in H1. discriminate. }
  rewrite set_fresh by exact Hk.
  rewrite IH.
  + now rewrite <- app_assoc.
  + rewrite map_app. cbn [map fst]. rewrite <- app_assoc. exact H.
Qed.

Lemma build_distinct members :
  distinct (map fst members) = true -> build members = members.
Proof. intros H. unfold build. now rewrite build_from. Qed.

(** The text of a value is not empty and does not begin with a closing
    bracket. *)
Lemma stringify_head v :
  exists c r, stringify v = c :: r /\ c <> 93%N /\ c <> 125%N.
Proof.
destruct v as [|[|]|s|[t|]|l|props]; cbn; eexists _, _;
  (split; [reflexivity|split; discriminate]).
Qed.

Lemma stringify_length v : 1 <= length (stringify v).
Proof. destruct (stringify_head v) as (c & r & -> & _). cbn. lia. Qed.

Lemma join_cons2 (x y : jsstring) l : join (x :: y :: l) = x ++ 44%N :: join (y :: l).
Proof. reflexivity. Qed.

Lemma parse_value_array f c r :
  c <> 93%N ->
  parse_value (S f) (91%N :: c :: r) =
  match parse_elements f (c :: r) with
  | Some (l, rest) => Some (VArray l, rest)
  | None => None
  end.
Proof.
intros H. cbn [parse_value N.eqb Pos.eqb].
now replace (c =? 93)%N with false by (symmetry; apply N.eqb_neq; exact H).
Qed.

Lemma parse_value_object f r :
  parse_value (S f) (123%N :: 34%N :: r) =
  match parse_members f (34%N :: r) with
  | Some (l, rest) => Some (VObject (build l), rest)
  | None => None
  end.
Proof. reflexivity. Qed.

Lemma parse_elements_step f s :
  parse_elements (S f) s =
  match parse_value f s with
  | Some (v, c :: r) =>
      if (c =? 44)%N then
        match parse_elements f r with
        | Some (l, rest) => Some (v :: l, rest)
        | None => None
        end
      else if (c =? 93)%N then Some ([v], r)
      else None
  | _ => None
  end.
Proof. reflexivity. Qed.

Lemma parse_members_step f r :
  parse_members (S f) (34%N :: r) =
  match string_body r with
  | Some (k, colon :: r1) =>
      if (colon =? 58)%N then
        match parse_value f r1 with
        | Some (v, c :: r2) =>
            if (c =? 44)%N then
              match parse_members f r2 with
              | Some (l, rest) => Some ((k, v) :: l, rest)
              | None => None
              end
            else if (c =? 125)%N then Some ([(k, v)], r2)
            else None
        | _ => None
        end
      else None
  | _ => None
  end.
Proof. reflexivity. Qed.

Lemma elements_read_back l :
  l <> [] -> Forall reads_back l -> forallb well_formed l = true ->
  forall fuel rest,
    length (join (map stringify l)) + 1 < fuel ->
    parse_elements fuel (join (map stringify l) ++ 93%N :: rest)
    = Some (map plain l, rest).
Proof.
induction l as [|x l IH]; [congruence|].
intros _ Hall Hwf fuel rest Hfuel.
apply Forall_cons in Hall as [Hx Hl].
cbn [forallb] in Hwf. apply andb_true_iff in Hwf as [Hwx Hwl].
destruct fuel as [|f]; [lia|].
rewrite parse_elements_step.
destruct l as [|y l].
- cbn [map join] in *.
  rewrite (Hx Hwx) by lia. reflexivity.
- cbn [map] in *. rewrite join_cons2 in *.
  rewrite length_app in Hfuel. cbn [length] in Hfuel.
  pose proof (stringify_length x).
  rewrite <- app_assoc. cbn [app].
  rewrite (Hx Hwx) by lia. cbn [N.eqb Pos.eqb].
  rewrite IH; [reflexivity|discriminate|exact Hl|exact Hwl|lia].
Qed.

Lemma members_read_back props :
  props <> [] ->
  Forall (fun p => reads_back (snd p)) props ->
  forallb (fun p => well_formed (snd p)) props = true ->
  forall fuel rest,
    length (join (map member props)) + 1 < fuel ->
    parse_members fuel (join (map member props) ++ 125%N :: rest)
    = Some (map (fun p => (fst p, plain (snd p))) props, rest).
Proof.
induction props as [|[k x] props IH]; [congruence|].
intros _ Hall Hwf fuel rest Hfuel.
apply Forall_cons in Hall as [Hx Hl]. cbn [snd] in Hx.
cbn [forallb snd] in Hwf. apply andb_true_iff in Hwf as [Hwx Hwl].
destruct fuel as [|f]; [lia|].
assert (Hm : forall tail, member (k, x) ++ tail
                          = 34%N :: quote_units k ++ 34%N :: 58%N :: stringify x ++ tail).
{ intros tail. unfold member, quote. cbn [fst snd].
  rewrite <- !app_assoc. reflexivity. }
assert (Hlen : length (stringify x) + 3 <= length (member (k, x))).
{ unfold member, quote. cbn [fst snd]. rewrite !length_app. cbn [length]. lia. }
destruct props as [|q props].
- cbn [map join] in *. rewrite Hm, parse_members_step, string_body_quote.
  cbn [N.eqb Pos.eqb]. rewrite (Hx Hwx) by lia. reflexivity.
- cbn [map] in *. rewrite join_cons2 in *.
  rewrite length_app in Hfuel. cbn [length] in Hfuel.
  rewrite <- app_assoc, Hm, parse_members_step, string_body_quote.
  cbn [N.eqb Pos.eqb app]. rewrite (Hx Hwx) by lia. cbn [N.eqb Pos.eqb].
  rewrite IH; [reflexivity|discriminate|exact Hl|exact Hwl|lia].
Qed.

Lemma join_members_head props :
  props <> [] -> exists r, join (map member props) = 34%N :: r.
Proof.
destruct props as [|[k x] [|q props]]; [congruence| |]; intros _.
- cbn. eexists. reflexivity.
- cbn [map]. rewrite join_cons2. unfold member at 1, quote. cbn. eexists. reflexivity.
Qed.

Lemma join_elements_head l :
  l <> [] -> exists c r, join (map stringify l) = c :: r /\ c <> 93%N.
Proof.
destruct l as [|x [|y l]]; [congruence| |]; intros _.
- cbn. destruct (stringify_head x) as (c & r & -> & H & _). now exists c, r.
- cbn [map]. rewrite join_cons2.
  destruct (stringify_head x) as (c & r & -> & H & _). cbn. now eexists _, _.
Qed.

Lemma distinct_plain_keys props :
  map fst (map (fun p : jsstring * value => (fst p, plain (snd p))) props) = map fst props.
Proof. rewrite map_map. reflexivity. Qed.

Lemma parse_value_stringify v : reads_back v.
Proof.
induction v as [|b|s|d|l IHl|props IHp] using value_ind_nested;
  intros Hwf fuel rest Hfuel; (destruct fuel as [|f]; [lia|]).
- vm_compute. reflexivity.
- destruct b; vm_compute; reflexivity.
- cbn [stringify plain]. unfold quote. rewrite <- !app_assoc. cbn [app].
  cbn [parse_value N.eqb Pos.eqb]. now rewrite string_body_quote.
- destruct d as [t|]; [|vm_compute; reflexivity].
  cbn [stringify plain]. unfold quote. rewrite <- !app_assoc. cbn [app].
  cbn [parse_value N.eqb Pos.eqb]. now rewrite string_body_quote.
- destruct l as [|x l]; [reflexivity|].
  cbn [stringify plain] in *. rewrite <- !app_assoc. cbn [app] in *.
  cbn [length] in Hfuel. rewrite length_app in Hfuel. cbn [length] in Hfuel.
  destruct (join_elements_head (x :: l)) as (c & r & E & Hc); [discriminate|].
  pose proof (elements_read_back (x :: l)) as He.
  rewrite E in *. cbn [app].
  rewrite parse_value_array by exact Hc.
  change (c :: r ++ 93%N :: rest) with ((c :: r) ++ 93%N :: rest).
  rewrite He; [reflexivity|discriminate|exact IHl|exact Hwf|].
  lia.
- destruct props as [|p props]; [reflexivity|].
  cbn [stringify plain well_formed] in *.
  apply andb_true_iff in Hwf as [Hd Hwf].
  fold member in *.
  rewrite <- !app_assoc. cbn [app] in *.
  cbn [length] in Hfuel. rewrite length_app in Hfuel. cbn [length] in Hfuel.
  destruct (join_members_head (p :: props)) as (r & E); [discriminate|].
  pose proof (members_read_back (p :: props)) as He.
  rewrite E in *. cbn [app].
  rewrite parse_value_object.
  change (34%N :: r ++ 125%N :: rest) with ((34%N :: r) ++ 125%N :: rest).
  rewrite He; [|discriminate|exact IHp|exact Hwf|].
  + rewrite build_distinct; [reflexivity|].
    now rewrite distinct_plain_keys.
  + lia.
Qed.

(** [JSON.parse(JSON.stringify(v))] is the plain form of [v]. *)
Lemma parse_stringify v :
  well_formed v = true -> JSON.parse (stringify v) = Some (plain v).
Proof.
intros Hwf. unfold JSON.parse.
pose proof (parse_value_stringify v Hwf (S (length (stringify v))) []) as H.
rewrite app_nil_r in H. rewrite H by lia. reflexivity.
Qed.

End JSONFacts.


(** ** The session store *)

Section StorageClaims.
Import JSON Storage.

Lemma get_timestamp vi vs vt vts extra :
  JSON.get (lit "timestamp")
    ([(lit "id", vi); (lit "sender", vs); (lit "text", vt); (lit "timestamp", vts)] ++ extra)
  = Some vts.
Proof. vm_compute. reflexivity. Qed.

Lemma set_timestamp vi vs vt vts v extra :
  JSON.set (lit "timestamp") v
    ([(lit "id", vi); (lit "sender", vs); (lit "text", vt); (lit "timestamp", vts)] ++ extra)
  = [(lit "id", vi); (lit "sender", vs); (lit "text", vt); (lit "timestamp", v)] ++ extra.
Proof. vm_compute. reflexivity. Qed.

Lemma object_of_message_well_formed msg : well_formed (object_of_message msg) = true.
Proof. destruct msg as [i s t d [u|]]; vm_compute; reflexivity. Qed.

Lemma history_well_formed m : well_formed (VArray (map object_of_message m)) = true.
Proof.
cbn [well_formed]. induction m as [|msg m IH]; [reflexivity|].
cbn [map forallb]. now rewrite object_of_message_well_formed, IH.
Qed.

(** A message with a valid timestamp comes back as it was: the timestamp is
    written as its ISO string and [new Date] of that string is the same
    instant. *)
Lemma revive_plain msg :
  DateTime.valid (msg_timestamp msg) = true ->
  revive (plain (object_of_message msg)) = Some (object_of_message msg).
Proof.
destruct msg as [i s t [d|] u]; cbn [msg_timestamp DateTime.valid]; [|discriminate].
intros Hv. apply andb_true_iff in Hv as [H1 H2]. apply Z.leb_le in H1, H2.
unfold object_of_message.
cbn [msg_id msg_sender msg_text msg_timestamp msg_audioUrl plain map app fst snd].
set (extra := match u with Some url => [(lit "audioUrl", VString url)] | None => [] end).
assert (He : map (fun p : jsstring * value => (fst p, plain (snd p))) extra = extra)
  by (subst extra; now destruct u).
rewrite He.
change ((lit "id", VString i) :: (lit "sender", VString (sender_value s))
        :: (lit "text", VString t)
        :: (lit "timestamp", VString (DateTime.toISOString d)) :: extra)
  with ([(lit "id", VString i); (lit "sender", VString (sender_value s));
         (lit "text", VString t);
         (lit "timestamp", VString (DateTime.toISOString d))] ++ extra).
unfold revive, spread.
rewrite get_timestamp, set_timestamp. unfold new_Date.
now rewrite parse_toISOString.
Qed.

Lemma revive_history m :
  Forall (fun msg => DateTime.valid (msg_timestamp msg) = true) m ->
  mapM revive (map plain (map object_of_message m)) = Some (map object_of_message m).
Proof.
induction 1 as [|msg m Hmsg _ IH]; [reflexivity|].
cbn [map mapM]. rewrite revive_plain by exact Hmsg. cbn [mbind option_bind].
rewrite IH. reflexivity.
Qed.

Lemma history_text_truthy m : truthy (history_text m) = true.
Proof. reflexivity. Qed.

(** C7, as stated, fails.  Under the empty identity nothing is written and
    nothing is read.  A timestamp that is the Invalid Date is written as
    [null] and comes back as the epoch.  When the store has no room the
    write is dropped and nothing is read. *)
Lemma history_does_not_always_come_back :
  loadChatHistory [] (saveChatHistory [] sample_history empty_storage) = None /\
  loadChatHistory (lit "river")
    (saveChatHistory (lit "river") [undated_message] empty_storage)
  = Some [VObject [(lit "id", VString (lit "1")); (lit "sender", VString (lit "user"));
                   (lit "text", VString (lit "a")); (lit "timestamp", VDate (Some 0%Z))]] /\
  loadChatHistory (lit "river")
    (saveChatHistory (lit "river") sample_history (mkStorage ∅ 50)) = None.
Proof. vm_compute. repeat split. Qed.

(** C7, amended.  For a non-empty identity and messages whose timestamps are
    valid dates, when the store accepts the write, [loadChatHistory] after
    [saveChatHistory] returns the messages in order, each with its id,
    sender, text and optional audio URL, and with a [Date] of the same time
    value. *)
Theorem saved_history_loads_back id m st :
  id <> [] ->
  Forall (fun msg => DateTime.valid (msg_timestamp msg) = true) m ->
  accepts (CHAT_HISTORY_PREFIX ++ id) (history_text m) st = true ->
  loadChatHistory id (saveChatHistory id m st) = Some (map object_of_message m).
Proof.
intros Hid Hvalid Hroom.
unfold loadChatHistory, saveChatHistory, setItem, getItem.
destruct id as [|c id]; [congruence|]. cbn [truthy negb].
rewrite Hroom. cbn [items].
rewrite lookup_insert_eq, history_text_truthy.
unfold history_text. rewrite parse_stringify by apply history_well_formed.
cbn [plain]. now apply revive_history.
Qed.

Lemma saved_history_loads_back_witness :
  (lit "river" <> [] /\
   Forall (fun msg => DateTime.valid (msg_timestamp msg) = true) sample_history /\
   accepts (CHAT_HISTORY_PREFIX ++ lit "river") (history_text sample_history)
           empty_storage = true) /\
  loadChatHistory (lit "river") (saveChatHistory (lit "river") sample_history empty_storage)
  = Some (map object_of_message sample_history).
Proof.
assert (H1 : lit "river" <> []) by discriminate.
assert (H2 : Forall (fun msg => DateTime.valid (msg_timestamp msg) = true) sample_history)
  by (repeat constructor).
assert (H3 : accepts (CHAT_HISTORY_PREFIX ++ lit "river") (history_text sample_history)
                     empty_storage = true) by (vm_compute; reflexivity).
split; [tauto|].
exact (saved_history_loads_back (lit "river") sample_history empty_storage H1 H2 H3).
Defined.

End StorageClaims.

(** ** More facts about strings *)

Section MoreStringFacts.

Lemma trimStart_idem (s : jsstring) : trimStart (trimStart s) = trimStart s.
Proof.
  induction s as [|c s IH]; [reflexivity|].
  simpl. destruct (is_whitespace c) eqn:Hc; [exact IH|].
  simpl. now rewrite Hc.
Qed.

(** [trimStart] removes a blank prefix. *)
Lemma trimStart_split (s : jsstring) :
  exists p, s = p ++ trimStart s /\ blank p = true.
Proof.
  induction s as [|c s [p [Hs Hp]]]; [now exists []|].
  simpl. destruct (is_whitespace c) eqn:Hc.
  - exists (c :: p). split; [simpl; congruence|]. simpl. now rewrite Hc.
  - now exists [].
Qed.

(** [trimEnd] removes a blank suffix. *)
Lemma trimEnd_split (s : jsstring) :
  exists q, s = trimEnd s ++ q /\ blank q = true.
Proof.
  destruct (trimStart_split (rev s)) as [p [Hs Hp]].
  exists (rev p). split; [|now rewrite blank_rev].
  unfold trimEnd. rewrite <- rev_app_distr, <- Hs. now rewrite rev_involutive.
Qed.

Lemma trimEnd_idem (s : jsstring) : trimEnd (trimEnd s) = trimEnd s.
Proof.
  unfold trimEnd. now rewrite rev_involutive, trimStart_idem.
Qed.

(** What [trimStart] leaves is not touched at its head by [trimEnd]. *)
Lemma trimStart_trimEnd (s : jsstring) :
  trimStart (trimEnd (trimStart s)) = trimEnd (trimStart s).
Proof.
  destruct (trimEnd_split (trimStart s)) as [q [Hs Hq]].
  destruct (trimEnd (trimStart s)) as [|c u] eqn:E; [reflexivity|].
  assert (Hc : is_whitespace c = false).
  { destruct (trimStart_split s) as [p [Hp _]].
    destruct (is_whitespace c) eqn:Hc; [|reflexivity].
    assert (Hi : trimStart (trimStart s) = trimStart s) by apply trimStart_idem.
    rewrite Hs in Hi at 1. simpl in Hi. rewrite Hc in Hi.
    assert (Hlen : length (trimStart (u ++ q)) <= length (u ++ q)).
    { clear. induction (u ++ q) as [|x l IH]; simpl; [lia|].
      destruct (is_whitespace x); simpl; lia. }
    rewrite Hi, Hs in Hlen. simpl in Hlen. lia. }
  simpl. now rewrite Hc.
Qed.

Lemma trim_idem (s : jsstring) : trim (trim s) = trim s.
Proof.
  unfold trim. rewrite trimStart_trimEnd. apply trimEnd_idem.
Qed.

Lemma trimStart_length (s : jsstring) : length (trimStart s) <= length s.
Proof.
  induction s as [|c s IH]; simpl; [lia|].
  destruct (is_whitespace c); simpl; lia.
Qed.

Lemma trim_length (s : jsstring) : length (trim s) <= length s.
Proof.
  unfold trim, trimEnd. rewrite length_rev.
  etransitivity; [apply trimStart_length|]. rewrite length_rev.
  apply trimStart_length.
Qed.

End MoreStringFacts.

(** ** The service manager: construction, counters, health *)

Section ServiceFacts.
Import Gemini Failure.

Local Arguments lit : simpl never.

Lemma ai_store r f g : ai (store r f g) = ai g.
Proof. now destruct r. Qed.

Lemma ai_recordResponseTime t g : ai (recordResponseTime t g) = ai g.
Proof. reflexivity. Qed.

Lemma ai_warn g : ai (warn_if_unhealthy g) = ai g.
Proof. unfold warn_if_unhealthy. now destruct (negb _). Qed.

Lemma ai_send_catch e t l g : ai (service (send_catch e t l g)) = ai g.
Proof. unfold send_catch. cbn [service]. now rewrite ai_logError. Qed.

Lemma ai_send_try g clock chat text : ai (service (send_try g clock chat text)) = ai g.
Proof.
  unfold send_try. cbn [getMetrics].
  destruct (race (chat (trim text))) as [t [response|e]]; [|now rewrite ai_send_catch].
  destruct (Gemini.text response) as [reply|]; [destruct (truthy reply && _)|];
    cbn [service]; rewrite ?ai_logError; reflexivity.
Qed.

Lemma ai_send g clock chat text hist :
  ai (service (sendUserMessageToLuna g clock chat text hist)) = ai g.
Proof.
  unfold sendUserMessageToLuna, getAI.
  destruct (ai g) eqn:Hai; [|exact Hai].
  destruct (negb (truthy text) || _); [cbn [service]; now rewrite ai_warn|].
  destruct (4000 <? length text); [cbn [service]; now rewrite ai_warn|].
  now rewrite ai_send_try, ai_warn.
Qed.

Lemma race_elapsed c : (fst (race c) <= TIMEOUT_MS)%N.
Proof.
  destruct c as [e|t r|]; cbn; try (unfold TIMEOUT_MS; lia).
  destruct (t <? TIMEOUT_MS)%N eqn:E; cbn; [apply N.ltb_lt in E; lia|lia].
Qed.

Lemma send_try_elapsed g clock chat text :
  elapsed (send_try g clock chat text) = fst (race (chat (trim text))).
Proof.
  unfold send_try. cbn [getMetrics].
  destruct (race (chat (trim text))) as [t [response|e]]; [|reflexivity].
  destruct (Gemini.text response) as [reply|]; [destruct (truthy reply && _)|]; reflexivity.
Qed.

(** X1.  The constructor leaves a client exactly when the environment gives
    a key that is not empty ([API_KEY] first, [GEMINI_API_KEY] when that
    one is missing or empty) and the SDK's constructor does not throw.
    With a client no error is counted and the service is healthy; in every
    other case exactly one error is counted and the service is unhealthy
    from the start. *)
Theorem service_is_initialised_iff_key_and_client API_KEY GEMINI_API_KEY prod ctor :
  let g := new_GeminiServiceManager API_KEY GEMINI_API_KEY prod ctor in
  let key := if truthy_opt API_KEY then API_KEY else GEMINI_API_KEY in
  (ai g <> None <->
   exists k client, key = Some k /\ k <> [] /\ ctor k = Fulfilled client) /\
  errorCount (metrics g) = match ai g with Some _ => 0%N | None => 1%N end /\
  requestCount (metrics g) = 0%N /\
  isHealthy g = match ai g with Some _ => true | None => false end.
Proof.
  intros g key. subst g. unfold new_GeminiServiceManager. fold key.
  destruct key as [k|].
  - destruct k as [|c k]; cbn [truthy].
    + rewrite !metrics_logError, ai_logError. cbn.
      unfold isHealthy. rewrite ai_logError. cbn.
      repeat split; try congruence.
      intros (k' & cl & Hk & Hne & _). congruence.
    + set (g1 := if startsWith (c :: k) (lit "AIza") then _ else _).
      assert (H1 : metrics g1 = fresh_metrics /\ ai g1 = None).
      { subst g1. now destruct (startsWith _ _). }
      destruct H1 as [Hm Hai].
      destruct (ctor (c :: k)) as [client|e] eqn:Hc.
      * cbn. rewrite Hm. cbn.
        repeat split; try congruence.
        intros _. exists (c :: k), client. now repeat split.
      * rewrite !metrics_logError, ai_logError. cbn. rewrite Hm, Hai.
        unfold isHealthy. rewrite ai_logError. cbn. rewrite Hai.
        repeat split; try congruence.
        intros (k' & cl & Hk & Hne & Hctor). congruence.
  - rewrite !metrics_logError, ai_logError. cbn.
    unfold isHealthy. rewrite ai_logError. cbn.
    repeat split; try congruence.
    intros (k' & cl & Hk & _). congruence.
Qed.

(** X2.  One call of [sendUserMessageToLuna] adds one to the error counter
    when the request was issued and the call failed or its response had no
    text, and nothing otherwise: a missing client, a blank text and a text
    that is too long are not counted. *)
Theorem errors_are_counted_once_per_failed_call g clock chat text hist :
  let r := sendUserMessageToLuna g clock chat text hist in
  let counted :=
    match ai g with
    | None => 0%N
    | Some _ =>
        if blank text || (4000 <? length text) then 0%N
        else
          match race (chat (trim text)) with
          | (_, Rejected _) => 1%N
          | (_, Fulfilled response) =>
              match Gemini.text response with
              | Some reply => if blank reply then 1%N else 0%N
              | None => 1%N
              end
          end
    end in
  errorCount (metrics (service r)) = (errorCount (metrics g) + counted)%N.
Proof.
  intros r counted. subst r counted.
  unfold sendUserMessageToLuna, getAI.
  destruct (ai g); [|cbn; lia].
  rewrite empty_guard_is_blank.
  destruct (blank text); [cbn [service orb]; rewrite metrics_warn; lia|].
  cbn [orb].
  destruct (4000 <? length text); [cbn [service]; rewrite metrics_warn; lia|].
  unfold send_try. cbn [getMetrics].
  destruct (race (chat (trim text))) as [t [response|e]].
  - destruct (Gemini.text response) as [reply|].
    + assert (Hb : truthy reply && (0 <? length (trim reply)) = negb (blank reply)).
      { rewrite <- truthy_trim. destruct reply as [|c reply]; [reflexivity|].
        cbn [truthy andb]. now destruct (trim (c :: reply)). }
      rewrite Hb. destruct (blank reply); cbn [negb service];
        rewrite ?errorCount_logError; cbn; rewrite metrics_warn; lia.
    + cbn [service]. rewrite errorCount_logError. cbn. rewrite metrics_warn. lia.
  - rewrite send_catch_metrics. cbn. rewrite metrics_warn. lia.
Qed.

(** [initLunaChat] changes nothing of the manager but its console and the
    copies it has handed out. *)
Lemma initLunaChat_service g name history create :
  metrics (snd (initLunaChat g name history create)) = metrics g /\
  ai (snd (initLunaChat g name history create)) = ai g /\
  responseTimes (snd (initLunaChat g name history create)) = responseTimes g.
Proof.
  unfold initLunaChat, getAI.
  destruct (ai g) eqn:Hai.
  - destruct (negb (isHealthy g)); destruct (create name _); cbn; now rewrite ?Hai.
  - cbn. now rewrite Hai.
Qed.

Lemma initLunaChat_fst g name history create :
  fst (initLunaChat g name history create) =
  match ai g, create name (default [] history) with
  | Some _, Fulfilled chat => Some chat
  | _, _ => None
  end.
Proof.
  unfold initLunaChat, getAI.
  destruct (ai g); [|reflexivity].
  now destruct (create name _).
Qed.

(** X3.  Nothing brings an unhealthy service back: after a send, whatever
    its outcome, and after [initLunaChat], the service is still
    unhealthy. *)
Theorem unhealthy_service_stays_unhealthy g :
  isHealthy g = false ->
  (forall clock chat text hist,
      isHealthy (service (sendUserMessageToLuna g clock chat text hist)) = false) /\
  (forall name history create,
      isHealthy (snd (initLunaChat g name history create)) = false).
Proof.
  intros H. split.
  - intros clock chat text hist.
    pose proof (counters_do_not_decrease g clock chat text hist) as [_ He].
    cbn zeta in He. unfold isHealthy in *. rewrite ai_send.
    destruct (ai g); [|reflexivity].
    apply N.ltb_ge in H. apply N.ltb_ge. lia.
  - intros name history create.
    destruct (initLunaChat_service g name history create) as (Hm & Ha & _).
    unfold isHealthy in *. now rewrite Ha, Hm.
Qed.

Lemma unhealthy_service_stays_unhealthy_witness :
  isHealthy (after_failures 10) = false /\
  isHealthy (service (sendUserMessageToLuna (after_failures 10) 0
                        (fun _ => Settles 40 (Fulfilled {| Gemini.text := Some (lit "Hi") |}))
                        (lit "hello") [])) = false.
Proof.
  assert (H : isHealthy (after_failures 10) = false) by (vm_compute; reflexivity).
  split; [exact H|].
  apply (proj1 (unhealthy_service_stays_unhealthy (after_failures 10) H)).
Defined.

(** X4.  [initLunaChat] returns the chat exactly when there is a client and
    [ai.chats.create] does not throw, the history being the empty one when
    none is given.  It changes neither the metrics nor the client nor the
    latencies: a creation that fails is not counted as an error. *)
Theorem initLunaChat_gives_chat_iff_created g name history create :
  let r := initLunaChat g name history create in
  fst r =
    match ai g, create name (default [] history) with
    | Some _, Fulfilled chat => Some chat
    | _, _ => None
    end /\
  metrics (snd r) = metrics g /\
  ai (snd r) = ai g /\
  responseTimes (snd r) = responseTimes g.
Proof.
  intros r. subst r. split; [apply initLunaChat_fst|apply initLunaChat_service].
Qed.




(** X6.  One call of [sendUserMessageToLuna] hands at most one message to
    the network client, the trimmed text; what it hands over is not empty,
    has no white space at either end and is at most 4000 units long.  The
    promise settles within 30 seconds and the client of the service is
    left as it was. *)
Theorem network_receives_at_most_one_trimmed_message g clock chat text hist :
  let r := sendUserMessageToLuna g clock chat text hist in
  (sent r = [] \/ sent r = [trim text]) /\
  Forall (fun m => m <> [] /\ trim m = m /\ length m <= 4000) (sent r) /\
  (elapsed r <= TIMEOUT_MS)%N /\
  ai (service r) = ai g.
Proof.
  intros r. subst r. split; [|split; [|split]]; [| | |apply ai_send].
  - unfold sendUserMessageToLuna.
    destruct (getAI g); [|now left].
    destruct (negb (truthy text) || _); [now left|].
    destruct (4000 <? length text); [now left|].
    right. apply send_try_sent.
  - unfold sendUserMessageToLuna.
    destruct (getAI g); [|constructor].
    rewrite empty_guard_is_blank.
    destruct (blank text) eqn:Hb; [constructor|].
    destruct (4000 <? length text) eqn:Hl; [constructor|].
    rewrite send_try_sent. constructor; [|constructor].
    apply Nat.ltb_ge in Hl. repeat split.
    + intros E. apply trim_nil_iff in E. congruence.
    + apply trim_idem.
    + pose proof (trim_length text). lia.
  - unfold sendUserMessageToLuna.
    destruct (getAI g); [|cbn; unfold TIMEOUT_MS; lia].
    destruct (negb (truthy text) || _); [cbn; unfold TIMEOUT_MS; lia|].
    destruct (4000 <? length text); [cbn; unfold TIMEOUT_MS; lia|].
    rewrite send_try_elapsed. apply race_elapsed.
Qed.


End ServiceFacts.

(** ** The session store: profile, theme and separate entries *)

Section StorageFacts.
Import JSON Storage.

Lemma profile_key_is_no_history_key id : USER_PROFILE_KEY <> CHAT_HISTORY_PREFIX ++ id.
Proof. intros H. vm_compute in H. discriminate H. Qed.

Lemma theme_key_is_no_history_key id : SELECTED_THEME_KEY <> CHAT_HISTORY_PREFIX ++ id.
Proof. intros H. vm_compute in H. discriminate H. Qed.

Lemma theme_key_is_no_profile_key : SELECTED_THEME_KEY <> USER_PROFILE_KEY.
Proof. intros H. vm_compute in H. discriminate H. Qed.

Lemma history_keys_differ id id' :
  id' <> id -> CHAT_HISTORY_PREFIX ++ id' <> CHAT_HISTORY_PREFIX ++ id.
Proof. intros Hne H. apply app_inv_head in H. congruence. Qed.

Lemma getItem_saveChatHistory k id m st :
  k <> CHAT_HISTORY_PREFIX ++ id ->
  getItem k (saveChatHistory id m st) = getItem k st.
Proof.
  intros Hk. unfold saveChatHistory, setItem, getItem.
  destruct (negb (truthy id)); [reflexivity|].
  destruct (accepts _ _ st); [|reflexivity].
  cbn [items]. now rewrite lookup_insert_ne.
Qed.

Lemma getItem_clearChatHistory k id st :
  k <> CHAT_HISTORY_PREFIX ++ id ->
  getItem k (clearChatHistory id st) = getItem k st.
Proof.
  intros Hk. unfold clearChatHistory, removeItem, getItem.
  destruct (negb (truthy id)); [reflexivity|].
  cbn [items]. now rewrite lookup_delete_ne.
Qed.

Lemma getItem_saveUserProfile k v st :
  k <> USER_PROFILE_KEY ->
  getItem k (saveUserProfile v st) = getItem k st.
Proof.
  intros Hk. unfold saveUserProfile, setItem, getItem.
  destruct (accepts _ _ st); [|reflexivity].
  cbn [items]. now rewrite lookup_insert_ne.
Qed.

Lemma getItem_clearUserProfile k st :
  k <> USER_PROFILE_KEY ->
  getItem k (clearUserProfile st) = getItem k st.
Proof.
  intros Hk. unfold clearUserProfile, removeItem, getItem.
  cbn [items]. now rewrite lookup_delete_ne.
Qed.

Lemma getItem_saveSelectedTheme k t st :
  k <> SELECTED_THEME_KEY ->
  getItem k (saveSelectedTheme t st) = getItem k st.
Proof.
  intros Hk. unfold saveSelectedTheme, setItem, getItem.
  destruct (accepts _ _ st); [|reflexivity].
  cbn [items]. now rewrite lookup_insert_ne.
Qed.

(** What the three loaders return is a function of the item they read. *)
Lemma loadChatHistory_getItem id st st' :
  getItem (CHAT_HISTORY_PREFIX ++ id) st' = getItem (CHAT_HISTORY_PREFIX ++ id) st ->
  loadChatHistory id st' = loadChatHistory id st.
Proof. intros H. unfold loadChatHistory. now rewrite H. Qed.

Lemma loadUserProfile_getItem st st' :
  getItem USER_PROFILE_KEY st' = getItem USER_PROFILE_KEY st ->
  loadUserProfile st' = loadUserProfile st.
Proof. intros H. unfold loadUserProfile. now rewrite H. Qed.

Lemma object_of_profile_well_formed p : well_formed (object_of_profile p) = true.
Proof. vm_compute. reflexivity. Qed.

Lemma object_of_profile_plain p : plain (object_of_profile p) = object_of_profile p.
Proof. reflexivity. Qed.

(** X7.  When the store takes the write, [loadUserProfile] after
    [saveUserProfile] returns the profile that was saved. *)
Theorem saved_profile_loads_back p st :
  accepts USER_PROFILE_KEY (stringify (object_of_profile p)) st = true ->
  loadUserProfile (saveUserProfile (object_of_profile p) st) = object_of_profile p.
Proof.
  intros Hroom. unfold loadUserProfile, saveUserProfile, setItem, getItem.
  rewrite Hroom. cbn [items]. rewrite lookup_insert_eq.
  assert (Ht : truthy (stringify (object_of_profile p)) = true) by reflexivity.
  rewrite Ht, parse_stringify by apply object_of_profile_well_formed.
  apply object_of_profile_plain.
Qed.


Lemma saved_profile_loads_back_witness :
  accepts USER_PROFILE_KEY (stringify (object_of_profile Session.river_profile)) empty_storage = true /\
  loadUserProfile (saveUserProfile (object_of_profile Session.river_profile) empty_storage)
  = object_of_profile Session.river_profile.
Proof.
  assert (H : accepts USER_PROFILE_KEY (stringify (object_of_profile Session.river_profile))
                      empty_storage = true) by (vm_compute; reflexivity).
  split; [exact H|].
  exact (saved_profile_loads_back Session.river_profile empty_storage H).
Defined.

(** X8.  After [clearChatHistory] the history of that identity loads as
    [null], and after [clearUserProfile] so does the profile, whatever the
    store held. *)
Theorem cleared_entries_do_not_load id st :
  loadChatHistory id (clearChatHistory id st) = None /\
  loadUserProfile (clearUserProfile st) = VNull.
Proof.
  split.
  - unfold loadChatHistory, clearChatHistory, removeItem, getItem.
    destruct (negb (truthy id)); [reflexivity|].
    cbn [items]. now rewrite lookup_delete_eq.
  - unfold loadUserProfile, clearUserProfile, removeItem, getItem.
    cbn [items]. now rewrite lookup_delete_eq.
Qed.

(** X9.  The profile, the theme and the history of each identity are kept
    apart: saving or clearing one of them changes what none of the others
    loads. *)
Theorem store_entries_do_not_interfere id m v t st :
  (forall id', id' <> id ->
     loadChatHistory id' (saveChatHistory id m st) = loadChatHistory id' st /\
     loadChatHistory id' (clearChatHistory id st) = loadChatHistory id' st) /\
  (loadUserProfile (saveChatHistory id m st) = loadUserProfile st /\
   loadUserProfile (clearChatHistory id st) = loadUserProfile st /\
   loadUserProfile (saveSelectedTheme t st) = loadUserProfile st) /\
  (loadSelectedTheme (saveChatHistory id m st) = loadSelectedTheme st /\
   loadSelectedTheme (clearChatHistory id st) = loadSelectedTheme st /\
   loadSelectedTheme (saveUserProfile v st) = loadSelectedTheme st /\
   loadSelectedTheme (clearUserProfile st) = loadSelectedTheme st) /\
  (loadChatHistory id (saveUserProfile v st) = loadChatHistory id st /\
   loadChatHistory id (clearUserProfile st) = loadChatHistory id st /\
   loadChatHistory id (saveSelectedTheme t st) = loadChatHistory id st).
Proof.
  repeat split.
  - apply loadChatHistory_getItem, getItem_saveChatHistory. now apply history_keys_differ.
  - apply loadChatHistory_getItem, getItem_clearChatHistory. now apply history_keys_differ.
  - apply loadUserProfile_getItem, getItem_saveChatHistory, profile_key_is_no_history_key.
  - apply loadUserProfile_getItem, getItem_clearChatHistory, profile_key_is_no_history_key.
  - apply loadUserProfile_getItem, getItem_saveSelectedTheme.
    intros H. symmetry in H. now apply theme_key_is_no_profile_key.
  - apply getItem_saveChatHistory, theme_key_is_no_history_key.
  - apply getItem_clearChatHistory, theme_key_is_no_history_key.
  - apply getItem_saveUserProfile, theme_key_is_no_profile_key.
  - apply getItem_clearUserProfile, theme_key_is_no_profile_key.
  - apply loadChatHistory_getItem, getItem_saveUserProfile.
    intros H. symmetry in H. now apply profile_key_is_no_history_key in H.
  - apply loadChatHistory_getItem, getItem_clearUserProfile.
    intros H. symmetry in H. now apply profile_key_is_no_history_key in H.
  - apply loadChatHistory_getItem, getItem_saveSelectedTheme.
    intros H. symmetry in H. now apply theme_key_is_no_history_key in H.
Qed.

(** X10.  [loadSelectedTheme] after [saveSelectedTheme] returns the new id
    when the store took the write, and what was stored before when the
    write failed: the failure is swallowed. *)
Theorem theme_is_stored_when_there_is_room t st :
  loadSelectedTheme (saveSelectedTheme t st) =
  if accepts SELECTED_THEME_KEY t st then Some t else loadSelectedTheme st.
Proof.
  unfold loadSelectedTheme, saveSelectedTheme, setItem, getItem.
  destruct (accepts _ _ st); [|reflexivity].
  cbn [items]. now rewrite lookup_insert_eq.
Qed.





End StorageFacts.

(** ** The recognition hook: starting *)

Section RecognitionFacts.
Import Recognition.

Local Arguments lit : simpl never.

(** X12.  [startListening] on a hook that does not listen, with the render
    that follows it.  The hook says that it listens exactly when
    [start()] succeeded, at once or at the second attempt that is made
    with en-US after an [InvalidStateError] under hi-IN; it shows an error
    exactly when it does not listen.  In every case the recognizer at hand
    afterwards is not started; when the hook listens, it is a new one set
    to hi-IN, also when the start had succeeded under en-US only. *)
Theorem startListening_leaves_a_recognizer_that_is_not_started start h :
  isListening h = false ->
  engine h = Idle ->
  lang h = lit "hi-IN" \/ lang h = lit "en-US" ->
  let h' := render h (startListening start h) in
  let fallback :=
    match start (lang h) with
    | Some (name, _) =>
        bool_decide (name = lit "InvalidStateError") && bool_decide (lang h = lit "hi-IN")
    | None => false
    end in
  (isListening h' = true <->
   start (lang h) = None \/ (fallback = true /\ start (lit "en-US") = None)) /\
  (isListening h' = true <-> error h' = None) /\
  engine h' = Idle /\
  (isListening h' = true -> lang h' = lit "hi-IN") /\
  transcript h' = [] /\ transcriptRef h' = [] /\ finalizedText h' = None /\
  speechEndTimeout h' = None /\ finalized h' = finalized h.
Proof.
  intros Hl He Hlang. cbn zeta. unfold startListening. rewrite Hl.
  destruct h as [l t r f err tm lg en fin]. cbn in Hl, He, Hlang. subst l en.
  cbn [lang setError clearFinalizedText setTranscriptRef setTranscript
       clearSpeechEndTimeout isListening transcript transcriptRef finalizedText
       error speechEndTimeout engine finalized].
  assert (Hn : negb (bool_decide (lg = lit "hi-IN")) &&
               negb (bool_decide (lg = lit "en-US")) = false).
  { destruct Hlang as [-> | ->].
    - now rewrite bool_decide_true.
    - rewrite (bool_decide_true (lit "en-US" = lit "en-US")) by reflexivity.
      now rewrite andb_false_r. }
  rewrite Hn.
  cbn [lang setError clearFinalizedText setTranscriptRef setTranscript
       clearSpeechEndTimeout].
  destruct (start lg) as [[name message]|] eqn:Es.
  2:{ unfold render. cbn. repeat split; try tauto; try discriminate. }
  destruct (bool_decide (name = lit "InvalidStateError")) eqn:Ei; cbn [andb negb].
  - assert (Ea : bool_decide (name = lit "NotAllowedError") ||
                 bool_decide (name = lit "SecurityError") = false).
    { apply bool_decide_eq_true in Ei. subst name. vm_compute. reflexivity. }
    rewrite Ea.
    destruct (bool_decide (lg = lit "hi-IN")) eqn:Eh.
    + cbn [lang setLang].
      destruct (start (lit "en-US")) as [[name2 message2]|] eqn:Es2;
        unfold render; cbn; repeat split; try tauto; try discriminate;
        try (intros [H|[_ H]]; discriminate); try (now right).
    + unfold render. cbn. repeat split; try tauto; try discriminate;
        try (intros [H|[H _]]; discriminate).
  - destruct (bool_decide (name = lit "NotAllowedError") ||
              bool_decide (name = lit "SecurityError"));
      unfold render; cbn; repeat split; try tauto; try discriminate;
      try (intros [H|[H _]]; discriminate).
Qed.

Lemma startListening_leaves_a_recognizer_that_is_not_started_witness :
  let start : jsstring -> option (jsstring * jsstring) :=
    fun l => if bool_decide (l = lit "hi-IN")
             then Some (lit "InvalidStateError", lit "recognition has already started")
             else None in
  (isListening initial = false /\ engine initial = Idle /\
   (lang initial = lit "hi-IN" \/ lang initial = lit "en-US")) /\
  isListening (render initial (startListening start initial)) = true /\
  engine (render initial (startListening start initial)) = Idle /\
  lang (render initial (startListening start initial)) = lit "hi-IN".
Proof.
  intros start.
  assert (H1 : isListening initial = false) by reflexivity.
  assert (H2 : engine initial = Idle) by reflexivity.
  assert (H3 : lang initial = lit "hi-IN" \/ lang initial = lit "en-US") by (left; reflexivity).
  split; [tauto|].
  pose proof (startListening_leaves_a_recognizer_that_is_not_started start initial H1 H2 H3)
    as H.
  cbn zeta in H. destruct H as (Hiff & _ & He & Hlang & _).
  assert (Hlist : isListening (render initial (startListening start initial)) = true).
  { apply Hiff. right. split; vm_compute; reflexivity. }
  split; [exact Hlist|]. split; [exact He|]. exact (Hlang Hlist).
Defined.

End RecognitionFacts.

(** ** The controller: exchange and speaking phase *)

Section ControllerFacts.
Import Gemini Failure App.

Local Arguments lit : simpl never.

Lemma send_elapsed_bound g clock chat text hist :
  (elapsed (sendUserMessageToLuna g clock chat text hist) <= TIMEOUT_MS)%N.
Proof.
  unfold sendUserMessageToLuna.
  destruct (getAI g); [|cbn; unfold TIMEOUT_MS; lia].
  destruct (negb (truthy text) || _); [cbn; unfold TIMEOUT_MS; lia|].
  destruct (4000 <? length text); [cbn; unfold TIMEOUT_MS; lia|].
  rewrite send_try_elapsed. apply race_elapsed.
Qed.

(** X13.  With a chat handle, the submission of a text that is not blank
    appends exactly two messages, the user's text and then a reply of
    Luna that is not empty, the second stamped at most 30 seconds after
    the first; the phase is then [LUNA_SPEAKING] and the error is as
    before.  This holds whatever the service does. *)
Theorem exchange_appends_user_then_luna now text s chat :
  blank text = false ->
  lunaChat s = Some chat ->
  exists reply t,
    reply <> [] /\ (t <= TIMEOUT_MS)%N /\
    let later := (now + Z.of_N t)%Z in
    messages (submit now text s) =
      messages s ++
      [mkChatMessage (Z_toString now) USER text (Some now) None;
       mkChatMessage (Z_toString later) LUNA reply (Some later) None] /\
    appPhase (submit now text s) = LUNA_SPEAKING /\
    error (submit now text s) = error s.
Proof.
  intros Hb Hc.
  destruct (handleUserSpeechResult_with_chat now text s chat Hb Hc)
    as (s1 & Hh & Hm & _ & _ & _ & _ & _ & _).
  cbn zeta in Hh.
  set (r := sendUserMessageToLuna (gemini s) now chat text (messages s)) in *.
  destruct (send_text (gemini s) now chat text (messages s)) as (reply & Hs & Hne).
  fold r in Hs.
  exists reply, (elapsed r). split; [exact Hne|]. split; [apply send_elapsed_bound|].
  unfold submit. rewrite Hh.
  set (k := mkPending r now _ _ _).
  destruct (resume_with_text k s1 reply Hs Hne) as (Hp & He & Hmsg).
  cbn zeta. rewrite Hmsg, Hm, <- app_assoc. cbn [app]. repeat split; [exact Hp|].
  rewrite He. unfold handleUserSpeechResult in Hh.
  rewrite truthy_trim, Hb, Hc in Hh. cbn [negb] in Hh. now injection Hh as <-.
Qed.

Lemma exchange_appends_user_then_luna_witness :
  let chat : Chat := fun _ => Settles 300 (Fulfilled {| Gemini.text := Some (lit "Rest.") |}) in
  let s := a_state ready_service (Some chat) READY_TO_CHAT false tts_idle in
  (blank (lit "I feel tired") = false /\ lunaChat s = Some chat) /\
  exists reply t,
    reply <> [] /\ (t <= TIMEOUT_MS)%N /\
    map msg_sender (messages (submit 0 (lit "I feel tired") s)) = [USER; LUNA] /\
    map msg_text (messages (submit 0 (lit "I feel tired") s)) = [lit "I feel tired"; reply].
Proof.
  intros chat s.
  assert (H1 : blank (lit "I feel tired") = false) by (vm_compute; reflexivity).
  assert (H2 : lunaChat s = Some chat) by reflexivity.
  split; [tauto|].
  destruct (exchange_appends_user_then_luna 0 (lit "I feel tired") s chat H1 H2)
    as (reply & t & Hne & Ht & Hm & _).
  exists reply, t. split; [exact Hne|]. split; [exact Ht|].
  cbn zeta in Hm. rewrite Hm. split; reflexivity.
Defined.



End ControllerFacts.

(** ** The session: profile, log and store *)


Section SessionFacts.
Import Gemini App JSON Storage Session.

Local Arguments lit : simpl never.

Lemma message_of_value_object msg : message_of_value (object_of_message msg) = Some msg.
Proof. destruct msg as [i [| |] t d [u|]]; vm_compute; reflexivity. Qed.

Lemma messages_of_values_objects m :
  mapM message_of_value (map object_of_message m) = Some m.
Proof.
  induction m as [|msg m IH]; [reflexivity|].
  cbn [map mapM]. rewrite message_of_value_object. cbn [mbind option_bind].
  rewrite IH. reflexivity.
Qed.

Lemma profile_of_value_object p : profile_of_value (object_of_profile p) = Some p.
Proof. destruct p as [[i n] [|]]; vm_compute; reflexivity. Qed.

Lemma truthy_value_object p : truthy_value (object_of_profile p) = true.
Proof. reflexivity. Qed.

(** What [loadChatHistory] returns after [saveChatHistory] under the same
    identity: the new list when the store took it, what was there before
    when it did not. *)
Lemma load_after_save id m st :
  id <> [] ->
  Forall (fun msg => DateTime.valid (msg_timestamp msg) = true) m ->
  loadChatHistory id (saveChatHistory id m st) =
  if accepts (CHAT_HISTORY_PREFIX ++ id) (history_text m) st
  then Some (map object_of_message m)
  else loadChatHistory id st.
Proof.
  intros Hid Hvalid.
  unfold saveChatHistory, setItem.
  destruct id as [|c id]; [congruence|]. cbn [truthy negb].
  destruct (accepts _ _ st) eqn:Hroom; [|reflexivity].
  unfold loadChatHistory, getItem. cbn [truthy negb items].
  rewrite lookup_insert_eq, history_text_truthy.
  unfold history_text. rewrite parse_stringify by apply history_well_formed.
  cbn [plain]. now apply revive_history.
Qed.

Lemma load_profile_after_save p st :
  loadUserProfile (saveUserProfile (object_of_profile p) st) =
  if accepts USER_PROFILE_KEY (stringify (object_of_profile p)) st
  then object_of_profile p
  else loadUserProfile st.
Proof.
  unfold saveUserProfile, setItem.
  destruct (accepts _ _ st) eqn:Hroom; [|reflexivity].
  unfold loadUserProfile, getItem. cbn [items]. rewrite lookup_insert_eq.
  assert (Ht : truthy (stringify (object_of_profile p)) = true) by reflexivity.
  rewrite Ht, parse_stringify by apply object_of_profile_well_formed.
  reflexivity.
Qed.

Lemma valid_filter (P : ChatMessage -> Prop) `{forall x, Decision (P x)} m :
  Forall (fun msg => DateTime.valid (msg_timestamp msg) = true) m ->
  Forall (fun msg => DateTime.valid (msg_timestamp msg) = true) (filter P m).
Proof.
  intros Hm. apply Forall_forall. intros x Hx.
  apply list_elem_of_filter in Hx as [_ Hx].
  rewrite Forall_forall in Hm. now apply Hm.
Qed.

(** X16.  [handleDeleteMessage] with a persistent profile: the log keeps, in
    order, exactly the messages with another id; the stored history is the
    new log when the store takes the write (and the old one stays when it
    does not); the service, both speech hooks, the phase, the chat handle
    and the timers are untouched. *)
Theorem deleted_message_leaves_log_and_store messageId s p :
  userProfile s = Some p ->
  persistent p = true ->
  sn_id (symbolicName p) <> [] ->
  Forall (fun msg => DateTime.valid (msg_timestamp msg) = true) (messages (app s)) ->
  let s' := handleDeleteMessage messageId s in
  let id := sn_id (symbolicName p) in
  messages (app s') = filter (fun msg => msg_id msg <> messageId) (messages (app s)) /\
  Forall (fun msg => msg_id msg <> messageId) (messages (app s')) /\
  loadChatHistory id (localStorage s') =
    (if accepts (CHAT_HISTORY_PREFIX ++ id) (history_text (messages (app s'))) (localStorage s)
     then Some (map object_of_message (messages (app s')))
     else loadChatHistory id (localStorage s)) /\
  gemini (app s') = gemini (app s) /\ tts (app s') = tts (app s) /\
  recog (app s') = recog (app s) /\ appPhase (app s') = appPhase (app s) /\
  lunaChat (app s') = lunaChat (app s) /\ timers (app s') = timers (app s) /\
  userProfile s' = userProfile s.
Proof.
  intros Hp Hpers Hid Hvalid. cbn zeta.
  unfold handleDeleteMessage. rewrite Hp, Hpers.
  cbn [app setApp setLocalStorage localStorage userProfile].
  assert (Hm : messages (App.handleDeleteMessage messageId (app s)) =
               filter (fun msg => msg_id msg <> messageId) (messages (app s)))
    by reflexivity.
  split; [exact Hm|]. split.
  - rewrite Hm. apply Forall_forall. intros x Hx.
    now apply list_elem_of_filter in Hx as [Hx _].
  - split; [|repeat split; congruence].
    apply load_after_save; [exact Hid|].
    rewrite Hm. now apply valid_filter.
Qed.

Lemma deleted_message_leaves_log_and_store_witness :
  let s := a_session (Some river_profile) abc_log None empty_storage in
  let s' := handleDeleteMessage (lit "2") s in
  (userProfile s = Some river_profile /\ persistent river_profile = true /\
   sn_id (symbolicName river_profile) <> [] /\
   Forall (fun msg => DateTime.valid (msg_timestamp msg) = true) (messages (app s))) /\
  map msg_text (messages (app s')) = [lit "a"; lit "c"] /\
  loadChatHistory (lit "river") (localStorage s') =
    Some (map object_of_message (messages (app s'))).
Proof.
  intros s s'.
  assert (H1 : userProfile s = Some river_profile) by reflexivity.
  assert (H2 : persistent river_profile = true) by reflexivity.
  assert (H3 : sn_id (symbolicName river_profile) <> []) by (vm_compute; discriminate).
  assert (H4 : Forall (fun msg => DateTime.valid (msg_timestamp msg) = true)
                      (messages (app s))) by (repeat constructor).
  split; [tauto|].
  destruct (deleted_message_leaves_log_and_store (lit "2") s river_profile H1 H2 H3 H4)
    as (Hm & _ & Hl & _).
  fold s' in Hm, Hl. split.
  - rewrite Hm. vm_compute. reflexivity.
  - assert (Ha : accepts (CHAT_HISTORY_PREFIX ++ sn_id (symbolicName river_profile))
                   (history_text (messages (app s'))) (localStorage s) = true)
      by (vm_compute; reflexivity).
    rewrite Ha in Hl. exact Hl.
Defined.

(** X17.  Without a persistent profile nothing is written: the effect on
    the log changes nothing, also after a reply has been appended, and
    [handleDeleteMessage] leaves the store as it is. *)
Theorem no_history_is_written_without_a_persistent_profile s messageId :
  (forall p, userProfile s = Some p -> persistent p = false) ->
  persistEffect s = s /\
  localStorage (handleDeleteMessage messageId s) = localStorage s /\
  (forall k a, persistEffect (setApp (resume k a) s) = setApp (resume k a) s).
Proof.
  intros Hp. unfold persistEffect, handleDeleteMessage.
  cbn [userProfile setApp setLocalStorage localStorage].
  destruct (userProfile s) as [p|]; [|repeat split].
  pose proof (Hp p eq_refl) as Hq. rewrite Hq.
  split; [now rewrite andb_false_r|]. split; [reflexivity|].
  intros k a. now rewrite andb_false_r.
Qed.

Lemma no_history_is_written_without_a_persistent_profile_witness :
  let s := a_session (Some guest_profile) abc_log None empty_storage in
  (forall p, userProfile s = Some p -> persistent p = false) /\
  persistEffect s = s /\
  localStorage (handleDeleteMessage (lit "2") s) = empty_storage.
Proof.
  intros s.
  assert (H : forall p, userProfile s = Some p -> persistent p = false)
    by (intros p [= <-]; reflexivity).
  split; [exact H|].
  destruct (no_history_is_written_without_a_persistent_profile s (lit "2") H) as (H1 & H2 & _).
  split; [exact H1|exact H2].
Defined.

(** X18.  After [handleForgetMe] the store holds neither the profile nor
    the history of the profile's identity, the theme is kept; the profile,
    the log and the chat handle are gone, the phase is [INITIAL_SETUP] and
    no error is shown.  The service, the speech hooks, the pending timers
    and the mute flag are left as they are. *)
Theorem forget_me_clears_profile_history_and_log s :
  let s' := handleForgetMe s in
  loadUserProfile (localStorage s') = VNull /\
  (forall p, userProfile s = Some p ->
     loadChatHistory (sn_id (symbolicName p)) (localStorage s') = None) /\
  loadSelectedTheme (localStorage s') = loadSelectedTheme (localStorage s) /\
  userProfile s' = None /\
  messages (app s') = [] /\ lunaChat (app s') = None /\
  appPhase (app s') = INITIAL_SETUP /\ error (app s') = None /\
  isSettingsOpen s' = false /\
  gemini (app s') = gemini (app s) /\ tts (app s') = tts (app s) /\
  recog (app s') = recog (app s) /\ timers (app s') = timers (app s) /\
  isMuted (app s') = isMuted (app s).
Proof.
  cbn zeta. unfold handleForgetMe. cbn [localStorage userProfile app isSettingsOpen].
  split; [|split; [|split; [|repeat split]]].
  - unfold loadUserProfile, clearUserProfile, removeItem, getItem.
    cbn [items]. now rewrite lookup_delete_eq.
  - intros p Hp. rewrite Hp.
    rewrite (loadChatHistory_getItem _ (clearChatHistory (sn_id (symbolicName p)) (localStorage s))).
    + unfold loadChatHistory, clearChatHistory, removeItem, getItem.
      destruct (negb (truthy _)); [reflexivity|].
      cbn [items]. now rewrite lookup_delete_eq.
    + apply getItem_clearUserProfile.
      intros H. symmetry in H. now apply profile_key_is_no_history_key in H.
  - unfold loadSelectedTheme. rewrite getItem_clearUserProfile
      by apply theme_key_is_no_profile_key.
    destruct (userProfile s) as [p|]; [|reflexivity].
    apply getItem_clearChatHistory, theme_key_is_no_history_key.
Qed.

(** X19.  A reply that arrives after [handleForgetMe] is still applied: it
    becomes the only message of the emptied log and the phase becomes
    [LUNA_SPEAKING], with no profile; nothing of it is stored. *)
Theorem reply_after_forget_me_is_still_applied now text s chat :
  blank text = false ->
  lunaChat (app s) = Some chat ->
  exists a1 k reply,
    handleUserSpeechResult now text (app s) = App.Awaiting a1 k /\
    reply <> [] /\
    let forgotten := handleForgetMe (setApp a1 s) in
    let late := setApp (resume k (app forgotten)) forgotten in
    userProfile late = None /\
    map msg_sender (messages (app late)) = [LUNA] /\
    map msg_text (messages (app late)) = [reply] /\
    appPhase (app late) = LUNA_SPEAKING /\
    persistEffect late = late.
Proof.
  intros Hb Hc.
  destruct (handleUserSpeechResult_with_chat now text (app s) chat Hb Hc)
    as (a1 & Hh & _).
  cbn zeta in Hh.
  destruct (send_text (gemini (app s)) now chat text (messages (app s)))
    as (reply & Hs & Hne).
  eexists a1, _, reply. split; [exact Hh|]. split; [exact Hne|].
  cbn zeta.
  set (k := mkPending _ _ _ _ _).
  set (forgotten := handleForgetMe (setApp a1 s)).
  destruct (resume_with_text k (app forgotten) reply Hs Hne) as (Hp & _ & Hm).
  cbn zeta in Hm.
  cbn [app setApp userProfile]. rewrite Hm, Hp.
  repeat split.
Qed.

Lemma reply_after_forget_me_is_still_applied_witness :
  let s := a_session (Some river_profile) abc_log (Some kind_chat) empty_storage in
  (blank (lit "d") = false /\ lunaChat (app s) = Some kind_chat) /\
  exists a1 k,
    handleUserSpeechResult 4000 (lit "d") (app s) = App.Awaiting a1 k /\
    map msg_text (messages (resume k (app (handleForgetMe (setApp a1 s)))))
    = [lit "I am here."].
Proof.
  intros s.
  assert (H1 : blank (lit "d") = false) by (vm_compute; reflexivity).
  assert (H2 : lunaChat (app s) = Some kind_chat) by reflexivity.
  split; [tauto|].
  destruct (reply_after_forget_me_is_still_applied 4000 (lit "d") s kind_chat H1 H2)
    as (a1 & k & reply & Hh & _ & _).
  exists a1, k. split; [exact Hh|].
  vm_compute in Hh. injection Hh as <- <-. vm_compute. reflexivity.
Defined.

Lemma greeting_request_passes :
  blank GREETING_REQUEST = false /\ length GREETING_REQUEST <= 4000 /\
  trim GREETING_REQUEST = GREETING_REQUEST.
Proof. vm_compute. repeat split. lia. Qed.

(** The branch of [handleProfileSelected] taken when no prior history
    counts: the profile is written, the log is emptied and, with a chat,
    the greeting is requested. *)
Lemma handleProfileSelected_without_prior create now p isLoadScenario s chat :
  isLoadScenario && persistent p = false \/
  loadChatHistory (sn_id (symbolicName p)) (localStorage s) = None ->
  ai (gemini (app s)) <> None ->
  create (sn_name (symbolicName p)) [] = Fulfilled chat ->
  exists s1 k reply,
    handleProfileSelected create now p isLoadScenario s = Some (Awaiting s1 k) /\
    sent (promise k) = [GREETING_REQUEST] /\
    userProfile s1 = Some p /\
    messages (app s1) = [] /\
    lunaChat (app s1) = Some chat /\
    appPhase (app s1) = LUNA_THINKING /\
    isInitialized s1 = isInitialized s /\
    loadUserProfile (localStorage s1) =
      (if accepts USER_PROFILE_KEY (stringify (object_of_profile p)) (localStorage s)
       then object_of_profile p else loadUserProfile (localStorage s)) /\
    settlement (promise k) = Fulfilled (Some reply) /\ reply <> [] /\
    forall a,
      let later := (now + Z.of_N (elapsed (promise k)))%Z in
      messages (resumeGreeting k a) =
        messages a ++ [mkChatMessage (Z_toString later) LUNA reply (Some later) None] /\
      appPhase (resumeGreeting k a) = LUNA_SPEAKING /\
      error (resumeGreeting k a) = error a.
Proof.
  intros Hprior Hai Hcreate.
  unfold handleProfileSelected.
  assert (Hp : (if isLoadScenario && persistent p
                then loadChatHistory (sn_id (symbolicName p))
                       (saveUserProfile (object_of_profile p) (localStorage s))
                else None) = None).
  { destruct (isLoadScenario && persistent p); [|reflexivity].
    destruct Hprior as [Hprior|Hprior]; [discriminate|].
    rewrite <- Hprior. apply loadChatHistory_getItem, getItem_saveUserProfile.
    intros H. symmetry in H. now apply profile_key_is_no_history_key in H. }
  rewrite Hp.
  cbn [gemini setMessages setRecog].
  destruct (initLunaChat_service (gemini (app s)) (sn_name (symbolicName p)) None create)
    as (Hm & Ha & _).
  assert (Hf : fst (initLunaChat (gemini (app s)) (sn_name (symbolicName p)) None create)
               = Some chat).
  { rewrite initLunaChat_fst. destruct (ai (gemini (app s))); [|congruence].
    change (default [] None) with (@nil Content). now rewrite Hcreate. }
  destruct (initLunaChat (gemini (app s)) (sn_name (symbolicName p)) None create)
    as [chatInstance g] eqn:Hinit.
  cbn [fst snd] in *. subst chatInstance.
  destruct greeting_request_passes as (Gb & Gl & Gt).
  assert (Hg : ai g <> None) by congruence.
  destruct (send_text g now chat GREETING_REQUEST []) as (reply & Hs & Hne).
  eexists _, _, reply. split; [reflexivity|].
  cbn [promise app setApp userProfile setLocalStorage setUserProfile localStorage
       messages lunaChat appPhase setGemini setLunaStatusText setAppPhase setLunaChat
       isInitialized].
  split; [rewrite send_passes by assumption; now rewrite send_try_sent, Gt|].
  split; [reflexivity|]. split; [reflexivity|]. split; [reflexivity|].
  split; [reflexivity|]. split; [reflexivity|]. split; [apply load_profile_after_save|].
  split; [exact Hs|]. split; [exact Hne|].
  intros a. cbn zeta. unfold resumeGreeting. cbn [promise startedAt]. rewrite Hs.
  destruct reply as [|c reply]; [congruence|]. cbn [truthy].
  destruct (negb _ && _); repeat split.
Qed.

(** X20.  [handleProfileSelected] for a profile chosen in the name form,
    with a client and a chat that can be created: the profile is written
    (when the store takes it), the log is emptied, the phase is
    [LUNA_THINKING] and exactly the greeting request is sent.  When the
    promise settles, the reply is appended as a message of Luna and the
    phase is [LUNA_SPEAKING]; the fallback greeting and the error branch
    are never taken. *)
Theorem new_profile_is_stored_and_greeted create now p s chat :
  ai (gemini (app s)) <> None ->
  create (sn_name (symbolicName p)) [] = Fulfilled chat ->
  exists s1 k reply,
    handleProfileSelected create now p false s = Some (Awaiting s1 k) /\
    sent (promise k) = [GREETING_REQUEST] /\
    userProfile s1 = Some p /\
    messages (app s1) = [] /\
    lunaChat (app s1) = Some chat /\
    appPhase (app s1) = LUNA_THINKING /\
    loadUserProfile (localStorage s1) =
      (if accepts USER_PROFILE_KEY (stringify (object_of_profile p)) (localStorage s)
       then object_of_profile p else loadUserProfile (localStorage s)) /\
    settlement (promise k) = Fulfilled (Some reply) /\ reply <> [] /\
    forall a,
      let later := (now + Z.of_N (elapsed (promise k)))%Z in
      messages (resumeGreeting k a) =
        messages a ++ [mkChatMessage (Z_toString later) LUNA reply (Some later) None] /\
      appPhase (resumeGreeting k a) = LUNA_SPEAKING /\
      error (resumeGreeting k a) = error a.
Proof.
  intros Hai Hcreate.
  destruct (handleProfileSelected_without_prior create now p false s chat
              (or_introl eq_refl) Hai Hcreate)
    as (s1 & k & reply & H1 & H2 & H3 & H4 & H5 & H6 & _ & H7 & H8 & H9 & H10).
  exists s1, k, reply. repeat split; try assumption; apply H10.
Qed.

Lemma new_profile_is_stored_and_greeted_witness :
  let s := first_render ready_service tts_idle Recognition.initial empty_storage in
  let create : jsstring -> list Content -> Settlement Chat := fun _ _ => Fulfilled kind_chat in
  (ai (gemini (app s)) <> None /\
   create (sn_name (symbolicName river_profile)) [] = Fulfilled kind_chat) /\
  exists s1 k,
    handleProfileSelected create 0 river_profile false s = Some (Awaiting s1 k) /\
    sent (promise k) = [GREETING_REQUEST].
Proof.
  intros s create.
  assert (H1 : ai (gemini (app s)) <> None) by (vm_compute; discriminate).
  assert (H2 : create (sn_name (symbolicName river_profile)) [] = Fulfilled kind_chat)
    by reflexivity.
  split; [tauto|].
  destruct (new_profile_is_stored_and_greeted create 0 river_profile s kind_chat H1 H2)
    as (s1 & k & reply & Hh & Hsent & _).
  exists s1, k. split; [exact Hh|exact Hsent].
Defined.

(** X21.  When no chat can be created at profile selection, the phase is
    [ERROR], the profile is set and the voice button is enabled.  A text
    that [handleUserSpeechResult] is then given is appended to the log and
    the phase becomes [PROCESSING_USER_INPUT], in which the button is
    disabled; no request is made, and neither a click nor the effect on the
    speaking phase changes the state. *)
Theorem failed_chat_creation_then_utterance_blocks_input create now p s later text :
  fst (initLunaChat (gemini (app s)) (sn_name (symbolicName p)) None create) = None ->
  blank text = false ->
  exists s1 a2,
    handleProfileSelected create now p false s = Some (Returned s1) /\
    appPhase (app s1) = ERROR /\
    lunaChat (app s1) = lunaChat (app s) /\
    userProfile s1 = Some p /\
    Controls.isDisabledByAppPhase (appPhase (app s1)) = false /\
    (lunaChat (app s) = None ->
     handleUserSpeechResult later text (app s1) = App.Returned a2 /\
     messages a2 = [mkChatMessage (Z_toString later) USER text (Some later) None] /\
     appPhase a2 = PROCESSING_USER_INPUT /\
     gemini a2 = gemini (app s1) /\
     Controls.isDisabledByAppPhase (appPhase a2) = true /\
     (forall start, Controls.click start a2 = a2) /\
     speakingEndedEffect a2 = a2).
Proof.
  intros Hf Hb.
  unfold handleProfileSelected. cbn [andb].
  cbn [gemini setMessages setRecog].
  destruct (initLunaChat (gemini (app s)) (sn_name (symbolicName p)) None create)
    as [chatInstance g] eqn:Hinit.
  cbn [fst] in Hf. subst chatInstance.
  eexists _, _. split; [reflexivity|].
  cbn [app setApp userProfile setLocalStorage setUserProfile
       appPhase setError setAppPhase lunaChat setGemini].
  split; [reflexivity|]. split; [reflexivity|]. split; [reflexivity|].
  split; [reflexivity|].
  intros Hc. unfold handleUserSpeechResult. rewrite truthy_trim, Hb.
  cbn [negb lunaChat setError setAppPhase setGemini setMessages setRecog]. rewrite Hc.
  split; [reflexivity|]. repeat split.
Qed.

Lemma failed_chat_creation_then_utterance_blocks_input_witness :
  let s := first_render ready_service tts_idle Recognition.initial empty_storage in
  let create : jsstring -> list Content -> Settlement Chat :=
    fun _ _ => Rejected (ErrorObj (lit "model not found")) in
  (fst (initLunaChat (gemini (app s)) (sn_name (symbolicName river_profile)) None create)
   = None /\ blank (lit "hello") = false) /\
  exists s1 a2,
    handleProfileSelected create 0 river_profile false s = Some (Returned s1) /\
    handleUserSpeechResult 5000 (lit "hello") (app s1) = App.Returned a2 /\
    appPhase a2 = PROCESSING_USER_INPUT.
Proof.
  intros s create.
  assert (H1 : fst (initLunaChat (gemini (app s)) (sn_name (symbolicName river_profile))
                      None create) = None) by (vm_compute; reflexivity).
  assert (H2 : blank (lit "hello") = false) by (vm_compute; reflexivity).
  split; [tauto|].
  destruct (failed_chat_creation_then_utterance_blocks_input create 0 river_profile s
              5000 (lit "hello") H1 H2) as (s1 & a2 & Hh & _ & _ & _ & _ & H).
  exists s1, a2. split; [exact Hh|].
  destruct (H eq_refl) as (H3 & _ & H4 & _). split; [exact H3|exact H4].
Defined.

Lemma applyTheme_keeps t s :
  app (applyTheme t s) = app s /\ userProfile (applyTheme t s) = userProfile s /\
  isInitialized (applyTheme t s) = isInitialized s /\
  loadUserProfile (localStorage (applyTheme t s)) = loadUserProfile (localStorage s) /\
  (forall id, loadChatHistory id (localStorage (applyTheme t s))
              = loadChatHistory id (localStorage s)).
Proof.
  unfold applyTheme. destruct (existsb _ _); [|repeat split].
  cbn [app userProfile isInitialized localStorage]. repeat split.
  - apply loadUserProfile_getItem, getItem_saveSelectedTheme.
    intros H. symmetry in H. now apply theme_key_is_no_profile_key.
  - intros id. apply loadChatHistory_getItem, getItem_saveSelectedTheme.
    intros H. symmetry in H. now apply theme_key_is_no_history_key in H.
Qed.

Lemma mountEffect_with_stored_history key create now g tts recog st p m chat :
  truthy key = true ->
  loadUserProfile st = object_of_profile p ->
  persistent p = true ->
  loadChatHistory (sn_id (symbolicName p)) st = Some (map object_of_message m) ->
  m <> [] ->
  ai g <> None ->
  create (sn_name (symbolicName p)) (convertMessagesToGeminiHistory m) = Fulfilled chat ->
  exists s',
    mountEffect (Some key) create now (first_render g tts recog st) = Some (Returned s') /\
    messages (app s') = m /\
    userProfile s' = Some p /\
    lunaChat (app s') = Some chat /\
    appPhase (app s') = READY_TO_CHAT /\
    isInitialized s' = true /\
    metrics (gemini (app s')) = metrics g /\
    timers (app s') = [] /\
    Synthesis.queue (App.tts (app s')) = Synthesis.queue tts.
Proof.
  intros Hkey Hprofile Hpers Hhist Hm Hai Hcreate.
  unfold mountEffect. cbn [truthy_opt]. rewrite Hkey. cbn [negb].
  set (s0 := applyTheme _ (first_render g tts recog st)).
  destruct (applyTheme_keeps
              (if truthy_opt (loadSelectedTheme (localStorage (first_render g tts recog st)))
               then default [] (loadSelectedTheme (localStorage (first_render g tts recog st)))
               else lit "cosmic-night")
              (first_render g tts recog st)) as (Ha & Hu & Hi & Hlp & Hlh).
  fold s0 in Ha, Hu, Hi, Hlp, Hlh.
  cbn [localStorage first_render] in Hlp, Hlh.
  rewrite Hlp, Hprofile, truthy_value_object, profile_of_value_object, Hpers.
  cbn [localStorage setUserProfile]. rewrite Hlh, Hhist.
  destruct m as [|msg m]; [congruence|].
  cbn [map].
  change (object_of_message msg :: map object_of_message m)
    with (map object_of_message (msg :: m)).
  rewrite messages_of_values_objects.
  cbn [app setUserProfile gemini setMessages]. rewrite Ha. cbn [app first_render gemini].
  destruct (initLunaChat_service g (sn_name (symbolicName p))
              (Some (convertMessagesToGeminiHistory (msg :: m))) create) as (Hmet & Hai' & _).
  assert (Hf : fst (initLunaChat g (sn_name (symbolicName p))
                      (Some (convertMessagesToGeminiHistory (msg :: m))) create) = Some chat).
  { rewrite initLunaChat_fst. destruct (ai g); [|congruence].
    change (default [] (Some (convertMessagesToGeminiHistory (msg :: m))))
      with (convertMessagesToGeminiHistory (msg :: m)).
    now rewrite Hcreate. }
  destruct (initLunaChat g _ _ create) as [chatInstance g'].
  cbn [fst snd] in *. subst chatInstance.
  eexists. split; [reflexivity|].
  cbn [app setApp setIsInitialized messages userProfile setUserProfile lunaChat appPhase
       isInitialized gemini setAppPhase setLunaChat setGemini App.tts].
  repeat split; try assumption.
Qed.

(** X22.  What the effect on the log has stored for a persistent profile is
    what the next start shows: the effect run at mount, on the store that
    the session left, restores the log message by message, sets the
    profile, opens the chat with the history made from it, and ends in
    [READY_TO_CHAT] without any request to the service. *)
Theorem restart_restores_the_log key create now s p g tts recog chat :
  userProfile s = Some p ->
  persistent p = true ->
  isInitialized s = true ->
  sn_id (symbolicName p) <> [] ->
  messages (app s) <> [] ->
  Forall (fun msg => DateTime.valid (msg_timestamp msg) = true) (messages (app s)) ->
  loadUserProfile (localStorage s) = object_of_profile p ->
  accepts (CHAT_HISTORY_PREFIX ++ sn_id (symbolicName p))
          (history_text (messages (app s))) (localStorage s) = true ->
  truthy key = true ->
  ai g <> None ->
  create (sn_name (symbolicName p)) (convertMessagesToGeminiHistory (messages (app s)))
  = Fulfilled chat ->
  exists s',
    mountEffect (Some key) create now
      (first_render g tts recog (localStorage (persistEffect s))) = Some (Returned s') /\
    messages (app s') = messages (app s) /\
    userProfile s' = Some p /\
    lunaChat (app s') = Some chat /\
    appPhase (app s') = READY_TO_CHAT /\
    isInitialized s' = true /\
    metrics (gemini (app s')) = metrics g.
Proof.
  intros Hp Hpers Hinit Hid Hm Hvalid Hprofile Hroom Hkey Hai Hcreate.
  assert (Hst : localStorage (persistEffect s) =
                saveChatHistory (sn_id (symbolicName p)) (messages (app s)) (localStorage s)).
  { unfold persistEffect. rewrite Hp, Hinit, Hpers.
    destruct (messages (app s)); [congruence|]. reflexivity. }
  rewrite Hst.
  destruct (mountEffect_with_stored_history key create now g tts recog
              (saveChatHistory (sn_id (symbolicName p)) (messages (app s)) (localStorage s))
              p (messages (app s)) chat) as (s' & H1 & H2 & H3 & H4 & H5 & H6 & H7 & _);
    try assumption.
  - rewrite <- Hprofile.
    apply loadUserProfile_getItem, getItem_saveChatHistory, profile_key_is_no_history_key.
  - rewrite load_after_save by assumption. now rewrite Hroom.
  - exists s'. repeat split; assumption.
Qed.

Lemma restart_restores_the_log_witness :
  let st := saveUserProfile (object_of_profile river_profile) empty_storage in
  let s := a_session (Some river_profile) abc_log None st in
  let create : jsstring -> list Content -> Settlement Chat := fun _ _ => Fulfilled kind_chat in
  (userProfile s = Some river_profile /\ persistent river_profile = true /\
   isInitialized s = true /\ sn_id (symbolicName river_profile) <> [] /\
   messages (app s) <> [] /\
   Forall (fun msg => DateTime.valid (msg_timestamp msg) = true) (messages (app s)) /\
   loadUserProfile (localStorage s) = object_of_profile river_profile /\
   accepts (CHAT_HISTORY_PREFIX ++ sn_id (symbolicName river_profile))
           (history_text (messages (app s))) (localStorage s) = true /\
   truthy (lit "AIzaSyExample") = true /\ ai ready_service <> None) /\
  exists s',
    mountEffect (Some (lit "AIzaSyExample")) create 9000
      (first_render ready_service tts_idle Recognition.initial
         (localStorage (persistEffect s))) = Some (Returned s') /\
    messages (app s') = abc_log.
Proof.
  intros st s create.
  assert (H1 : userProfile s = Some river_profile) by reflexivity.
  assert (H2 : persistent river_profile = true) by reflexivity.
  assert (H3 : isInitialized s = true) by reflexivity.
  assert (H4 : sn_id (symbolicName river_profile) <> []) by (vm_compute; discriminate).
  assert (H5 : messages (app s) <> []) by (vm_compute; discriminate).
  assert (H6 : Forall (fun msg => DateTime.valid (msg_timestamp msg) = true)
                      (messages (app s))) by (repeat constructor).
  assert (H7 : loadUserProfile (localStorage s) = object_of_profile river_profile)
    by (vm_compute; reflexivity).
  assert (H8 : accepts (CHAT_HISTORY_PREFIX ++ sn_id (symbolicName river_profile))
                 (history_text (messages (app s))) (localStorage s) = true)
    by (vm_compute; reflexivity).
  assert (H9 : truthy (lit "AIzaSyExample") = true) by reflexivity.
  assert (H10 : ai ready_service <> None) by (vm_compute; discriminate).
  split; [tauto|].
  destruct (restart_restores_the_log (lit "AIzaSyExample") create 9000 s river_profile
              ready_service tts_idle Recognition.initial kind_chat
              H1 H2 H3 H4 H5 H6 H7 H8 H9 H10 eq_refl) as (s' & Hm & Hl & _).
  exists s'. split; [exact Hm|exact Hl].
Defined.

(** X23.  At mount with a stored profile: when the profile is ephemeral or
    no history is stored, the greeting request is sent; when a persistent
    profile has a stored history that is the empty list (as after the last
    message was deleted), the chat is opened with no history and the phase
    is [READY_TO_CHAT] with an empty log and no greeting. *)
Theorem start_greets_unless_a_history_is_stored key create now g tts recog st p chat :
  truthy key = true ->
  loadUserProfile st = object_of_profile p ->
  ai g <> None ->
  create (sn_name (symbolicName p)) [] = Fulfilled chat ->
  let start := mountEffect (Some key) create now (first_render g tts recog st) in
  (persistent p = false \/ loadChatHistory (sn_id (symbolicName p)) st = None ->
   exists s' k,
     start = Some (Awaiting s' k) /\
     sent (promise k) = [GREETING_REQUEST] /\
     userProfile s' = Some p /\
     messages (app s') = [] /\
     appPhase (app s') = LUNA_THINKING /\
     isInitialized s' = true) /\
  (persistent p = true -> loadChatHistory (sn_id (symbolicName p)) st = Some [] ->
   exists s',
     start = Some (Returned s') /\
     userProfile s' = Some p /\
     messages (app s') = [] /\
     lunaChat (app s') = Some chat /\
     appPhase (app s') = READY_TO_CHAT /\
     isInitialized s' = true /\
     metrics (gemini (app s')) = metrics g).
Proof.
  intros Hkey Hprofile Hai Hcreate. cbn zeta.
  unfold mountEffect. cbn [truthy_opt]. rewrite Hkey. cbn [negb].
  set (s0 := applyTheme _ (first_render g tts recog st)).
  destruct (applyTheme_keeps
              (if truthy_opt (loadSelectedTheme (localStorage (first_render g tts recog st)))
               then default [] (loadSelectedTheme (localStorage (first_render g tts recog st)))
               else lit "cosmic-night")
              (first_render g tts recog st)) as (Ha & Hu & Hi & Hlp & Hlh).
  fold s0 in Ha, Hu, Hi, Hlp, Hlh.
  cbn [localStorage first_render] in Hlp, Hlh.
  rewrite Hlp, Hprofile, truthy_value_object, profile_of_value_object.
  cbn [localStorage setUserProfile]. rewrite Hlh.
  split.
  - intros Hnone.
    assert (Hh : (if persistent p then loadChatHistory (sn_id (symbolicName p)) st else None)
                 = None).
    { destruct (persistent p); [|reflexivity]. now destruct Hnone. }
    rewrite Hh.
    destruct (handleProfileSelected_without_prior create now p true
                (setUserProfile (Some p) s0) chat)
      as (s1 & k & reply & H1 & H2 & H3 & H4 & H5 & H6 & H7 & _).
    + cbn [andb localStorage setUserProfile]. rewrite Hlh.
      destruct Hnone as [Hn|Hn]; [now left|now right].
    + cbn [app setUserProfile]. now rewrite Ha.
    + exact Hcreate.
    + rewrite H1. cbn [option_map finish].
      eexists _, _. split; [reflexivity|].
      cbn [userProfile app setIsInitialized isInitialized]. repeat split; assumption.
  - intros Hpers Hempty. rewrite Hpers, Hempty.
    unfold handleProfileSelected. cbn [andb]. rewrite Hpers.
    cbn [localStorage setUserProfile setLocalStorage].
    rewrite (loadChatHistory_getItem _ (localStorage s0));
      [|apply getItem_saveUserProfile; intros H; symmetry in H;
        now apply profile_key_is_no_history_key in H].
    rewrite Hlh, Hempty.
    cbn [app setUserProfile]. rewrite Ha. cbn [app first_render lunaChat mapM mret option_ret].
    cbn [gemini setRecog].
    change (convertMessagesToGeminiHistory []) with (@nil Content).
    destruct (initLunaChat_service g (sn_name (symbolicName p)) (Some []) create)
      as (Hmet & _ & _).
    assert (Hf : fst (initLunaChat g (sn_name (symbolicName p)) (Some []) create)
                 = Some chat).
    { rewrite initLunaChat_fst. destruct (ai g); [|congruence].
      change (default [] (Some [])) with (@nil Content). now rewrite Hcreate. }
    destruct (initLunaChat g _ _ create) as [chatInstance g'].
    cbn [fst snd] in *. subst chatInstance.
    cbn [option_map finish].
    eexists. split; [reflexivity|].
    cbn [app setApp setIsInitialized messages userProfile setUserProfile lunaChat appPhase
         isInitialized gemini setAppPhase setLunaChat setGemini setLocalStorage setRecog].
    repeat split; assumption.
Qed.

Lemma start_greets_unless_a_history_is_stored_witness :
  let st := saveUserProfile (object_of_profile river_profile) empty_storage in
  let one := a_session (Some river_profile) [mkChatMessage (lit "1") USER (lit "a") (Some 1000%Z) None]
                       None st in
  let emptied := localStorage (handleDeleteMessage (lit "1") one) in
  let create : jsstring -> list Content -> Settlement Chat := fun _ _ => Fulfilled kind_chat in
  (truthy (lit "AIzaSyExample") = true /\
   loadUserProfile emptied = object_of_profile river_profile /\
   ai ready_service <> None /\
   persistent river_profile = true /\
   loadChatHistory (lit "river") st = None /\
   loadChatHistory (lit "river") emptied = Some []) /\
  (exists s' k,
     mountEffect (Some (lit "AIzaSyExample")) create 0
       (first_render ready_service tts_idle Recognition.initial st) = Some (Awaiting s' k)) /\
  (exists s',
     mountEffect (Some (lit "AIzaSyExample")) create 0
       (first_render ready_service tts_idle Recognition.initial emptied) = Some (Returned s') /\
     appPhase (app s') = READY_TO_CHAT).
Proof.
  intros st one emptied create.
  assert (H1 : truthy (lit "AIzaSyExample") = true) by reflexivity.
  assert (H2 : loadUserProfile emptied = object_of_profile river_profile)
    by (vm_compute; reflexivity).
  assert (H2' : loadUserProfile st = object_of_profile river_profile)
    by (vm_compute; reflexivity).
  assert (H3 : ai ready_service <> None) by (vm_compute; discriminate).
  assert (H4 : persistent river_profile = true) by reflexivity.
  assert (H5 : loadChatHistory (lit "river") st = None) by (vm_compute; reflexivity).
  assert (H6 : loadChatHistory (lit "river") emptied = Some []) by (vm_compute; reflexivity).
  split; [repeat split; assumption|]. split.
  - destruct (start_greets_unless_a_history_is_stored (lit "AIzaSyExample") create 0
                ready_service tts_idle Recognition.initial st river_profile kind_chat
                H1 H2' H3 eq_refl) as [Hg _].
    destruct (Hg (or_intror H5)) as (s' & k & Hs & _). exists s', k. exact Hs.
  - destruct (start_greets_unless_a_history_is_stored (lit "AIzaSyExample") create 0
                ready_service tts_idle Recognition.initial emptied river_profile kind_chat
                H1 H2 H3 eq_refl) as [_ Hq].
    destruct (Hq H4 H6) as (s' & Hs & _ & _ & _ & Hp & _). exists s'. split; [exact Hs|exact Hp].
Defined.

(** X24.  At mount without [process.env.API_KEY] (undefined or empty) the
    error is [API_KEY_MISSING] and the phase [ERROR]; the stored profile is
    not read, no chat is created, and the profile and the histories in the
    store are left as they are. *)
Theorem missing_api_key_blocks_the_session API_KEY create now s :
  truthy_opt API_KEY = false ->
  exists s',
    mountEffect API_KEY create now s = Some (Returned s') /\
    error (app s') = Some (lit "API_KEY_MISSING") /\
    appPhase (app s') = ERROR /\
    isInitialized s' = true /\
    userProfile s' = userProfile s /\
    messages (app s') = messages (app s) /\
    lunaChat (app s') = lunaChat (app s) /\
    gemini (app s') = gemini (app s) /\
    loadUserProfile (localStorage s') = loadUserProfile (localStorage s) /\
    (forall id, loadChatHistory id (localStorage s') = loadChatHistory id (localStorage s)).
Proof.
  intros Hkey. unfold mountEffect. rewrite Hkey. cbn [negb].
  set (t := if truthy_opt _ then _ else _).
  destruct (applyTheme_keeps t s) as (Ha & Hu & Hi & Hlp & Hlh).
  eexists. split; [reflexivity|].
  cbn [app setApp setIsInitialized error appPhase isInitialized userProfile messages
       lunaChat gemini localStorage setError setAppPhase].
  rewrite Ha. repeat split; assumption.
Qed.

Lemma missing_api_key_blocks_the_session_witness :
  let s := first_render ready_service tts_idle Recognition.initial
             (saveUserProfile (object_of_profile river_profile) empty_storage) in
  truthy_opt (Some []) = false /\
  exists s',
    mountEffect (Some []) (fun _ _ => Fulfilled kind_chat) 0 s = Some (Returned s') /\
    appPhase (app s') = ERROR /\ userProfile s' = None.
Proof.
  intros s.
  assert (H : truthy_opt (Some []) = false) by reflexivity.
  split; [exact H|].
  destruct (missing_api_key_blocks_the_session (Some []) (fun _ _ => Fulfilled kind_chat) 0 s H)
    as (s' & H1 & _ & H2 & _ & H3 & _).
  exists s'. split; [exact H1|]. split; [exact H2|exact H3].
Defined.

End SessionFacts.

(** ** The name form and the voice list *)

Section NameFormFacts.
Import NameForm.

Lemma replace_runs_no_white_space b s :
  forallb (fun c => negb (is_whitespace c)) (replace_runs b s) = true.
Proof.
  revert b. induction s as [|c s IH]; intros b; [reflexivity|].
  cbn [replace_runs]. destruct (is_whitespace c) eqn:Hc.
  - destruct b; [apply IH|]. cbn [forallb]. rewrite IH. reflexivity.
  - cbn [forallb]. now rewrite Hc, IH.
Qed.

Lemma replace_runs_not_empty s : s <> [] -> replace_runs false s <> [].
Proof.
  destruct s as [|c s]; [congruence|]. intros _. cbn [replace_runs].
  destruct (is_whitespace c); discriminate.
Qed.

(** X25.  The name that [handleCustomNameSubmit] accepts has an id that is
    not empty and contains no white space, and its display name is the
    trimmed input; a blank input is not accepted.  (Of [toLowerCase] only
    this is used: it does not make a string empty.) *)
Theorem custom_name_gives_an_id_without_white_space toLowerCase customName d :
  (forall s, s <> [] -> toLowerCase s <> []) ->
  handleCustomNameSubmit toLowerCase customName = Some d ->
  sn_id d <> [] /\
  forallb (fun c => negb (is_whitespace c)) (sn_id d) = true /\
  sn_name d = trim customName /\
  blank customName = false.
Proof.
  intros Hlower. unfold handleCustomNameSubmit.
  destruct (truthy (trim customName)) eqn:Ht; [|discriminate].
  intros [= <-]. cbn [sn_id sn_name].
  assert (Hne : trim customName <> []) by (intros E; now rewrite E in Ht).
  split; [now apply replace_runs_not_empty, Hlower|].
  split; [apply replace_runs_no_white_space|]. split; [reflexivity|].
  rewrite truthy_trim in Ht. now destruct (blank customName).
Qed.

Lemma custom_name_gives_an_id_without_white_space_witness :
  (forall s, s <> [] -> lower_ascii s <> []) /\
  handleCustomNameSubmit lower_ascii (lit "  Night   Owl ")
  = Some {| sn_id := lit "night-owl"; sn_name := lit "Night   Owl" |} /\
  lit "night-owl" <> [].
Proof.
  assert (H1 : forall s, s <> [] -> lower_ascii s <> [])
    by (intros [|c s] H; [congruence|discriminate]).
  assert (H2 : handleCustomNameSubmit lower_ascii (lit "  Night   Owl ")
               = Some {| sn_id := lit "night-owl"; sn_name := lit "Night   Owl" |})
    by (vm_compute; reflexivity).
  split; [exact H1|]. split; [exact H2|].
  exact (proj1 (custom_name_gives_an_id_without_white_space lower_ascii _ _ H1 H2)).
Defined.

End NameFormFacts.

Section VoiceFacts.
Import Voices.

Lemma enIN_is_en v : is_enIN v = true -> is_en v = true.
Proof.
  unfold is_enIN, is_en. intros H. apply eqb_eq in H. rewrite H.
  vm_compute. reflexivity.
Qed.

Lemma compare_rank a b : (compare a b <=? 0)%Z = (rank a <=? rank b).
Proof.
  unfold compare, rank.
  pose proof (enIN_is_en a) as Ha. pose proof (enIN_is_en b) as Hb.
  destruct (is_enIN a), (is_en a), (is_enIN b), (is_en b); cbn; try reflexivity;
    try (specialize (Ha eq_refl); discriminate);
    try (specialize (Hb eq_refl); discriminate).
Qed.

Lemma insert_first a l :
  Forall (fun b => rank a <= rank b) l -> insert a l = a :: l.
Proof.
  destruct l as [|b l]; [reflexivity|]. intros H. inversion_clear H as [|? ? Hb _].
  cbn [insert]. rewrite compare_rank.
  apply Nat.leb_le in Hb. now rewrite Hb.
Qed.

Lemma insert_past a p q :
  Forall (fun b => rank b < rank a) p -> insert a (p ++ q) = p ++ insert a q.
Proof.
  induction 1 as [|b p Hb _ IH]; [reflexivity|].
  cbn [app insert]. rewrite compare_rank.
  apply Nat.leb_gt in Hb. now rewrite Hb, IH.
Qed.

Lemma ranked_rank k l : Forall (fun v => rank v = k) (ranked k l).
Proof.
  apply List.Forall_forall. intros v Hv. apply List.filter_In in Hv as [_ Hv].
  now apply Nat.eqb_eq.
Qed.

Lemma rank_le_2 v : rank v <= 2.
Proof. unfold rank. destruct (is_enIN v), (is_en v); lia. Qed.

(** The sorted list: the voices of each rank, in the order in which the
    platform gave them. *)
Lemma sort_by_rank l : sort l = ranked 0 l ++ ranked 1 l ++ ranked 2 l.
Proof.
  induction l as [|a l IH]; [reflexivity|].
  unfold sort in *. cbn [foldr]. rewrite IH. unfold ranked. cbn [List.filter].
  fold (ranked 0 l) (ranked 1 l) (ranked 2 l).
  pose proof (ranked_rank 0 l) as H0. pose proof (ranked_rank 1 l) as H1.
  pose proof (ranked_rank 2 l) as H2. pose proof (rank_le_2 a) as Ha.
  assert (L0 : forall k, rank a <= k -> Forall (fun b => rank a <= rank b) (ranked k l)).
  { intros k Hk. eapply List.Forall_impl; [|apply ranked_rank]. cbn. intros b ->. exact Hk. }
  assert (L1 : forall k, k < rank a -> Forall (fun b => rank b < rank a) (ranked k l)).
  { intros k Hk. eapply List.Forall_impl; [|apply ranked_rank]. cbn. intros b ->. exact Hk. }
  destruct (rank a) as [|[|[|n]]] eqn:Hr; cbn [Nat.eqb]; [| | |lia].
  - apply insert_first. rewrite Hr.
    apply List.Forall_forall. intros b _. lia.
  - rewrite insert_past by (rewrite Hr; apply L1; lia).
    rewrite insert_first; [reflexivity|]. rewrite Hr.
    apply Forall_app. split; apply L0; lia.
  - rewrite app_assoc, insert_past.
    + rewrite insert_first; [now rewrite <- app_assoc|]. rewrite Hr. apply L0. lia.
    + rewrite Hr. apply Forall_app. split; apply L1; lia.
Qed.

Lemma filter_en_ranked l :
  List.filter is_en (ranked 0 l) = List.filter is_enIN l /\
  List.filter is_en (ranked 1 l) = List.filter (fun v => is_en v && negb (is_enIN v)) l /\
  List.filter is_en (ranked 2 l) = [].
Proof.
  unfold ranked. induction l as [|a l (I0 & I1 & I2)]; [repeat split|].
  cbn [List.filter].
  pose proof (enIN_is_en a) as Ha.
  destruct (is_enIN a) eqn:E1.
  - assert (Hr : rank a = 0) by (unfold rank; now rewrite E1).
    rewrite Hr, (Ha eq_refl). cbn [Nat.eqb List.filter andb negb].
    rewrite (Ha eq_refl). now rewrite I0, I1, I2.
  - destruct (is_en a) eqn:E2.
    + assert (Hr : rank a = 1) by (unfold rank; now rewrite E1, E2).
      rewrite Hr. cbn [Nat.eqb List.filter andb negb]. rewrite E2.
      now rewrite I0, I1, I2.
    + assert (Hr : rank a = 2) by (unfold rank; now rewrite E1, E2).
      rewrite Hr. cbn [Nat.eqb List.filter andb negb]. rewrite E2.
      now rewrite I0, I1, I2.
Qed.

Lemma english_voices_sorted l :
  List.filter is_en (sort l) =
  List.filter is_enIN l ++ List.filter (fun v => is_en v && negb (is_enIN v)) l.
Proof.
  rewrite sort_by_rank, !List.filter_app.
  destruct (filter_en_ranked l) as (-> & -> & ->). now rewrite app_nil_r.
Qed.

Lemma supportedVoices_populate toLowerCase getVoices h :
  isSupported h = true ->
  supportedVoices (populateVoiceList toLowerCase getVoices h) =
  List.filter is_en (sort getVoices).
Proof.
  intros Hs. unfold populateVoiceList. rewrite Hs. cbn [negb].
  now destruct (_ && _).
Qed.

(** X26.  After [populateVoiceList] the supported voices are exactly the
    English voices of the platform: those of en-IN first, then the others,
    each group in the order of the platform.  A voice that is already
    selected stays selected. *)
Theorem supported_voices_are_english_indian_first toLowerCase getVoices h :
  isSupported h = true ->
  let h' := populateVoiceList toLowerCase getVoices h in
  supportedVoices h' =
    List.filter is_enIN getVoices ++
    List.filter (fun v => is_en v && negb (is_enIN v)) getVoices /\
  Forall (fun v => is_en v = true) (supportedVoices h') /\
  (truthy_opt (selectedVoiceURI h) = true -> selectedVoiceURI h' = selectedVoiceURI h).
Proof.
  intros Hs. cbn zeta. rewrite supportedVoices_populate by exact Hs. split; [|split].
  - apply english_voices_sorted.
  - apply List.Forall_forall. intros v Hv. now apply List.filter_In in Hv as [_ Hv].
  - intros Hsel. unfold populateVoiceList. rewrite Hs, Hsel. cbn [negb].
    now rewrite andb_false_r.
Qed.

Lemma supported_voices_are_english_indian_first_witness :
  let h := mkHook true [] None in
  isSupported h = true /\
  map name (supportedVoices (populateVoiceList NameForm.lower_ascii some_voices h))
  = [lit "Rishi"; lit "Google US English"; lit "Daniel"].
Proof.
  intros h.
  assert (H : isSupported h = true) by reflexivity.
  split; [exact H|].
  rewrite (proj1 (supported_voices_are_english_indian_first NameForm.lower_ascii
                    some_voices h H)).
  vm_compute. reflexivity.
Defined.

Lemma or_else_found (p : Voice -> bool) voices rest :
  Forall (fun v => voiceURI v <> []) voices ->
  or_else (voiceURI_of (List.find p voices)) rest =
  match List.find p voices with
  | Some w => Some (voiceURI w)
  | None => rest
  end.
Proof.
  intros Huri. destruct (List.find p voices) as [w|] eqn:Hf; [|reflexivity].
  apply List.find_some in Hf as [Hin _].
  rewrite List.Forall_forall in Huri. specialize (Huri w Hin).
  unfold or_else, voiceURI_of. cbn. now destruct (voiceURI w).
Qed.

(** X27.  The first selection, all voices having a URI: when the platform
    offers a voice of en-IN, the selected voice is one of en-IN; when it
    offers an English voice, the selected voice is English; when it offers
    no English voice, nothing is selected and no voice is supported. *)
Theorem first_selection_prefers_indian_english toLowerCase getVoices h :
  isSupported h = true ->
  truthy_opt (selectedVoiceURI h) = false ->
  Forall (fun v => voiceURI v <> []) getVoices ->
  let h' := populateVoiceList toLowerCase getVoices h in
  (forall v, In v getVoices -> is_enIN v = true ->
     exists w, In w getVoices /\ is_enIN w = true /\
               selectedVoiceURI h' = Some (voiceURI w)) /\
  (forall v, In v getVoices -> is_en v = true ->
     exists w, In w getVoices /\ is_en w = true /\
               selectedVoiceURI h' = Some (voiceURI w)) /\
  ((forall v, In v getVoices -> is_en v = false) ->
   selectedVoiceURI h' = selectedVoiceURI h /\ supportedVoices h' = []).
Proof.
  intros Hs Hsel Huri. cbn zeta.
  set (voices := List.filter is_en (sort getVoices)).
  assert (Hin : forall w, In w voices <-> In w getVoices /\ is_en w = true).
  { intros w. subst voices. rewrite english_voices_sorted, List.in_app_iff, !List.filter_In.
    split.
    - intros [[H1 H2]|[H1 H2]]; [split; [exact H1|now apply enIN_is_en]|].
      apply andb_true_iff in H2 as [H2 _]. now split.
    - intros [H1 H2]. destruct (is_enIN w) eqn:E; [left; now split|].
      right. split; [exact H1|]. now rewrite H2. }
  assert (Huri' : Forall (fun v => voiceURI v <> []) voices).
  { apply List.Forall_forall. intros w Hw. apply Hin in Hw as [Hw _].
    rewrite List.Forall_forall in Huri. now apply Huri. }
  assert (Hsome : forall v, In v voices ->
            populateVoiceList toLowerCase getVoices h =
            mkHook true voices
              (match List.find (fun v => is_enIN v && is_google toLowerCase v &&
                                         is_female toLowerCase v) voices with
               | Some w => Some (voiceURI w)
               | None =>
               match List.find (fun v => is_enIN v && is_female toLowerCase v) voices with
               | Some w => Some (voiceURI w)
               | None =>
               match List.find is_enIN voices with
               | Some w => Some (voiceURI w)
               | None =>
               match List.find (fun v => is_en v && is_google toLowerCase v &&
                                          is_female toLowerCase v) voices with
               | Some w => Some (voiceURI w)
               | None =>
               match List.find (fun v => is_en v && is_female toLowerCase v) voices with
               | Some w => Some (voiceURI w)
               | None =>
               match List.find is_en voices with
               | Some w => Some (voiceURI w)
               | None => voiceURI_of (head voices)
               end end end end end end)).
  { intros v Hv. unfold populateVoiceList. rewrite Hs, Hsel. cbn [negb andb].
    fold voices. destruct voices as [|x voices'] eqn:Ev; [destruct Hv|].
    rewrite <- Ev in *. 
    assert (Hlen : (0 <? length voices) = true) by (rewrite Ev; reflexivity).
    rewrite Hlen, andb_true_r. cbn [andb].
    now rewrite !or_else_found by exact Huri'. }
  assert (Hfind : forall (p : Voice -> bool) w, List.find p voices = Some w ->
                    In w getVoices /\ is_en w = true /\ p w = true).
  { intros p w Hf. apply List.find_some in Hf as [H1 H2].
    apply Hin in H1 as [H1 H3]. now repeat split. }
  split; [|split].
  - intros v Hv Hind.
    assert (Hvin : In v voices) by (apply Hin; split; [exact Hv|now apply enIN_is_en]).
    rewrite (Hsome v Hvin). cbn [selectedVoiceURI].
    destruct (List.find (fun v => is_enIN v && is_google toLowerCase v &&
                                  is_female toLowerCase v) voices) as [w|] eqn:F1.
    { apply Hfind in F1 as (H1 & _ & H2). exists w.
      apply andb_true_iff in H2 as [H2 _]. apply andb_true_iff in H2 as [H2 _].
      now repeat split. }
    destruct (List.find (fun v => is_enIN v && is_female toLowerCase v) voices)
      as [w|] eqn:F2.
    { apply Hfind in F2 as (H1 & _ & H2). exists w.
      apply andb_true_iff in H2 as [H2 _]. now repeat split. }
    destruct (List.find is_enIN voices) as [w|] eqn:F3.
    { apply Hfind in F3 as (H1 & _ & H2). exists w. now repeat split. }
    pose proof (List.find_none _ _ F3 v Hvin) as Hno. congruence.
  - intros v Hv Hen.
    assert (Hvin : In v voices) by (apply Hin; now split).
    rewrite (Hsome v Hvin). cbn [selectedVoiceURI].
    destruct (List.find (fun v => is_enIN v && is_google toLowerCase v &&
                                  is_female toLowerCase v) voices) as [w|] eqn:F1.
    { apply Hfind in F1 as (H1 & H3 & _). exists w. now repeat split. }
    destruct (List.find (fun v => is_enIN v && is_female toLowerCase v) voices)
      as [w|] eqn:F2.
    { apply Hfind in F2 as (H1 & H3 & _). exists w. now repeat split. }
    destruct (List.find is_enIN voices) as [w|] eqn:F3.
    { apply Hfind in F3 as (H1 & H3 & _). exists w. now repeat split. }
    destruct (List.find (fun v => is_en v && is_google toLowerCase v &&
                                  is_female toLowerCase v) voices) as [w|] eqn:F4.
    { apply Hfind in F4 as (H1 & H3 & _). exists w. now repeat split. }
    destruct (List.find (fun v => is_en v && is_female toLowerCase v) voices)
      as [w|] eqn:F5.
    { apply Hfind in F5 as (H1 & H3 & _). exists w. now repeat split. }
    destruct (List.find is_en voices) as [w|] eqn:F6.
    { apply Hfind in F6 as (H1 & H3 & _). exists w. now repeat split. }
    pose proof (List.find_none _ _ F6 v Hvin) as Hno. congruence.
  - intros Hnone.
    assert (Hnil : voices = []).
    { destruct voices as [|x voices'] eqn:Ev; [reflexivity|].
      destruct (proj1 (Hin x) (or_introl eq_refl)) as [Hx1 Hx2].
      rewrite (Hnone x Hx1) in Hx2. discriminate. }
    unfold populateVoiceList. rewrite Hs. cbn [negb]. fold voices. rewrite Hnil.
    cbn. split; reflexivity.
Qed.

Lemma first_selection_prefers_indian_english_witness :
  let h := mkHook true [] None in
  (isSupported h = true /\ truthy_opt (selectedVoiceURI h) = false /\
   Forall (fun v => voiceURI v <> []) some_voices) /\
  selectedVoiceURI (populateVoiceList NameForm.lower_ascii some_voices h)
  = Some (lit "urn:rishi").
Proof.
  intros h.
  assert (H1 : isSupported h = true) by reflexivity.
  assert (H2 : truthy_opt (selectedVoiceURI h) = false) by reflexivity.
  assert (H3 : Forall (fun v => voiceURI v <> []) some_voices)
    by (repeat constructor; vm_compute; discriminate).
  split; [repeat split; assumption|].
  destruct (first_selection_prefers_indian_english NameForm.lower_ascii some_voices h
              H1 H2 H3) as (_ & _ & _).
  vm_compute. reflexivity.
Defined.

End VoiceFacts.
